(** * Headless controllers of @jamwidgets/core (src/src/index.ts)

    A shallow embedding of the nine controller classes
    (SubscribeController, WaitlistController, FormController,
    ReactionsController, CommentsController, FeedbackController,
    PollController, AnnouncementsController, ViewCountsController) and of
    the observable-state pattern they all repeat: a private [_state], a
    [Set] of listeners, [getState], [subscribe] and [notify].

    Modelling choices.
    - An [async] method suspends only at its [await] of a transport
      function.  Each method is split there: the synchronous prefix is the
      [call] of the controller, the code after the [await] (the rest of the
      [try] block and the [catch] block) is its [resume], indexed by what is
      awaited.  The transport is the environment: it settles an awaited
      request with [Resolved r] or [Rejected v], at any later time and in any
      order.
    - Objects that the code copies, shares or updates in place (the counts
      record, the arrays, the id set, the poll object) live in a heap and are
      held by reference; records of primitives are values, and so are the
      elements of the comment and announcement arrays, which the controllers
      only pass along.
    - A listener is a callback identity; calling it is recorded in a log
      together with the snapshot it receives.  A listener does not call
      back into the controller.  The controllers are given twice: first
      with listeners that return, which is what the runs and the
      invariants are about; then, in [Throwing], with listeners that may
      throw.  The two agree while the listeners return ([invoke_agrees],
      [resume_agrees], [subscribe_agrees]). *)

From Stdlib Require Import ZArith Ascii.
From stdpp Require Import base option list strings gmap pretty.

Set Warnings "-register-all".

(** ** Values shared by all controllers *)

(** [type ControllerStatus = "idle" | "loading" | "success" | "error"] *)
Inductive ControllerStatus := Idle | Loading | Success | Error.

#[global] Instance ControllerStatus_eq_dec : EqDecision ControllerStatus.
Proof. solve_decision. Defined.

(** A JavaScript [Error] object: its [name] and its [message]. *)
Record JsError := mkJsError { err_name : string; err_message : string }.

#[global] Instance JsError_eq_dec : EqDecision JsError.
Proof. solve_decision. Defined.

(** What a [catch (e)] clause can receive: an [Error] instance or any other
    thrown value. *)
Inductive JsValue :=
  | VUndefined
  | VNull
  | VBool (b : bool)
  | VString (s : string)
  | VError (e : JsError).

(** [String(v)] for a value that is not an [Error]; for an [Error] it is
    ["name: message"] ([Error.prototype.toString]). *)
Definition String_ (v : JsValue) : string :=
  match v with
  | VUndefined => "undefined"
  | VNull => "null"
  | VBool true => "true"
  | VBool false => "false"
  | VString s => s
  | VError e => err_name e +:+ ": " +:+ err_message e
  end.

(** [new Error(msg)] *)
Definition new_Error (msg : string) : JsError :=
  {| err_name := "Error"; err_message := msg |}.

(** The first line of every [catch] block:
    [const error = e instanceof Error ? e : new Error(String(e));]
    ([VError] is the case [e instanceof Error]). *)
Definition catch_error (e : JsValue) : JsError :=
  match e with
  | VError err => err
  | _ => new_Error (String_ e)
  end.

(** [interface JamWidgetsConfig] *)
Record JamWidgetsConfig := { siteKey : string; endpoint : option string }.

(** [interface Comment]; [replies] nests the thread. *)
Inductive Comment :=
  mkComment (id pageId : string) (parentId : option string)
            (authorName content createdAt : string) (replies : list Comment).

Inductive AnnouncementType := AtInfo | AtWarning | AtSuccess | AtError.

(** [interface Announcement] *)
Record Announcement := {
  ann_id : Z;
  ann_content : string;
  announcementType : AnnouncementType;
  linkUrl : option string;
  linkText : option string;
  isDismissible : bool }.

Inductive ShowResultsMode := SrAlways | SrAfterVote | SrAfterEnd | SrNever.
Record PollOption := { opt_id : string; opt_text : string }.
Record PollSettings := { multiSelect : bool; showResults : ShowResultsMode }.

Inductive FeedbackType := FtBug | FtFeature | FtGeneral.

(** ** The transport: requests and their settlement *)

(** The options object each controller method hands to its transport
    function ([subscribe], [joinWaitlist], [submitForm], ...). *)
Inductive Request :=
  | subscribe_rq (config : JamWidgetsConfig) (email : string)
  | joinWaitlist_rq (config : JamWidgetsConfig) (email : string)
                    (name source : option string)
  | submitForm_rq (config : JamWidgetsConfig) (formSlug : string)
                  (data : gmap string JsValue) (formLoadTime : Z)
  | fetchReactions_rq (config : JamWidgetsConfig) (pageId : string)
  | addReaction_rq (config : JamWidgetsConfig) (pageId reactionType : string)
  | removeReaction_rq (config : JamWidgetsConfig) (pageId reactionType : string)
  | fetchComments_rq (config : JamWidgetsConfig) (pageId : string)
  | postComment_rq (config : JamWidgetsConfig) (pageId authorName content : string)
                   (authorEmail parentId : option string)
  | submitFeedback_rq (config : JamWidgetsConfig) (type : FeedbackType)
                      (content : string) (email pageUrl : option string)
  | fetchPoll_rq (config : JamWidgetsConfig) (slug : string)
  | votePoll_rq (config : JamWidgetsConfig) (slug : string)
                (selectedOptions : list string)
  | fetchAnnouncements_rq (config : JamWidgetsConfig)
  | dismissAnnouncement_rq (config : JamWidgetsConfig) (announcementId : Z)
  | getViewCounts_rq (config : JamWidgetsConfig) (pageId : string)
  | recordView_rq (config : JamWidgetsConfig) (pageId : string).

(** How an awaited promise settles. *)
Inductive Outcome (T : Type) :=
  | Resolved (result : T)
  | Rejected (e : JsValue).
Arguments Resolved {T} result.
Arguments Rejected {T} e.

(** How a method's own promise settles: [return v] or [throw error]. *)
Inductive Completion (R : Type) :=
  | Returned (v : R)
  | Threw (error : JsError).
Arguments Returned {R} v.
Arguments Threw {R} error.

(** Where a run of controller code stops.  The method is over; or it is
    suspended at an [await] of the transport request [rq], to be resumed at
    [a]; or it awaits a promise of the controller's own code that has just
    settled with [o], and its continuation [a] is queued to run next. *)
Inductive Next (A : Type) (T : A → Type) (R : Type) :=
  | Done (c : Completion R)
  | Suspend (a : A) (rq : Request)
  | Continue (a : A) (o : Outcome (T a)).
Arguments Done {A T R} c.
Arguments Suspend {A T R} a rq.
Arguments Continue {A T R} a o.

(** ** The heap *)

Abbreviation loc := nat.

(** The poll object ([interface PollWithResults]).  [results] and
    [userVotes] are the containers that [vote] replaces; they are held by
    reference.  [options] is never touched by the controller and is kept as
    a value. *)
Record PollWithResults := {
  poll_id : Z;
  question : string;
  options : list PollOption;
  settings : PollSettings;
  endsAt : option string;
  isActive : bool;
  results : loc;
  totalVotes : Z;
  userVotes : option loc }.

Inductive cell :=
  | CRecord (m : gmap string Z)            (* Record<string, number> *)
  | CStrings (l : list string)             (* string[] *)
  | CIdSet (s : gset Z)                    (* Set<number> *)
  | CComments (l : list Comment)           (* Comment[] *)
  | CAnnouncements (l : list Announcement) (* Announcement[] *)
  | CPoll (p : PollWithResults).

Abbreviation Heap := (list cell).

(** A new object is placed after all existing ones. *)
Definition alloc (c : cell) (h : Heap) : loc * Heap := (length h, h ++ [c]).

(** In-place update of the object at [l]. *)
Definition store (l : loc) (c : cell) (h : Heap) : Heap := <[l := c]> h.

Definition read_record (h : Heap) (l : loc) : gmap string Z :=
  match h !! l with Some (CRecord m) => m | _ => ∅ end.
Definition read_strings (h : Heap) (l : loc) : list string :=
  match h !! l with Some (CStrings x) => x | _ => [] end.
Definition read_idset (h : Heap) (l : loc) : gset Z :=
  match h !! l with Some (CIdSet s) => s | _ => ∅ end.
Definition read_comments (h : Heap) (l : loc) : list Comment :=
  match h !! l with Some (CComments x) => x | _ => [] end.
Definition read_announcements (h : Heap) (l : loc) : list Announcement :=
  match h !! l with Some (CAnnouncements x) => x | _ => [] end.
Definition read_poll (h : Heap) (l : loc) : option PollWithResults :=
  match h !! l with Some (CPoll p) => Some p | _ => None end.

(** ** The observable state cell

    The part every controller class repeats verbatim: the fields [_state]
    and [listeners], and the methods [getState], [subscribe] and [notify].
    [copy] is the object literal that the class returns from [getState]. *)

(** A listener is identified by its function identity. *)
Abbreviation Listener := nat.

(** [Set<ControllerListener<T>>]: iterated in insertion order, no element
    twice. *)
Definition Set_add (x : Listener) (s : list Listener) : list Listener :=
  if decide (x ∈ s) then s else s ++ [x].

Definition Set_delete (x : Listener) (s : list Listener) : list Listener * bool :=
  (filter (λ y, y ≠ x) s, bool_decide (x ∈ s)).

(** An instance: its remaining private fields (config, page id, ...), its
    [_state], its listeners, and the heap it lives in. *)
Record World (P S : Type) := mkWorld {
  fields : P;
  _state : S;
  listeners : list Listener;
  heap : Heap }.
Arguments mkWorld {P S}.
Arguments fields {P S}.
Arguments _state {P S}.
Arguments listeners {P S}.
Arguments heap {P S}.

(** The calls made to listeners, oldest first, each with the snapshot
    object it was given. *)
Abbreviation Log S := (list (Listener * S)).

Section Cell.
Context {P S : Type}.
Variable copy : S → Heap → S * Heap.

Definition set_state (s : S) (w : World P S) : World P S :=
  mkWorld (fields w) s (listeners w) (heap w).
Definition set_listeners (ls : list Listener) (w : World P S) : World P S :=
  mkWorld (fields w) (_state w) ls (heap w).
Definition set_heap (h : Heap) (w : World P S) : World P S :=
  mkWorld (fields w) (_state w) (listeners w) h.
Definition set_fields (p : P) (w : World P S) : World P S :=
  mkWorld p (_state w) (listeners w) (heap w).

(** [getState() { return { ...this._state, <copied containers> }; }] *)
Definition getState (w : World P S) : S * World P S :=
  let '(snapshot, h) := copy (_state w) (heap w) in
  (snapshot, set_heap h w).

(** [private notify() { const state = this.getState();
      for (const listener of this.listeners) listener(state); }]
    when every listener returns; [Throwing.notify] is the loop with
    listeners that may throw. *)
Definition notify (w : World P S) : World P S * Log S :=
  let '(state, w) := getState w in
  (w, (λ listener, (listener, state)) <$> listeners w).

(** The function [subscribe] returns:
    [() => this.listeners.delete(listener)]. *)
Definition unsubscribe (listener : Listener) (w : World P S) : World P S * bool :=
  let '(ls, found) := Set_delete listener (listeners w) in
  (set_listeners ls w, found).

(** [subscribe(listener) { this.listeners.add(listener);
      listener(this.getState());
      return () => this.listeners.delete(listener); }]
    when [listener] returns; [Throwing.subscribe] covers a listener that
    throws. *)
Definition subscribe (listener : Listener) (w : World P S)
  : World P S * Log S * (World P S → World P S * bool) :=
  let w := set_listeners (Set_add listener (listeners w)) w in
  let '(state, w) := getState w in
  (w, [(listener, state)], unsubscribe listener).
End Cell.

(** Code outside the controller overwrites the object at [l]. *)
Definition mutate {P S : Type} (l : loc) (c : cell) (w : World P S) : World P S :=
  set_heap (store l c (heap w)) w.

(** ** Transport results *)

(** What the transport resolves with is the parsed body of the response,
    which nobody checks against its interface: a [message] is the one of the
    body, or [undefined] ([None]) when the body has none. *)

(** [interface SubscribeResponse] *)
Record SubscribeResponse := { sub_success : bool; sub_message : option string }.
(** [interface JoinWaitlistResponse]; [position] may be missing. *)
Record JoinWaitlistResponse := {
  jw_success : bool; jw_message : option string; jw_position : option Z }.
(** [interface FormSubmitResponse] *)
Record FormSubmitResponse := { fs_success : bool; fs_message : option string }.
(** [interface SubmitFeedbackResponse] *)
Record SubmitFeedbackResponse := { fb_success : bool; fb_message : option string }.
(** [interface FetchReactionsResponse], as decoded from the response body. *)
Record FetchReactionsResponse := {
  fr_pageId : string; fr_counts : gmap string Z; fr_userReactions : list string }.
(** The result of [addReaction] and [removeReaction]. *)
Record ReactionResult := { rr_reactionType : string; rr_count : Z }.
(** [interface ViewCounts] *)
Record ViewCounts := { vc_pageId : string; vc_views : Z; vc_uniqueVisitors : Z }.
(** [interface RecordViewResponse extends ViewCounts] *)
Record RecordViewResponse := {
  rv_pageId : string; rv_views : Z; rv_uniqueVisitors : Z; rv_isNewVisitor : bool }.
(** [interface VotePollResponse], as decoded from the response body. *)
Record VotePollResponse := {
  vp_success : bool; vp_results : gmap string Z; vp_totalVotes : Z }.
(** A poll as decoded from the response body of [fetchPoll]. *)
Record PollData := {
  pd_id : Z;
  pd_question : string;
  pd_options : list PollOption;
  pd_settings : PollSettings;
  pd_endsAt : option string;
  pd_isActive : bool;
  pd_results : gmap string Z;
  pd_totalVotes : Z;
  pd_userVotes : option (list string) }.

(** ** SubscribeController *)
Module SubscribeController.
Record SubscribeState := {
  status : ControllerStatus; message : option string; error : option JsError }.
Record Fields := { config : JamWidgetsConfig }.
Definition W := World Fields SubscribeState.

Inductive Call := submit_ (email : string) | reset_.
Inductive Await := AwSubmit.
Definition resp (a : Await) : Type := SubscribeResponse.
Inductive Ret := RResponse (r : SubscribeResponse) | RVoid.

(** [{ ...this._state }] *)
Definition copy (s : SubscribeState) (h : Heap) : SubscribeState * Heap := (s, h).

Definition new (cfg : JamWidgetsConfig) (h : Heap) : W :=
  mkWorld {| config := cfg |}
          {| status := Idle; message := None; error := None |} [] h.

(** [submit(email)], up to [await subscribe({ ...this.config, email })]. *)
Definition submit (email : string) (w : W) : W * Log SubscribeState * Next Await resp Ret :=
  let w := set_state {| status := Loading; message := None; error := None |} w in
  let '(w, log) := notify copy w in
  (w, log, Suspend AwSubmit (subscribe_rq (config (fields w)) email)).

(** [submit(email)], after the [await]. *)
Definition submit_resume (o : Outcome SubscribeResponse) (w : W)
  : W * Log SubscribeState * Next Await resp Ret :=
  match o with
  | Resolved result =>
      let w := set_state {| status := Success;
                            message := sub_message result;
                            error := None |} w in
      let '(w, log) := notify copy w in
      (w, log, Done (Returned (RResponse result)))
  | Rejected e =>
      let error := catch_error e in
      let w := set_state {| status := Error;
                            message := Some (err_message error);
                            error := Some error |} w in
      let '(w, log) := notify copy w in
      (w, log, Done (Threw error))
  end.

Definition reset (w : W) : W * Log SubscribeState * Next Await resp Ret :=
  let w := set_state {| status := Idle; message := None; error := None |} w in
  let '(w, log) := notify copy w in
  (w, log, Done (Returned RVoid)).

Definition call (c : Call) : W → W * Log SubscribeState * Next Await resp Ret :=
  match c with submit_ email => submit email | reset_ => reset end.
Definition resume (a : Await) : Outcome (resp a) → W → W * Log SubscribeState * Next Await resp Ret :=
  match a with AwSubmit => submit_resume end.
End SubscribeController.

(** ** WaitlistController *)
Module WaitlistController.
Record WaitlistState := {
  status : ControllerStatus; message : option string;
  position : option Z; error : option JsError }.
Record Fields := { config : JamWidgetsConfig }.
Definition W := World Fields WaitlistState.

(** [options?: { name?: string; source?: string }] *)
Record JoinOptions := { name : option string; source : option string }.

Inductive Call := join_ (email : string) (options : option JoinOptions) | reset_.
Inductive Await := AwJoin.
Definition resp (a : Await) : Type := JoinWaitlistResponse.
Inductive Ret := RResponse (r : JoinWaitlistResponse) | RVoid.

Definition copy (s : WaitlistState) (h : Heap) : WaitlistState * Heap := (s, h).

Definition new (cfg : JamWidgetsConfig) (h : Heap) : W :=
  mkWorld {| config := cfg |}
          {| status := Idle; message := None; position := None; error := None |} [] h.

(** [join(email, options)], up to [await joinWaitlist({...})];
    [options?.name] is [undefined] when [options] is. *)
Definition join (email : string) (options : option JoinOptions) (w : W)
  : W * Log WaitlistState * Next Await resp Ret :=
  let w := set_state {| status := Loading; message := None;
                        position := None; error := None |} w in
  let '(w, log) := notify copy w in
  (w, log, Suspend AwJoin (joinWaitlist_rq (config (fields w)) email
                             (options ≫= name) (options ≫= source))).

(** [position: result.position ?? null] *)
Definition join_resume (o : Outcome JoinWaitlistResponse) (w : W)
  : W * Log WaitlistState * Next Await resp Ret :=
  match o with
  | Resolved result =>
      let w := set_state {| status := Success;
                            message := jw_message result;
                            position := jw_position result;
                            error := None |} w in
      let '(w, log) := notify copy w in
      (w, log, Done (Returned (RResponse result)))
  | Rejected e =>
      let error := catch_error e in
      let w := set_state {| status := Error;
                            message := Some (err_message error);
                            position := None;
                            error := Some error |} w in
      let '(w, log) := notify copy w in
      (w, log, Done (Threw error))
  end.

Definition reset (w : W) : W * Log WaitlistState * Next Await resp Ret :=
  let w := set_state {| status := Idle; message := None;
                        position := None; error := None |} w in
  let '(w, log) := notify copy w in
  (w, log, Done (Returned RVoid)).

Definition call (c : Call) : W → W * Log WaitlistState * Next Await resp Ret :=
  match c with join_ email options => join email options | reset_ => reset end.
Definition resume (a : Await) : Outcome (resp a) → W → W * Log WaitlistState * Next Await resp Ret :=
  match a with AwJoin => join_resume end.
End WaitlistController.

(** ** FormController *)
Module FormController.
Record FormState := {
  status : ControllerStatus; message : option string; error : option JsError }.
Record Fields := { config : JamWidgetsConfig; formSlug : string; loadTime : Z }.
Definition W := World Fields FormState.

(** [reset] reads the clock: [now] is the value of [Date.now()]. *)
Inductive Call := submit_ (data : gmap string JsValue) | reset_ (now : Z).
Inductive Await := AwSubmit.
Definition resp (a : Await) : Type := FormSubmitResponse.
Inductive Ret := RResponse (r : FormSubmitResponse) | RVoid.

Definition copy (s : FormState) (h : Heap) : FormState * Heap := (s, h).

(** [this.loadTime = Math.floor(Date.now() / 1000)] *)
Definition new (cfg : JamWidgetsConfig) (slug : string) (now : Z) (h : Heap) : W :=
  mkWorld {| config := cfg; formSlug := slug; loadTime := (now `div` 1000)%Z |}
          {| status := Idle; message := None; error := None |} [] h.

Definition submit (data : gmap string JsValue) (w : W)
  : W * Log FormState * Next Await resp Ret :=
  let w := set_state {| status := Loading; message := None; error := None |} w in
  let '(w, log) := notify copy w in
  (w, log, Suspend AwSubmit
             (submitForm_rq (config (fields w)) (formSlug (fields w)) data
                            (loadTime (fields w)))).

Definition submit_resume (o : Outcome FormSubmitResponse) (w : W)
  : W * Log FormState * Next Await resp Ret :=
  match o with
  | Resolved result =>
      let w := set_state {| status := Success;
                            message := fs_message result;
                            error := None |} w in
      let '(w, log) := notify copy w in
      (w, log, Done (Returned (RResponse result)))
  | Rejected e =>
      let error := catch_error e in
      let w := set_state {| status := Error;
                            message := Some (err_message error);
                            error := Some error |} w in
      let '(w, log) := notify copy w in
      (w, log, Done (Threw error))
  end.

Definition reset (now : Z) (w : W) : W * Log FormState * Next Await resp Ret :=
  let w := set_state {| status := Idle; message := None; error := None |} w in
  let w := set_fields {| config := config (fields w);
                         formSlug := formSlug (fields w);
                         loadTime := (now `div` 1000)%Z |} w in
  let '(w, log) := notify copy w in
  (w, log, Done (Returned RVoid)).

Definition call (c : Call) : W → W * Log FormState * Next Await resp Ret :=
  match c with submit_ data => submit data | reset_ now => reset now end.
Definition resume (a : Await) : Outcome (resp a) → W → W * Log FormState * Next Await resp Ret :=
  match a with AwSubmit => submit_resume end.
End FormController.

(** ** FeedbackController *)
Module FeedbackController.
Record FeedbackState := {
  status : ControllerStatus; message : option string; error : option JsError }.
Record Fields := { config : JamWidgetsConfig }.
Definition W := World Fields FeedbackState.

(** [options?: { email?: string; pageUrl?: string }] *)
Record SubmitOptions := { email : option string; pageUrl : option string }.

Inductive Call :=
  | submit_ (type : FeedbackType) (content : string) (options : option SubmitOptions)
  | reset_.
Inductive Await := AwSubmit.
Definition resp (a : Await) : Type := SubmitFeedbackResponse.
Inductive Ret := RResponse (r : SubmitFeedbackResponse) | RVoid.

Definition copy (s : FeedbackState) (h : Heap) : FeedbackState * Heap := (s, h).

Definition new (cfg : JamWidgetsConfig) (h : Heap) : W :=
  mkWorld {| config := cfg |}
          {| status := Idle; message := None; error := None |} [] h.

Definition submit (type : FeedbackType) (content : string)
    (options : option SubmitOptions) (w : W)
  : W * Log FeedbackState * Next Await resp Ret :=
  let w := set_state {| status := Loading; message := None; error := None |} w in
  let '(w, log) := notify copy w in
  (w, log, Suspend AwSubmit
             (submitFeedback_rq (config (fields w)) type content
                                (options ≫= email) (options ≫= pageUrl))).

Definition submit_resume (o : Outcome SubmitFeedbackResponse) (w : W)
  : W * Log FeedbackState * Next Await resp Ret :=
  match o with
  | Resolved result =>
      let w := set_state {| status := Success;
                            message := fb_message result;
                            error := None |} w in
      let '(w, log) := notify copy w in
      (w, log, Done (Returned (RResponse result)))
  | Rejected e =>
      let error := catch_error e in
      let w := set_state {| status := Error;
                            message := Some (err_message error);
                            error := Some error |} w in
      let '(w, log) := notify copy w in
      (w, log, Done (Threw error))
  end.

Definition reset (w : W) : W * Log FeedbackState * Next Await resp Ret :=
  let w := set_state {| status := Idle; message := None; error := None |} w in
  let '(w, log) := notify copy w in
  (w, log, Done (Returned RVoid)).

Definition call (c : Call) : W → W * Log FeedbackState * Next Await resp Ret :=
  match c with
  | submit_ type content options => submit type content options
  | reset_ => reset
  end.
Definition resume (a : Await) : Outcome (resp a) → W → W * Log FeedbackState * Next Await resp Ret :=
  match a with AwSubmit => submit_resume end.
End FeedbackController.

(** ** ReactionsController *)
Module ReactionsController.
(** [counts: Record<string, number>] and [userReactions: string[]] are
    objects: the state holds references to them. *)
Record ReactionsState := {
  counts : loc; userReactions : loc;
  status : ControllerStatus; error : option JsError }.
Record Fields := { config : JamWidgetsConfig; pageId : string }.
Definition W := World Fields ReactionsState.

Inductive Call :=
  | fetch_
  | add_ (reactionType : option string)
  | remove_ (reactionType : option string).
Inductive Await := AwFetch | AwAdd (reactionType : string) | AwRemove (reactionType : string).
Definition resp (a : Await) : Type :=
  match a with AwFetch => FetchReactionsResponse | _ => ReactionResult end.
Inductive Ret := RState (s : ReactionsState) | RVoid.

(** [{ ...this._state, counts: { ...this._state.counts },
       userReactions: [...this._state.userReactions] }] *)
Definition copy (s : ReactionsState) (h : Heap) : ReactionsState * Heap :=
  let '(c, h) := alloc (CRecord (read_record h (counts s))) h in
  let '(u, h) := alloc (CStrings (read_strings h (userReactions s))) h in
  ({| counts := c; userReactions := u; status := status s; error := error s |}, h).

(** [_state = { counts: {}, userReactions: [], status: "idle", error: null }] *)
Definition new (cfg : JamWidgetsConfig) (pid : string) (h : Heap) : W :=
  let '(c, h) := alloc (CRecord ∅) h in
  let '(u, h) := alloc (CStrings []) h in
  mkWorld {| config := cfg; pageId := pid |}
          {| counts := c; userReactions := u; status := Idle; error := None |} [] h.

Definition fetch (w : W) : W * Log ReactionsState * Next Await resp Ret :=
  let s := _state w in
  let w := set_state {| counts := counts s; userReactions := userReactions s;
                        status := Loading; error := None |} w in
  let '(w, log) := notify copy w in
  (w, log, Suspend AwFetch (fetchReactions_rq (config (fields w)) (pageId (fields w)))).

(** The decoded [result] brings its own [counts] and [userReactions]
    objects; the state keeps references to them. *)
Definition fetch_resume (o : Outcome FetchReactionsResponse) (w : W)
  : W * Log ReactionsState * Next Await resp Ret :=
  match o with
  | Resolved result =>
      let '(c, h) := alloc (CRecord (fr_counts result)) (heap w) in
      let '(u, h) := alloc (CStrings (fr_userReactions result)) h in
      let w := set_heap h w in
      let w := set_state {| counts := c; userReactions := u;
                            status := Success; error := None |} w in
      let '(w, log) := notify copy w in
      let '(s, w) := getState copy w in
      (w, log, Done (Returned (RState s)))
  | Rejected e =>
      let error := catch_error e in
      let s := _state w in
      let w := set_state {| counts := counts s; userReactions := userReactions s;
                            status := Error; error := Some error |} w in
      let '(w, log) := notify copy w in
      (w, log, Done (Threw error))
  end.

(** [add(reactionType = "like")], up to [await addReaction({...})]. *)
Definition add (reactionType : option string) (w : W)
  : W * Log ReactionsState * Next Await resp Ret :=
  let reactionType := default "like" reactionType in
  (w, [], Suspend (AwAdd reactionType)
            (addReaction_rq (config (fields w)) (pageId (fields w)) reactionType)).

(** [this._state.counts[reactionType] = result.count;
     if (!this._state.userReactions.includes(reactionType))
       this._state.userReactions = [...this._state.userReactions, reactionType];
     this.notify();] with its [catch]. *)
Definition add_resume (reactionType : string) (o : Outcome ReactionResult) (w : W)
  : W * Log ReactionsState * Next Await resp Ret :=
  match o with
  | Resolved result =>
      let s := _state w in
      let h := store (counts s)
                 (CRecord (<[reactionType := rr_count result]> (read_record (heap w) (counts s))))
                 (heap w) in
      let w := set_heap h w in
      let w :=
        if bool_decide (reactionType ∈ read_strings h (userReactions s)) then w
        else
          let '(u, h) := alloc (CStrings (read_strings h (userReactions s) ++ [reactionType])) h in
          set_state {| counts := counts s; userReactions := u;
                       status := status s; error := error s |} (set_heap h w) in
      let '(w, log) := notify copy w in
      (w, log, Done (Returned RVoid))
  | Rejected e =>
      let error := catch_error e in
      let s := _state w in
      let w := set_state {| counts := counts s; userReactions := userReactions s;
                            status := status s; error := Some error |} w in
      let '(w, log) := notify copy w in
      (w, log, Done (Threw error))
  end.

Definition remove (reactionType : option string) (w : W)
  : W * Log ReactionsState * Next Await resp Ret :=
  let reactionType := default "like" reactionType in
  (w, [], Suspend (AwRemove reactionType)
            (removeReaction_rq (config (fields w)) (pageId (fields w)) reactionType)).

(** [this._state.counts[reactionType] = result.count;
     this._state.userReactions =
       this._state.userReactions.filter(r => r !== reactionType);
     this.notify();] with its [catch]. *)
Definition remove_resume (reactionType : string) (o : Outcome ReactionResult) (w : W)
  : W * Log ReactionsState * Next Await resp Ret :=
  match o with
  | Resolved result =>
      let s := _state w in
      let h := store (counts s)
                 (CRecord (<[reactionType := rr_count result]> (read_record (heap w) (counts s))))
                 (heap w) in
      let '(u, h) := alloc (CStrings (filter (λ r, r ≠ reactionType)
                                        (read_strings h (userReactions s)))) h in
      let w := set_state {| counts := counts s; userReactions := u;
                            status := status s; error := error s |} (set_heap h w) in
      let '(w, log) := notify copy w in
      (w, log, Done (Returned RVoid))
  | Rejected e =>
      let error := catch_error e in
      let s := _state w in
      let w := set_state {| counts := counts s; userReactions := userReactions s;
                            status := status s; error := Some error |} w in
      let '(w, log) := notify copy w in
      (w, log, Done (Threw error))
  end.

Definition call (c : Call) : W → W * Log ReactionsState * Next Await resp Ret :=
  match c with
  | fetch_ => fetch
  | add_ reactionType => add reactionType
  | remove_ reactionType => remove reactionType
  end.
Definition resume (a : Await) : Outcome (resp a) → W → W * Log ReactionsState * Next Await resp Ret :=
  match a with
  | AwFetch => fetch_resume
  | AwAdd reactionType => add_resume reactionType
  | AwRemove reactionType => remove_resume reactionType
  end.

(** What a reader of the state record [s] sees in the heap [h]. *)
Definition view (h : Heap) (s : ReactionsState)
  : gmap string Z * list string * ControllerStatus * option JsError :=
  (read_record h (counts s), read_strings h (userReactions s), status s, error s).
(** The containers held in fields of [s]. *)
Definition containers (s : ReactionsState) : list loc := [counts s; userReactions s].
(** The references of [s] lead to objects of [h]. *)
Definition valid (h : Heap) (s : ReactionsState) : Prop :=
  counts s < length h ∧ userReactions s < length h.
End ReactionsController.

(** ** CommentsController *)
Module CommentsController.
Record CommentsState := {
  comments : loc; status : ControllerStatus; error : option JsError }.
Record Fields := { config : JamWidgetsConfig; pageId : string }.
Definition W := World Fields CommentsState.

(** [options?: { authorEmail?: string; parentId?: string }] *)
Record PostOptions := { authorEmail : option string; parentId : option string }.

Inductive Call :=
  | fetch_
  | post_ (authorName content : string) (options : option PostOptions).
(** [post] awaits twice: [postComment], then [this.fetch()].  The call
    [this.fetch()] runs up to its own [await fetchComments]
    ([AwPostFetch comment]) and later settles the promise that [post]
    awaits ([AwPostJoin comment]); [comment] is what [post] will return. *)
Inductive Await :=
  | AwFetch | AwPost | AwPostFetch (comment : Comment) | AwPostJoin (comment : Comment).
Definition resp (a : Await) : Type :=
  match a with
  | AwPost => Comment
  | AwFetch | AwPostFetch _ => list Comment
  | AwPostJoin _ => loc
  end.
(** [fetch] returns the array it stored, [post] the comment it received. *)
Inductive Ret := RComments (l : loc) | RComment (c : Comment).

(** [{ ...this._state, comments: [...this._state.comments] }] *)
Definition copy (s : CommentsState) (h : Heap) : CommentsState * Heap :=
  let '(c, h) := alloc (CComments (read_comments h (comments s))) h in
  ({| comments := c; status := status s; error := error s |}, h).

Definition new (cfg : JamWidgetsConfig) (pid : string) (h : Heap) : W :=
  let '(c, h) := alloc (CComments []) h in
  mkWorld {| config := cfg; pageId := pid |}
          {| comments := c; status := Idle; error := None |} [] h.

(** [fetch()], up to [await fetchComments({...})]: the request it awaits. *)
Definition fetch_begin (w : W) : W * Log CommentsState * Request :=
  let s := _state w in
  let w := set_state {| comments := comments s; status := Loading; error := None |} w in
  let '(w, log) := notify copy w in
  (w, log, fetchComments_rq (config (fields w)) (pageId (fields w))).

Definition fetch (w : W) : W * Log CommentsState * Next Await resp Ret :=
  let '(w, log, rq) := fetch_begin w in
  (w, log, Suspend AwFetch rq).

(** [fetch], after its [await]: how its promise settles, with the array
    it stored or with the error it threw. *)
Definition fetch_resume (o : Outcome (list Comment)) (w : W)
  : W * Log CommentsState * Completion loc :=
  match o with
  | Resolved result =>
      let '(c, h) := alloc (CComments result) (heap w) in
      let w := set_heap h w in
      let w := set_state {| comments := c; status := Success; error := None |} w in
      let '(w, log) := notify copy w in
      (w, log, Returned c)
  | Rejected e =>
      let error := catch_error e in
      let s := _state w in
      let w := set_state {| comments := comments s; status := Error;
                            error := Some error |} w in
      let '(w, log) := notify copy w in
      (w, log, Threw error)
  end.

(** The [catch] block of [post]. *)
Definition post_catch (e : JsValue) (w : W) : W * Log CommentsState * Next Await resp Ret :=
  let error := catch_error e in
  let s := _state w in
  let w := set_state {| comments := comments s; status := status s;
                        error := Some error |} w in
  let '(w, log) := notify copy w in
  (w, log, Done (Threw error)).

(** [post(...)], up to [await postComment({...})]. *)
Definition post (authorName content : string) (options : option PostOptions) (w : W)
  : W * Log CommentsState * Next Await resp Ret :=
  (w, [], Suspend AwPost
            (postComment_rq (config (fields w)) (pageId (fields w)) authorName content
                            (options ≫= authorEmail) (options ≫= parentId))).

(** [post], after [await postComment]: on success it enters
    [this.fetch()] and is suspended again inside it. *)
Definition post_resume (o : Outcome Comment) (w : W)
  : W * Log CommentsState * Next Await resp Ret :=
  match o with
  | Resolved comment =>
      let '(w, log, rq) := fetch_begin w in
      (w, log, Suspend (AwPostFetch comment) rq)
  | Rejected e => post_catch e w
  end.

(** Inside [post], the [await] within [this.fetch()] settles: [fetch]
    runs to its end and settles the promise that [post] awaits. *)
Definition post_fetch_resume (comment : Comment) (o : Outcome (list Comment)) (w : W)
  : W * Log CommentsState * Next Await resp Ret :=
  let '(w, log, c) := fetch_resume o w in
  (w, log, Continue (AwPostJoin comment)
             match c with
             | Returned l => Resolved l
             | Threw error => Rejected (VError error)
             end).

(** [post], after [await this.fetch()]: [return comment], or the [catch]
    block. *)
Definition post_join (comment : Comment) (o : Outcome loc) (w : W)
  : W * Log CommentsState * Next Await resp Ret :=
  match o with
  | Resolved _ => (w, [], Done (Returned (RComment comment)))
  | Rejected e => post_catch e w
  end.

Definition call (c : Call) : W → W * Log CommentsState * Next Await resp Ret :=
  match c with
  | fetch_ => fetch
  | post_ authorName content options => post authorName content options
  end.
Definition resume (a : Await) : Outcome (resp a) → W → W * Log CommentsState * Next Await resp Ret :=
  match a with
  | AwFetch => λ o w,
      let '(w, log, c) := fetch_resume o w in
      (w, log, Done match c with
                    | Returned l => Returned (RComments l)
                    | Threw error => Threw error
                    end)
  | AwPost => post_resume
  | AwPostFetch comment => post_fetch_resume comment
  | AwPostJoin comment => post_join comment
  end.

Definition view (h : Heap) (s : CommentsState)
  : list Comment * ControllerStatus * option JsError :=
  (read_comments h (comments s), status s, error s).
Definition containers (s : CommentsState) : list loc := [comments s].
Definition valid (h : Heap) (s : CommentsState) : Prop := comments s < length h.
End CommentsController.

(** ** PollController *)
Module PollController.
(** [poll: PollWithResults | null] is a reference to the poll object. *)
Record PollState := {
  poll : option loc; status : ControllerStatus; error : option JsError }.
Record Fields := { config : JamWidgetsConfig; slug : string }.
Definition W := World Fields PollState.

Inductive Call := fetch_ | vote_ (selectedOptions : list string).
(** [AwVote sel]: [sel] is the caller's [selectedOptions] array. *)
Inductive Await := AwFetch | AwVote (selectedOptions : loc).
Definition resp (a : Await) : Type :=
  match a with AwFetch => PollData | AwVote _ => VotePollResponse end.
(** [fetch] returns the poll object it stored, [vote] the response. *)
Inductive Ret := RPoll (p : loc) | RVote (r : VotePollResponse).

(** [{ ...this._state }] *)
Definition copy (s : PollState) (h : Heap) : PollState * Heap := (s, h).

Definition new (cfg : JamWidgetsConfig) (sl : string) (h : Heap) : W :=
  mkWorld {| config := cfg; slug := sl |}
          {| poll := None; status := Idle; error := None |} [] h.

(** The object tree of a decoded poll. *)
Definition decode_poll (d : PollData) (h : Heap) : loc * Heap :=
  let '(r, h) := alloc (CRecord (pd_results d)) h in
  let '(u, h) :=
    match pd_userVotes d with
    | Some votes => let '(u, h) := alloc (CStrings votes) h in (Some u, h)
    | None => (None, h)
    end in
  alloc (CPoll {| poll_id := pd_id d; question := pd_question d;
                  options := pd_options d; settings := pd_settings d;
                  endsAt := pd_endsAt d; isActive := pd_isActive d;
                  results := r; totalVotes := pd_totalVotes d;
                  userVotes := u |}) h.

Definition fetch (w : W) : W * Log PollState * Next Await resp Ret :=
  let s := _state w in
  let w := set_state {| poll := poll s; status := Loading; error := None |} w in
  let '(w, log) := notify copy w in
  (w, log, Suspend AwFetch (fetchPoll_rq (config (fields w)) (slug (fields w)))).

Definition fetch_resume (o : Outcome PollData) (w : W)
  : W * Log PollState * Next Await resp Ret :=
  match o with
  | Resolved result =>
      let '(p, h) := decode_poll result (heap w) in
      let w := set_heap h w in
      let w := set_state {| poll := Some p; status := Success; error := None |} w in
      let '(w, log) := notify copy w in
      (w, log, Done (Returned (RPoll p)))
  | Rejected e =>
      let error := catch_error e in
      let s := _state w in
      let w := set_state {| poll := poll s; status := Error; error := Some error |} w in
      let '(w, log) := notify copy w in
      (w, log, Done (Threw error))
  end.

(** [vote(selectedOptions)], up to [await votePoll({...})].  The argument
    array is the caller's object; it enters the heap with the call. *)
Definition vote (selectedOptions : list string) (w : W)
  : W * Log PollState * Next Await resp Ret :=
  let '(sel, h) := alloc (CStrings selectedOptions) (heap w) in
  let w := set_heap h w in
  (w, [], Suspend (AwVote sel)
            (votePoll_rq (config (fields w)) (slug (fields w)) selectedOptions)).

(** [if (this._state.poll) {
       this._state.poll = { ...this._state.poll, results: result.results,
         totalVotes: result.totalVotes, userVotes: selectedOptions }; }
     this.notify(); return result;] with its [catch].
    A reference held by the state always leads to a poll object; the
    branch for any other case leaves the state as it is. *)
Definition vote_resume (selectedOptions : loc) (o : Outcome VotePollResponse) (w : W)
  : W * Log PollState * Next Await resp Ret :=
  match o with
  | Resolved result =>
      let '(r, h) := alloc (CRecord (vp_results result)) (heap w) in
      let w := set_heap h w in
      let s := _state w in
      let w :=
        match poll s with
        | Some p =>
            match read_poll h p with
            | Some old =>
                let '(p', h) :=
                  alloc (CPoll {| poll_id := poll_id old; question := question old;
                                  options := options old; settings := settings old;
                                  endsAt := endsAt old; isActive := isActive old;
                                  results := r;
                                  totalVotes := vp_totalVotes result;
                                  userVotes := Some selectedOptions |}) h in
                set_state {| poll := Some p'; status := status s; error := error s |}
                          (set_heap h w)
            | None => w
            end
        | None => w
        end in
      let '(w, log) := notify copy w in
      (w, log, Done (Returned (RVote result)))
  | Rejected e =>
      let error := catch_error e in
      let s := _state w in
      let w := set_state {| poll := poll s; status := status s; error := Some error |} w in
      let '(w, log) := notify copy w in
      (w, log, Done (Threw error))
  end.

(** [hasVoted() { return !!this._state.poll?.userVotes
                    && this._state.poll.userVotes.length > 0; }] *)
Definition hasVoted (w : W) : bool :=
  match poll (_state w) with
  | Some p =>
      match read_poll (heap w) p with
      | Some {| userVotes := Some u |} =>
          bool_decide (0 < length (read_strings (heap w) u))
      | _ => false
      end
  | None => false
  end.

Definition call (c : Call) : W → W * Log PollState * Next Await resp Ret :=
  match c with fetch_ => fetch | vote_ selectedOptions => vote selectedOptions end.
Definition resume (a : Await) : Outcome (resp a) → W → W * Log PollState * Next Await resp Ret :=
  match a with AwFetch => fetch_resume | AwVote sel => vote_resume sel end.

(** The poll object [p] read through its references. *)
Definition read_poll_data (h : Heap) (p : PollWithResults) : PollData :=
  {| pd_id := poll_id p; pd_question := question p; pd_options := options p;
     pd_settings := settings p; pd_endsAt := endsAt p; pd_isActive := isActive p;
     pd_results := read_record h (results p);
     pd_totalVotes := totalVotes p;
     pd_userVotes := read_strings h <$> userVotes p |}.
Definition view (h : Heap) (s : PollState)
  : option PollData * ControllerStatus * option JsError :=
  (match poll s with
   | Some p => read_poll_data h <$> read_poll h p
   | None => None
   end, status s, error s).
(** The state record has no field that is itself a list, a mapping or a
    set ... *)
Definition containers (s : PollState) : list loc := [].
(** ... its containers are inside the poll object: [results], and
    [userVotes] when present. *)
Definition poll_containers (h : Heap) (s : PollState) : list loc :=
  match poll s with
  | Some p =>
      match read_poll h p with
      | Some o => results o :: match userVotes o with Some u => [u] | None => [] end
      | None => []
      end
  | None => []
  end.
End PollController.

(** ** AnnouncementsController *)
Module AnnouncementsController.
(** [announcements: Announcement[]] and [dismissed: Set<number>] are
    objects: the state holds references to them. *)
Record AnnouncementsState := {
  announcements : loc; dismissed : loc;
  status : ControllerStatus; error : option JsError }.
Record Fields := { config : JamWidgetsConfig }.
Definition W := World Fields AnnouncementsState.

Inductive Call := fetch_ | dismiss_ (announcementId : Z).
Inductive Await := AwFetch | AwDismiss (announcementId : Z).
Definition resp (a : Await) : Type :=
  match a with AwFetch => list Announcement | AwDismiss _ => unit end.
(** [fetch] returns the array it stored. *)
Inductive Ret := RAnnouncements (l : loc) | RVoid.

(** [{ ...this._state, announcements: [...this._state.announcements],
       dismissed: new Set(this._state.dismissed) }] *)
Definition copy (s : AnnouncementsState) (h : Heap) : AnnouncementsState * Heap :=
  let '(a, h) := alloc (CAnnouncements (read_announcements h (announcements s))) h in
  let '(d, h) := alloc (CIdSet (read_idset h (dismissed s))) h in
  ({| announcements := a; dismissed := d; status := status s; error := error s |}, h).

Definition new (cfg : JamWidgetsConfig) (h : Heap) : W :=
  let '(a, h) := alloc (CAnnouncements []) h in
  let '(d, h) := alloc (CIdSet ∅) h in
  mkWorld {| config := cfg |}
          {| announcements := a; dismissed := d; status := Idle; error := None |} [] h.

(** [getVisibleAnnouncements() { return this._state.announcements.filter(
       (a) => !this._state.dismissed.has(a.id)); }] *)
Definition getVisibleAnnouncements (w : W) : list Announcement :=
  let s := _state w in
  filter (λ a, ann_id a ∉ read_idset (heap w) (dismissed s))
         (read_announcements (heap w) (announcements s)).

Definition fetch (w : W) : W * Log AnnouncementsState * Next Await resp Ret :=
  let s := _state w in
  let w := set_state {| announcements := announcements s; dismissed := dismissed s;
                        status := Loading; error := None |} w in
  let '(w, log) := notify copy w in
  (w, log, Suspend AwFetch (fetchAnnouncements_rq (config (fields w)))).

Definition fetch_resume (o : Outcome (list Announcement)) (w : W)
  : W * Log AnnouncementsState * Next Await resp Ret :=
  match o with
  | Resolved result =>
      let '(a, h) := alloc (CAnnouncements result) (heap w) in
      let w := set_heap h w in
      let s := _state w in
      let w := set_state {| announcements := a; dismissed := dismissed s;
                            status := Success; error := None |} w in
      let '(w, log) := notify copy w in
      (w, log, Done (Returned (RAnnouncements a)))
  | Rejected e =>
      let error := catch_error e in
      let s := _state w in
      let w := set_state {| announcements := announcements s; dismissed := dismissed s;
                            status := Error; error := Some error |} w in
      let '(w, log) := notify copy w in
      (w, log, Done (Threw error))
  end.

(** [dismiss(announcementId)], up to [await dismissAnnouncement({...})]. *)
Definition dismiss (announcementId : Z) (w : W)
  : W * Log AnnouncementsState * Next Await resp Ret :=
  (w, [], Suspend (AwDismiss announcementId)
            (dismissAnnouncement_rq (config (fields w)) announcementId)).

(** [this._state.dismissed.add(announcementId); this.notify();] with its
    [catch]. *)
Definition dismiss_resume (announcementId : Z) (o : Outcome unit) (w : W)
  : W * Log AnnouncementsState * Next Await resp Ret :=
  match o with
  | Resolved _ =>
      let s := _state w in
      let h := store (dismissed s)
                 (CIdSet ({[announcementId]} ∪ read_idset (heap w) (dismissed s)))
                 (heap w) in
      let w := set_heap h w in
      let '(w, log) := notify copy w in
      (w, log, Done (Returned RVoid))
  | Rejected e =>
      let error := catch_error e in
      let s := _state w in
      let w := set_state {| announcements := announcements s; dismissed := dismissed s;
                            status := status s; error := Some error |} w in
      let '(w, log) := notify copy w in
      (w, log, Done (Threw error))
  end.

Definition call (c : Call) : W → W * Log AnnouncementsState * Next Await resp Ret :=
  match c with fetch_ => fetch | dismiss_ i => dismiss i end.
Definition resume (a : Await) : Outcome (resp a) → W → W * Log AnnouncementsState * Next Await resp Ret :=
  match a with AwFetch => fetch_resume | AwDismiss i => dismiss_resume i end.

Definition view (h : Heap) (s : AnnouncementsState)
  : list Announcement * gset Z * ControllerStatus * option JsError :=
  (read_announcements h (announcements s), read_idset h (dismissed s),
   status s, error s).
Definition containers (s : AnnouncementsState) : list loc :=
  [announcements s; dismissed s].
Definition valid (h : Heap) (s : AnnouncementsState) : Prop :=
  announcements s < length h ∧ dismissed s < length h.

(** The dismissed set and the announcement list as the controller reads
    them. *)
Definition dismissed_ids (w : W) : gset Z :=
  read_idset (heap w) (dismissed (_state w)).
Definition announcement_list (w : W) : list Announcement :=
  read_announcements (heap w) (announcements (_state w)).
End AnnouncementsController.

(** ** ViewCountsController *)
Module ViewCountsController.
Record ViewCountsState := {
  pageId : string; views : Z; uniqueVisitors : Z;
  status : ControllerStatus; error : option JsError }.
Record Fields := { config : JamWidgetsConfig; this_pageId : string }.
Definition W := World Fields ViewCountsState.

Inductive Call := fetch_ | record_.
Inductive Await := AwFetch | AwRecord.
Definition resp (a : Await) : Type :=
  match a with AwFetch => ViewCounts | AwRecord => RecordViewResponse end.
Inductive Ret := RCounts (c : ViewCounts) | RRecord (r : RecordViewResponse).

(** [{ ...this._state }] *)
Definition copy (s : ViewCountsState) (h : Heap) : ViewCountsState * Heap := (s, h).

(** [this._state = { pageId, views: 0, uniqueVisitors: 0, status: "idle",
                     error: null }] *)
Definition new (cfg : JamWidgetsConfig) (pid : string) (h : Heap) : W :=
  mkWorld {| config := cfg; this_pageId := pid |}
          {| pageId := pid; views := 0; uniqueVisitors := 0;
             status := Idle; error := None |} [] h.

Definition fetch (w : W) : W * Log ViewCountsState * Next Await resp Ret :=
  let s := _state w in
  let w := set_state {| pageId := pageId s; views := views s;
                        uniqueVisitors := uniqueVisitors s;
                        status := Loading; error := None |} w in
  let '(w, log) := notify copy w in
  (w, log, Suspend AwFetch (getViewCounts_rq (config (fields w)) (this_pageId (fields w)))).

Definition fetch_resume (o : Outcome ViewCounts) (w : W)
  : W * Log ViewCountsState * Next Await resp Ret :=
  match o with
  | Resolved counts =>
      let s := _state w in
      let w := set_state {| pageId := pageId s; views := vc_views counts;
                            uniqueVisitors := vc_uniqueVisitors counts;
                            status := Success; error := None |} w in
      let '(w, log) := notify copy w in
      (w, log, Done (Returned (RCounts counts)))
  | Rejected e =>
      let error := catch_error e in
      let s := _state w in
      let w := set_state {| pageId := pageId s; views := views s;
                            uniqueVisitors := uniqueVisitors s;
                            status := Error; error := Some error |} w in
      let '(w, log) := notify copy w in
      (w, log, Done (Threw error))
  end.

(** [record()], up to [await recordView({...})]: no state change and no
    notification. *)
Definition record (w : W) : W * Log ViewCountsState * Next Await resp Ret :=
  (w, [], Suspend AwRecord (recordView_rq (config (fields w)) (this_pageId (fields w)))).

(** [this._state = { ...this._state, views: result.views,
       uniqueVisitors: result.uniqueVisitors }; this.notify(); return result;]
    with its [catch]. *)
Definition record_resume (o : Outcome RecordViewResponse) (w : W)
  : W * Log ViewCountsState * Next Await resp Ret :=
  match o with
  | Resolved result =>
      let s := _state w in
      let w := set_state {| pageId := pageId s; views := rv_views result;
                            uniqueVisitors := rv_uniqueVisitors result;
                            status := status s; error := error s |} w in
      let '(w, log) := notify copy w in
      (w, log, Done (Returned (RRecord result)))
  | Rejected e =>
      let error := catch_error e in
      let s := _state w in
      let w := set_state {| pageId := pageId s; views := views s;
                            uniqueVisitors := uniqueVisitors s;
                            status := status s; error := Some error |} w in
      let '(w, log) := notify copy w in
      (w, log, Done (Threw error))
  end.

Definition call (c : Call) : W → W * Log ViewCountsState * Next Await resp Ret :=
  match c with fetch_ => fetch | record_ => record end.
Definition resume (a : Await) : Outcome (resp a) → W → W * Log ViewCountsState * Next Await resp Ret :=
  match a with AwFetch => fetch_resume | AwRecord => record_resume end.
End ViewCountsController.

(** ** The nine controllers behind one interface *)

Record Model := {
  Fields : Type;                       (* private fields besides _state, listeners *)
  State : Type;                        (* the type of _state and of snapshots *)
  Args : Type;                         (* constructor arguments *)
  Method : Type;                       (* a public mutating method with its arguments *)
  Awaiting : Type;                     (* a point where a method is suspended *)
  Response : Awaiting → Type;          (* what the transport resolves with there *)
  Result : Type;                       (* what methods return *)
  snapshot : State → Heap → State * Heap;
  construct : Args → Heap → World Fields State;
  invoke : Method → World Fields State →
           World Fields State * Log State * Next Awaiting Response Result;
  resume_at : ∀ a : Awaiting, Outcome (Response a) → World Fields State →
              World Fields State * Log State * Next Awaiting Response Result;
  status_of : State → ControllerStatus;
  error_of : State → option JsError;
  (* reading a state record or a snapshot in a heap *)
  View : Type;
  view : Heap → State → View;
  (* the containers held in fields of a state record *)
  containers : State → list loc;
  (* all containers reachable from a state record *)
  nested_containers : Heap → State → list loc;
  (* the references of a state record lead to objects of the heap *)
  valid : Heap → State → Prop }.

Inductive Kind :=
  | KSubscribe | KWaitlist | KForm | KReactions | KComments
  | KFeedback | KPoll | KAnnouncements | KViewCounts.

Definition model (k : Kind) : Model :=
  match k with
  | KSubscribe =>
      {| snapshot := SubscribeController.copy;
         construct := SubscribeController.new;
         invoke := SubscribeController.call;
         resume_at := SubscribeController.resume;
         status_of := SubscribeController.status;
         error_of := SubscribeController.error;
         view := λ _ s, s;
         containers := λ _, [];
         nested_containers := λ _ _, [];
         valid := λ _ _, True |}
  | KWaitlist =>
      {| snapshot := WaitlistController.copy;
         construct := WaitlistController.new;
         invoke := WaitlistController.call;
         resume_at := WaitlistController.resume;
         status_of := WaitlistController.status;
         error_of := WaitlistController.error;
         view := λ _ s, s;
         containers := λ _, [];
         nested_containers := λ _ _, [];
         valid := λ _ _, True |}
  | KForm =>
      {| snapshot := FormController.copy;
         construct := λ '(cfg, formSlug, now), FormController.new cfg formSlug now;
         invoke := FormController.call;
         resume_at := FormController.resume;
         status_of := FormController.status;
         error_of := FormController.error;
         view := λ _ s, s;
         containers := λ _, [];
         nested_containers := λ _ _, [];
         valid := λ _ _, True |}
  | KReactions =>
      {| snapshot := ReactionsController.copy;
         construct := λ '(cfg, pageId), ReactionsController.new cfg pageId;
         invoke := ReactionsController.call;
         resume_at := ReactionsController.resume;
         status_of := ReactionsController.status;
         error_of := ReactionsController.error;
         view := ReactionsController.view;
         containers := ReactionsController.containers;
         nested_containers := λ _, ReactionsController.containers;
         valid := ReactionsController.valid |}
  | KComments =>
      {| snapshot := CommentsController.copy;
         construct := λ '(cfg, pageId), CommentsController.new cfg pageId;
         invoke := CommentsController.call;
         resume_at := CommentsController.resume;
         status_of := CommentsController.status;
         error_of := CommentsController.error;
         view := CommentsController.view;
         containers := CommentsController.containers;
         nested_containers := λ _, CommentsController.containers;
         valid := CommentsController.valid |}
  | KFeedback =>
      {| snapshot := FeedbackController.copy;
         construct := FeedbackController.new;
         invoke := FeedbackController.call;
         resume_at := FeedbackController.resume;
         status_of := FeedbackController.status;
         error_of := FeedbackController.error;
         view := λ _ s, s;
         containers := λ _, [];
         nested_containers := λ _ _, [];
         valid := λ _ _, True |}
  | KPoll =>
      {| snapshot := PollController.copy;
         construct := λ '(cfg, slug), PollController.new cfg slug;
         invoke := PollController.call;
         resume_at := PollController.resume;
         status_of := PollController.status;
         error_of := PollController.error;
         view := PollController.view;
         containers := PollController.containers;
         nested_containers := PollController.poll_containers;
         valid := λ _ _, True |}
  | KAnnouncements =>
      {| snapshot := AnnouncementsController.copy;
         construct := AnnouncementsController.new;
         invoke := AnnouncementsController.call;
         resume_at := AnnouncementsController.resume;
         status_of := AnnouncementsController.status;
         error_of := AnnouncementsController.error;
         view := AnnouncementsController.view;
         containers := AnnouncementsController.containers;
         nested_containers := λ _, AnnouncementsController.containers;
         valid := AnnouncementsController.valid |}
  | KViewCounts =>
      {| snapshot := ViewCountsController.copy;
         construct := λ '(cfg, pageId), ViewCountsController.new cfg pageId;
         invoke := ViewCountsController.call;
         resume_at := ViewCountsController.resume;
         status_of := ViewCountsController.status;
         error_of := ViewCountsController.error;
         view := λ _ s, s;
         containers := λ _, [];
         nested_containers := λ _ _, [];
         valid := λ _ _, True |}
  end.

(** ** Runs of one controller instance

    The instance together with the methods that are suspended at an
    [await].  The environment constructs the instance, calls methods,
    settles awaited requests in any order, reads the state, and adds or
    removes listeners; queued continuations run in order. *)
Section Runs.
Variable M : Model.

Abbreviation world := (World (Fields M) (State M)).

(** A continuation that is queued with the outcome it will receive. *)
Definition Queued : Type := { a : Awaiting M & Outcome (Response M a) }.

Record Sys := mkSys {
  instance : world;
  suspended : list (Awaiting M);   (* awaiting the transport *)
  queued : list Queued }.          (* ready to run, oldest first *)

Inductive Event :=
  | EvCall (m : Method M)
  | EvSettle (a : Awaiting M) (o : Outcome (Response M a))
  | EvContinue
  | EvGetState
  | EvSubscribe (listener : Listener)
  | EvUnsubscribe (listener : Listener).

Definition suspend (n : Next (Awaiting M) (Response M) (Result M))
    (p : list (Awaiting M)) : list (Awaiting M) :=
  match n with Suspend a _ => p ++ [a] | _ => p end.
Definition enqueue (n : Next (Awaiting M) (Response M) (Result M))
    (q : list Queued) : list Queued :=
  match n with Continue a o => q ++ [existT a o] | _ => q end.

Inductive step : Sys → Event → Sys → Prop :=
  | step_call m w p q w' log n :
      invoke M m w = (w', log, n) →
      step (mkSys w p q) (EvCall m) (mkSys w' (suspend n p) (enqueue n q))
  | step_settle a o w p1 p2 q w' log n :
      resume_at M a o w = (w', log, n) →
      step (mkSys w (p1 ++ a :: p2) q) (EvSettle a o)
           (mkSys w' (suspend n (p1 ++ p2)) (enqueue n q))
  | step_continue a o w p q w' log n :
      resume_at M a o w = (w', log, n) →
      step (mkSys w p (existT a o :: q)) EvContinue
           (mkSys w' (suspend n p) (enqueue n q))
  | step_getState w p q :
      step (mkSys w p q) EvGetState (mkSys (getState (snapshot M) w).2 p q)
  | step_subscribe l w p q :
      step (mkSys w p q) (EvSubscribe l) (mkSys (subscribe (snapshot M) l w).1.1 p q)
  | step_unsubscribe l w p q :
      step (mkSys w p q) (EvUnsubscribe l) (mkSys (unsubscribe l w).1 p q).

Inductive reachable : Sys → Prop :=
  | reach_new args h : reachable (mkSys (construct M args h) [] [])
  | reach_step s e s' : reachable s → step s e s' → reachable s'.
End Runs.
Arguments mkSys {M}.
Arguments instance {M}.
Arguments suspended {M}.
Arguments queued {M}.
Arguments EvCall {M}.
Arguments EvSettle {M}.
Arguments EvContinue {M}.
Arguments EvGetState {M}.
Arguments EvSubscribe {M}.
Arguments EvUnsubscribe {M}.

(** ** Status and error *)

(** The controllers whose every transition writes a whole new state. *)
Definition replaces_whole_state (k : Kind) : bool :=
  match k with
  | KSubscribe | KWaitlist | KForm | KFeedback => true
  | _ => false
  end.

Definition status_invariant (k : Kind) (s : State (model k)) : Prop :=
  (status_of (model k) s = Error → error_of (model k) s ≠ None)
  ∧ (replaces_whole_state k = true →
     error_of (model k) s ≠ None → status_of (model k) s = Error).

(** ** Sample runs *)

(** A failed [submit] on a new SubscribeController. *)
Definition failed_submit : Sys (model KSubscribe) :=
  let w0 := SubscribeController.new {| siteKey := "sk"; endpoint := None |} [] in
  let w1 := (SubscribeController.submit "a@b.c" w0).1.1 in
  let w2 := (SubscribeController.submit_resume (Rejected (VString "offline")) w1).1.1 in
  @mkSys (model KSubscribe) w2 [] [].

(** A failed [add] on a new ReactionsController. *)
Definition failed_add : Sys (model KReactions) :=
  let w0 := ReactionsController.new {| siteKey := "sk"; endpoint := None |} "page" [] in
  let w1 := (ReactionsController.add None w0).1.1 in
  let w2 := (ReactionsController.add_resume "like" (Rejected (VString "offline")) w1).1.1 in
  @mkSys (model KReactions) w2 [] [].

(** A poll that the visitor has voted on, loaded by [fetch]. *)
Definition a_poll : PollData :=
  {| pd_id := 1; pd_question := "Tabs or spaces?";
     pd_options := [ {| opt_id := "a"; opt_text := "tabs" |};
                     {| opt_id := "b"; opt_text := "spaces" |} ];
     pd_settings := {| multiSelect := false; showResults := SrAlways |};
     pd_endsAt := None; pd_isActive := true;
     pd_results := {["a" := 1%Z]}; pd_totalVotes := 1;
     pd_userVotes := Some ["a"] |}.

Definition poll_loaded : Sys (model KPoll) :=
  let w0 := PollController.new {| siteKey := "sk"; endpoint := None |} "editor" [] in
  let w1 := (PollController.fetch w0).1.1 in
  let w2 := (PollController.fetch_resume (Resolved a_poll) w1).1.1 in
  @mkSys (model KPoll) w2 [] [].

(** Two announcements, loaded by [fetch]. *)
Definition two_announcements : list Announcement :=
  [ {| ann_id := 42%Z; ann_content := "Maintenance tonight";
       announcementType := AtWarning; linkUrl := None; linkText := None;
       isDismissible := true |};
    {| ann_id := 7%Z; ann_content := "Welcome";
       announcementType := AtInfo; linkUrl := None; linkText := None;
       isDismissible := true |} ].

Definition announcements_loaded : AnnouncementsController.W :=
  let w0 := AnnouncementsController.new {| siteKey := "sk"; endpoint := None |} [] in
  let w1 := (AnnouncementsController.fetch w0).1.1 in
  (AnnouncementsController.fetch_resume (Resolved two_announcements) w1).1.1.

(** * The API client and its helpers

    The functions of [index.ts] below the controllers: configuration lookup,
    visitor identity, URLs, and the request functions the controllers call.
    What they read from outside (the document's meta tags, the visitor-id
    override, [localStorage], the random sources, the clock) is an explicit
    environment. *)

(** ** Constants *)

Definition DEFAULT_ENDPOINT : string := "https://jamwidgets.com".
Definition API_PATH : string := "/api/v1".
Definition VISITOR_STORAGE_KEY : string := "jamwidgets_visitor_id".

(** ** Strings *)

(** A falsy string is [undefined] or [""]: the left operand of [s || d]
    counts only when this returns it. *)
Definition truthy (s : option string) : option string :=
  match s with
  | Some "" | None => None
  | Some x => Some x
  end.

(** [s.replace(/\/+$/, "")]: the slashes at the end of [s] are removed. *)
Fixpoint strip_trailing_slashes (s : string) : string :=
  match s with
  | "" => ""
  | String c rest =>
      match strip_trailing_slashes rest with
      | "" => if Ascii.eqb c "/"%char then "" else String c ""
      | kept => String c kept
      end
  end.

(** [encodeURIComponent] on a well-formed string, given by its UTF-8 bytes:
    letters, digits and [- _ . ! ~ * ' ( )] stay, every other byte becomes
    [%XX] with upper-case hexadecimal digits. *)
Definition unreserved (c : Ascii.ascii) : bool :=
  let n := Ascii.nat_of_ascii c in
  ((65 <=? n) && (n <=? 90)) || ((97 <=? n) && (n <=? 122))
  || ((48 <=? n) && (n <=? 57))
  || bool_decide (c ∈ ["-"; "_"; "."; "!"; "~"; "*"; "'"; "("; ")"]%char).

Definition hex_upper (n : nat) : Ascii.ascii :=
  Ascii.ascii_of_nat (if n <? 10 then 48 + n else 55 + n).

Definition percent_encode (c : Ascii.ascii) : string :=
  let n := Ascii.nat_of_ascii c in
  String "%"%char (String (hex_upper (n / 16)) (String (hex_upper (n mod 16)) "")).

Fixpoint encodeURIComponent (s : string) : string :=
  match s with
  | "" => ""
  | String c rest =>
      (if unreserved c then String c "" else percent_encode c)
      +:+ encodeURIComponent rest
  end.

(** [buildUrl(endpoint, path)]:
    [(endpoint || DEFAULT_ENDPOINT).replace(/\/+$/, "")], then [API_PATH],
    then [path]. *)
Definition buildUrl (endpoint : option string) (path : string) : string :=
  let base := strip_trailing_slashes (default DEFAULT_ENDPOINT (truthy endpoint)) in
  base +:+ API_PATH +:+ path.

(** ** Configuration from meta tags *)

(** A [<meta>] element: its [name] and [content] attributes, when present. *)
Record MetaTag := { meta_name : option string; meta_content : option string }.

(** [document.querySelector('meta[name="n"]')]: the first such element in
    document order. *)
Definition querySelector_meta (doc : list MetaTag) (n : string) : option MetaTag :=
  head (filter (λ m, meta_name m = Some n) doc).

(** [a || b] where [a] is an element or [null]. *)
Definition or_element (a b : option MetaTag) : option MetaTag :=
  match a with Some m => Some m | None => b end.

(** What [getConfigFromMeta] returns. *)
Record MetaConfig := { meta_siteKey : string; meta_endpoint : option string }.

(** [getConfigFromMeta()]; [document] is [None] where
    [typeof document === "undefined"]. *)
Definition getConfigFromMeta (document : option (list MetaTag)) : option MetaConfig :=
  match document with
  | None => None
  | Some doc =>
      let siteKeyMeta := or_element (querySelector_meta doc "jamwidgets-site-key")
                                    (querySelector_meta doc "seriph-site-key") in
      match truthy (siteKeyMeta ≫= meta_content) with
      | None => None
      | Some siteKey =>
          let endpointMeta := or_element (querySelector_meta doc "jamwidgets-endpoint")
                                         (querySelector_meta doc "seriph-endpoint") in
          Some {| meta_siteKey := siteKey;
                  meta_endpoint := truthy (endpointMeta ≫= meta_content) |}
      end
  end.

(** The message of the error thrown when no site key is found. *)
Definition siteKey_required : JsError :=
  let q := String "034"%char "" in
  new_Error ("siteKey is required. Either pass it as a prop or add <meta name="
             +:+ q +:+ "jamwidgets-site-key" +:+ q +:+ " content=" +:+ q
             +:+ "your-key" +:+ q +:+ " /> to your document head.").

(** [getSiteKey(config)] *)
Definition getSiteKey (config : JamWidgetsConfig) (document : option (list MetaTag))
  : Completion string :=
  match truthy (Some (siteKey config)) with
  | Some key => Returned key
  | None =>
      let metaConfig := getConfigFromMeta document in
      match truthy (meta_siteKey <$> metaConfig) with
      | Some key => Returned key
      | None => Threw siteKey_required
      end
  end.

(** [Partial<JamWidgetsConfig>] *)
Record PartialConfig := { partial_siteKey : option string; partial_endpoint : option string }.

(** [resolveConfig(config)] *)
Definition resolveConfig (config : PartialConfig) (document : option (list MetaTag))
  : Completion JamWidgetsConfig :=
  let metaConfig := getConfigFromMeta document in
  let key := match truthy (partial_siteKey config) with
             | Some k => Some k
             | None => meta_siteKey <$> metaConfig
             end in
  match truthy key with
  | None => Threw siteKey_required
  | Some k =>
      Returned {| siteKey := k;
                  endpoint := match truthy (partial_endpoint config) with
                              | Some e => Some e
                              | None => metaConfig ≫= meta_endpoint
                              end |}
  end.

(** ** The environment *)

(** [localStorage] as the code can find it: absent ([typeof window] or
    [typeof localStorage] is ["undefined"]), present but throwing [e] on any
    access, or present with its [items]; [setItem_throws] is what [setItem]
    throws where writing is refused. *)
Inductive Storage :=
  | NoStorage
  | Blocked (e : JsValue)
  | Items (items : gmap string string) (setItem_throws : option JsValue).

Record Env := mkEnv {
  env_document : option (list MetaTag);   (* the document's meta elements *)
  customVisitorId : option string;        (* [let customVisitorId] *)
  localStorage : Storage;
  randomUUID : option (nat → string);     (* [crypto.randomUUID], call by call *)
  random16 : nat → fin 16;                (* [(Math.random() * 16) | 0], call by call *)
  uuid_calls : nat;                       (* calls of [crypto.randomUUID] so far *)
  random_calls : nat;                     (* calls of [Math.random] so far *)
  now : Z }.                              (* [Date.now()] *)

Definition set_customVisitorId (id : option string) (env : Env) : Env :=
  mkEnv (env_document env) id (localStorage env) (randomUUID env) (random16 env)
        (uuid_calls env) (random_calls env) (now env).
Definition set_localStorage (st : Storage) (env : Env) : Env :=
  mkEnv (env_document env) (customVisitorId env) st (randomUUID env) (random16 env)
        (uuid_calls env) (random_calls env) (now env).
Definition set_uuid_calls (n : nat) (env : Env) : Env :=
  mkEnv (env_document env) (customVisitorId env) (localStorage env) (randomUUID env)
        (random16 env) n (random_calls env) (now env).
Definition set_random_calls (n : nat) (env : Env) : Env :=
  mkEnv (env_document env) (customVisitorId env) (localStorage env) (randomUUID env)
        (random16 env) (uuid_calls env) n (now env).

(** A value or a thrown exception. *)
Inductive Attempt (T : Type) :=
  | Ok (v : T)
  | Throws (e : JsValue).
Arguments Ok {T} v.
Arguments Throws {T} e.

(** ** Visitor identity *)

(** [v.toString(16)] for [v] from 0 to 15. *)
Definition hex_lower (v : nat) : Ascii.ascii :=
  Ascii.ascii_of_nat (if v <? 10 then 48 + v else 87 + v).

(** The callback of the fallback in [generateUUID]:
    [const r = (Math.random() * 16) | 0;
     const v = c === "x" ? r : (r & 0x3) | 0x8;
     return v.toString(16);] *)
Definition uuid_digit (c : Ascii.ascii) (r : fin 16) : Ascii.ascii :=
  let r := Z.of_nat (fin_to_nat r) in
  let v := if Ascii.eqb c "x"%char then r else Z.lor (Z.land r 3) 8 in
  hex_lower (Z.to_nat v).

(** ["...".replace(/[xy]/g, callback)]: each [x] or [y], from left to right,
    is replaced using the next random value; [i] counts the calls of
    [Math.random] made before. *)
Fixpoint replace_xy (template : string) (rand : nat → fin 16) (i : nat) : string :=
  match template with
  | "" => ""
  | String c rest =>
      if Ascii.eqb c "x"%char || Ascii.eqb c "y"%char
      then String (uuid_digit c (rand i)) (replace_xy rest rand (S i))
      else String c (replace_xy rest rand i)
  end.

Fixpoint count_xy (template : string) : nat :=
  match template with
  | "" => 0
  | String c rest =>
      (if Ascii.eqb c "x"%char || Ascii.eqb c "y"%char then 1 else 0) + count_xy rest
  end.

Definition uuid_template : string := "xxxxxxxx-xxxx-4xxx-yxxx-xxxxxxxxxxxx".

(** [generateUUID()] *)
Definition generateUUID (env : Env) : Env * string :=
  match randomUUID env with
  | Some uuid => (set_uuid_calls (S (uuid_calls env)) env, uuid (uuid_calls env))
  | None =>
      (set_random_calls (random_calls env + count_xy uuid_template) env,
       replace_xy uuid_template (random16 env) (random_calls env))
  end.

(** [setVisitorId(id)] *)
Definition setVisitorId (id : option string) (env : Env) : Env :=
  set_customVisitorId id env.

(** [getVisitorId()] *)
Definition getVisitorId (env : Env) : Env * Attempt string :=
  match truthy (customVisitorId env) with
  | Some id => (env, Ok id)
  | None =>
      match localStorage env with
      | NoStorage =>
          let '(env, uuid) := generateUUID env in (env, Ok uuid)
      | Blocked e => (env, Throws e)
      | Items items setItem_throws =>
          match truthy (items !! VISITOR_STORAGE_KEY) with
          | Some visitorId => (env, Ok visitorId)
          | None =>
              let '(env, visitorId) := generateUUID env in
              match setItem_throws with
              | Some e => (env, Throws e)
              | None =>
                  (set_localStorage
                     (Items (<[VISITOR_STORAGE_KEY := visitorId]> items) None) env,
                   Ok visitorId)
              end
          end
      end
  end.

(** [getHeaders(siteKey)]: the object literal, key by key. *)
Definition getHeaders (siteKey : string) (env : Env) : Env * list (string * string) :=
  let '(env, visitorId) :=
    match getVisitorId env with
    | (env, Ok visitorId) => (env, visitorId)
    | (env, Throws _) => generateUUID env
    end in
  (env, [ ("X-Jamwidgets-Key", siteKey);
          ("X-Jamwidgets-Visitor", visitorId);
          ("X-Seriph-Key", siteKey);
          ("X-Seriph-Visitor", visitorId) ]).

(** ** JSON and HTTP *)

(** A JSON value as [response.json()] yields it and as [JSON.stringify]
    takes it.  Numbers are the integer-valued ones; an object is its
    key-to-value mapping. *)
Inductive Json :=
  | JNull
  | JBool (b : bool)
  | JInt (n : Z)
  | JStr (s : string)
  | JArr (items : list Json)
  | JObj (members : gmap string Json).

(** Truthiness of a value that may be [undefined] ([None]). *)
Definition js_truthy (v : option Json) : bool :=
  match v with
  | None | Some JNull | Some (JBool false) | Some (JInt 0) | Some (JStr "") => false
  | Some _ => true
  end.

(** [a || b] *)
Definition js_or (a b : option Json) : option Json :=
  if js_truthy a then a else b.

(** [data.key] for the keys this file reads, none of which is defined on
    arrays, strings, numbers or booleans: [None] is the TypeError of reading
    a property of [null]; [Some None] is [undefined]. *)
Definition get_member (data : Json) (key : string) : option (option Json) :=
  match data with
  | JNull => None
  | JObj members => Some (members !! key)
  | _ => Some None
  end.

(** An object literal handed to [JSON.stringify]: properties whose value is
    [undefined] are left out. *)
Definition json_object (props : list (string * option Json)) : Json :=
  JObj (list_to_map (omap (λ '(k, v), (k,.) <$> v) props)).

(** What [JSON.stringify] makes of a value of a form field: [undefined] is
    left out, an [Error] has no enumerable property. *)
Definition to_json (v : JsValue) : option Json :=
  match v with
  | VUndefined => None
  | VNull => Some JNull
  | VBool b => Some (JBool b)
  | VString s => Some (JStr s)
  | VError _ => Some (JObj ∅)
  end.

(** The arguments of a call of the global [fetch]; [body] is the value
    given to [JSON.stringify]. *)
Record HttpRequest := {
  url : string;
  method : option string;
  headers : list (string * string);
  body : option Json }.

(** A response: [json] is how [response.json()] settles. *)
Record HttpResponse := {
  http_status : Z;
  statusText : string;
  json : Outcome Json }.

(** [response.ok] *)
Definition ok (response : HttpResponse) : bool :=
  (200 <=? http_status response)%Z && (http_status response <=? 299)%Z.

(** How the promise of a request function settles.  [RejectedTypeError] is
    the engine's TypeError for reading a property of [null] or [undefined],
    whose message the engine chooses. *)
Inductive Settlement (R : Type) :=
  | Fulfilled (r : R)
  | RejectedWith (e : JsValue)
  | RejectedTypeError.
Arguments Fulfilled {R} r.
Arguments RejectedWith {R} e.
Arguments RejectedTypeError {R}.

(** A call of a request function: it throws before calling [fetch], or it
    calls [fetch] once and [handle]s what comes back. *)
Inductive Fetching (R : Type) :=
  | Fails (error : JsError)
  | Fetches (rq : HttpRequest) (handle : Outcome HttpResponse → Settlement R).
Arguments Fails {R} error.
Arguments Fetches {R} rq handle.

(** What the request functions resolve with: a JSON value or [undefined];
    for [fetchReactions] the object [{ ...result, userReactions }], given by
    its two parts; or nothing. *)
Inductive ApiValue :=
  | AJson (v : option Json)
  | AReactions (result : Json) (userReactions : Json)
  | AVoid.

(** ** The request functions *)
Module Api.

(** [{ ...getHeaders(siteKey), "Content-Type": "application/json" }] *)
Definition json_headers (hs : list (string * string)) : list (string * string) :=
  hs ++ [("Content-Type", "application/json")].

(** [if (!response.ok) throw new Error(`${label}: ${response.statusText}`);]
    after [await fetch(...)]. *)
Definition check_ok (label : string) (o : Outcome HttpResponse)
    (continue : HttpResponse → Settlement ApiValue) : Settlement ApiValue :=
  match o with
  | Rejected e => RejectedWith e
  | Resolved response =>
      if ok response then continue response
      else RejectedWith (VError (new_Error (label +:+ ": " +:+ statusText response)))
  end.

(** [const data = await response.json();] *)
Definition with_json (response : HttpResponse) (continue : Json → Settlement ApiValue)
  : Settlement ApiValue :=
  match json response with
  | Resolved data => continue data
  | Rejected e => RejectedWith e
  end.

(** [return data.key;] *)
Definition return_member (key : string) (data : Json) : Settlement ApiValue :=
  match get_member data key with
  | Some v => Fulfilled (AJson v)
  | None => RejectedTypeError
  end.

(** [return data.key || [];] *)
Definition return_member_or_empty (key : string) (data : Json) : Settlement ApiValue :=
  match get_member data key with
  | Some v => Fulfilled (AJson (js_or v (Some (JArr []))))
  | None => RejectedTypeError
  end.

(** [return response.json();] *)
Definition return_json (response : HttpResponse) : Settlement ApiValue :=
  with_json response (λ data, Fulfilled (AJson (Some data))).

(** [submitForm(options)]; the payload is
    [{ ...data, _seriph_ts: formLoadTime || Math.floor(Date.now() / 1000) }]. *)
Definition submitForm (config : JamWidgetsConfig) (formSlug : string)
    (data : gmap string JsValue) (formLoadTime : option Z) (env : Env)
  : Env * Fetching ApiValue :=
  match getSiteKey config (env_document env) with
  | Threw error => (env, Fails error)
  | Returned siteKey =>
      let url := buildUrl (endpoint config) ("/forms/" +:+ formSlug +:+ "/submit") in
      let ts := match formLoadTime with
                | Some t => if (t =? 0)%Z then (now env `div` 1000)%Z else t
                | None => (now env `div` 1000)%Z
                end in
      let payload := JObj (<["_seriph_ts" := JInt ts]> (omap to_json data)) in
      let '(env, hs) := getHeaders siteKey env in
      (env, Fetches {| url := url; method := Some "POST";
                       headers := json_headers hs; body := Some payload |}
              (λ o, check_ok "Form submission failed" o return_json))
  end.

(** [fetchComments(options)] *)
Definition fetchComments (config : JamWidgetsConfig) (pageId : string) (env : Env)
  : Env * Fetching ApiValue :=
  match getSiteKey config (env_document env) with
  | Threw error => (env, Fails error)
  | Returned siteKey =>
      let url := buildUrl (endpoint config) ("/comments/" +:+ encodeURIComponent pageId) in
      let '(env, hs) := getHeaders siteKey env in
      (env, Fetches {| url := url; method := None; headers := hs; body := None |}
              (λ o, check_ok "Failed to fetch comments" o (λ response,
                    with_json response (return_member_or_empty "comment_threads"))))
  end.

(** [postComment(options)] *)
Definition postComment (config : JamWidgetsConfig) (pageId authorName content : string)
    (authorEmail parentId : option string) (env : Env) : Env * Fetching ApiValue :=
  match getSiteKey config (env_document env) with
  | Threw error => (env, Fails error)
  | Returned siteKey =>
      let url := buildUrl (endpoint config) ("/comments/" +:+ encodeURIComponent pageId) in
      let '(env, hs) := getHeaders siteKey env in
      (env, Fetches {| url := url; method := Some "POST"; headers := json_headers hs;
                       body := Some (json_object
                                       [ ("authorName", Some (JStr authorName));
                                         ("authorEmail", JStr <$> authorEmail);
                                         ("content", Some (JStr content));
                                         ("parentId", JStr <$> parentId) ]) |}
              (λ o, check_ok "Failed to post comment" o (λ response,
                    with_json response (return_member "comment"))))
  end.

(** [fetchReactions(options)]:
    [const result = data.reaction_counts_with_user;
     return { ...result, userReactions: result.userReactions || [] };] *)
Definition fetchReactions (config : JamWidgetsConfig) (pageId : string) (env : Env)
  : Env * Fetching ApiValue :=
  match getSiteKey config (env_document env) with
  | Threw error => (env, Fails error)
  | Returned siteKey =>
      let url := buildUrl (endpoint config) ("/reactions/" +:+ encodeURIComponent pageId) in
      let '(env, hs) := getHeaders siteKey env in
      (env, Fetches {| url := url; method := None; headers := hs; body := None |}
              (λ o, check_ok "Failed to fetch reactions" o (λ response,
                    with_json response (λ data,
                      match get_member data "reaction_counts_with_user" with
                      | Some (Some result) =>
                          match get_member result "userReactions" with
                          | Some v =>
                              Fulfilled (AReactions result
                                           (default (JArr []) (js_or v (Some (JArr [])))))
                          | None => RejectedTypeError
                          end
                      | _ => RejectedTypeError
                      end))))
  end.

(** The body of [addReaction] and [removeReaction], which differ in the
    HTTP method and the error label; [reactionType = "like"] by default. *)
Definition reaction_request (httpMethod label : string) (config : JamWidgetsConfig)
    (pageId : string) (reactionType : option string) (env : Env)
  : Env * Fetching ApiValue :=
  let reactionType := default "like" reactionType in
  match getSiteKey config (env_document env) with
  | Threw error => (env, Fails error)
  | Returned siteKey =>
      let url := buildUrl (endpoint config) ("/reactions/" +:+ encodeURIComponent pageId) in
      let '(env, hs) := getHeaders siteKey env in
      (env, Fetches {| url := url; method := Some httpMethod; headers := json_headers hs;
                       body := Some (json_object
                                       [ ("reactionType", Some (JStr reactionType)) ]) |}
              (λ o, check_ok label o (λ response,
                    with_json response (return_member "reaction"))))
  end.

Definition addReaction := reaction_request "POST" "Failed to add reaction".
Definition removeReaction := reaction_request "DELETE" "Failed to remove reaction".

(** [subscribe(options)] *)
Definition subscribe (config : JamWidgetsConfig) (email : string) (env : Env)
  : Env * Fetching ApiValue :=
  match getSiteKey config (env_document env) with
  | Threw error => (env, Fails error)
  | Returned siteKey =>
      let url := buildUrl (endpoint config) "/subscribe" in
      let '(env, hs) := getHeaders siteKey env in
      (env, Fetches {| url := url; method := Some "POST"; headers := json_headers hs;
                       body := Some (json_object [ ("email", Some (JStr email)) ]) |}
              (λ o, check_ok "Subscription failed" o return_json))
  end.

(** [fetchPost(options)]: a 404 is [null], not an error. *)
Definition fetchPost (config : JamWidgetsConfig) (slug : string) (env : Env)
  : Env * Fetching ApiValue :=
  match getSiteKey config (env_document env) with
  | Threw error => (env, Fails error)
  | Returned siteKey =>
      let baseUrl := strip_trailing_slashes
                       (default DEFAULT_ENDPOINT (truthy (endpoint config))) +:+ API_PATH in
      let '(env, hs) := getHeaders siteKey env in
      (env, Fetches {| url := baseUrl +:+ "/posts/" +:+ encodeURIComponent slug;
                       method := None; headers := hs; body := None |}
              (λ o, match o with
                    | Rejected e => RejectedWith e
                    | Resolved response =>
                        if (http_status response =? 404)%Z then Fulfilled (AJson (Some JNull))
                        else if ok response then
                          with_json response (λ data,
                            match get_member data "public_post" with
                            | Some v => Fulfilled (AJson (js_or v (Some data)))
                            | None => RejectedTypeError
                            end)
                        else RejectedWith (VError (new_Error
                               ("Failed to fetch post: " +:+ pretty (http_status response)
                                +:+ " " +:+ statusText response)))
                    end))
  end.

(** [joinWaitlist(options)] *)
Definition joinWaitlist (config : JamWidgetsConfig) (email : string)
    (name source : option string) (env : Env) : Env * Fetching ApiValue :=
  match getSiteKey config (env_document env) with
  | Threw error => (env, Fails error)
  | Returned siteKey =>
      let url := buildUrl (endpoint config) "/waitlist" in
      let '(env, hs) := getHeaders siteKey env in
      (env, Fetches {| url := url; method := Some "POST"; headers := json_headers hs;
                       body := Some (json_object
                                       [ ("email", Some (JStr email));
                                         ("name", JStr <$> name);
                                         ("source", JStr <$> source) ]) |}
              (λ o, check_ok "Failed to join waitlist" o return_json))
  end.

(** [getViewCounts(options)] *)
Definition getViewCounts (config : JamWidgetsConfig) (pageId : string) (env : Env)
  : Env * Fetching ApiValue :=
  match getSiteKey config (env_document env) with
  | Threw error => (env, Fails error)
  | Returned siteKey =>
      let url := buildUrl (endpoint config) ("/views/" +:+ encodeURIComponent pageId) in
      let '(env, hs) := getHeaders siteKey env in
      (env, Fetches {| url := url; method := None; headers := hs; body := None |}
              (λ o, check_ok "Failed to get view counts" o (λ response,
                    with_json response (return_member "page_view_counts"))))
  end.

(** [recordView(options)] *)
Definition recordView (config : JamWidgetsConfig) (pageId : string) (env : Env)
  : Env * Fetching ApiValue :=
  match getSiteKey config (env_document env) with
  | Threw error => (env, Fails error)
  | Returned siteKey =>
      let url := buildUrl (endpoint config) ("/views/" +:+ encodeURIComponent pageId) in
      let '(env, hs) := getHeaders siteKey env in
      (env, Fetches {| url := url; method := Some "POST"; headers := hs; body := None |}
              (λ o, check_ok "Failed to record view" o (λ response,
                    with_json response (return_member "record_view_response"))))
  end.

(** The value of a [FeedbackType]. *)
Definition feedback_type (t : FeedbackType) : string :=
  match t with FtBug => "bug" | FtFeature => "feature" | FtGeneral => "general" end.

(** [submitFeedback(options)] *)
Definition submitFeedback (config : JamWidgetsConfig) (type : FeedbackType)
    (content : string) (email pageUrl : option string) (env : Env)
  : Env * Fetching ApiValue :=
  match getSiteKey config (env_document env) with
  | Threw error => (env, Fails error)
  | Returned siteKey =>
      let url := buildUrl (endpoint config) "/feedback" in
      let '(env, hs) := getHeaders siteKey env in
      (env, Fetches {| url := url; method := Some "POST"; headers := json_headers hs;
                       body := Some (json_object
                                       [ ("feedback_type", Some (JStr (feedback_type type)));
                                         ("content", Some (JStr content));
                                         ("email", JStr <$> email);
                                         ("page_url", JStr <$> pageUrl) ]) |}
              (λ o, check_ok "Failed to submit feedback" o return_json))
  end.

(** [fetchPoll(options)]; the slug enters the path as it is. *)
Definition fetchPoll (config : JamWidgetsConfig) (slug : string) (env : Env)
  : Env * Fetching ApiValue :=
  match getSiteKey config (env_document env) with
  | Threw error => (env, Fails error)
  | Returned siteKey =>
      let url := buildUrl (endpoint config) ("/polls/" +:+ slug) in
      let '(env, hs) := getHeaders siteKey env in
      (env, Fetches {| url := url; method := None; headers := hs; body := None |}
              (λ o, check_ok "Failed to fetch poll" o (λ response,
                    with_json response (return_member "poll_with_results"))))
  end.

(** [votePoll(options)] *)
Definition votePoll (config : JamWidgetsConfig) (slug : string)
    (selectedOptions : list string) (env : Env) : Env * Fetching ApiValue :=
  match getSiteKey config (env_document env) with
  | Threw error => (env, Fails error)
  | Returned siteKey =>
      let url := buildUrl (endpoint config) ("/polls/" +:+ slug +:+ "/vote") in
      let '(env, hs) := getHeaders siteKey env in
      (env, Fetches {| url := url; method := Some "POST"; headers := json_headers hs;
                       body := Some (json_object
                                       [ ("selected_options",
                                          Some (JArr (JStr <$> selectedOptions))) ]) |}
              (λ o, check_ok "Failed to vote" o (λ response,
                    with_json response (return_member "vote_response"))))
  end.

(** [fetchAnnouncements(options)] *)
Definition fetchAnnouncements (config : JamWidgetsConfig) (env : Env)
  : Env * Fetching ApiValue :=
  match getSiteKey config (env_document env) with
  | Threw error => (env, Fails error)
  | Returned siteKey =>
      let url := buildUrl (endpoint config) "/announcements" in
      let '(env, hs) := getHeaders siteKey env in
      (env, Fetches {| url := url; method := None; headers := hs; body := None |}
              (λ o, check_ok "Failed to fetch announcements" o (λ response,
                    with_json response (return_member_or_empty "announcements"))))
  end.

(** [dismissAnnouncement(options)]: the id is a number, which the template
    literal writes into the path.  The ids here are integers, and below
    10^21 in magnitude, where JavaScript writes an integer in decimal, as
    [pretty] does.  The body of the response is not read. *)
Definition dismissAnnouncement (config : JamWidgetsConfig) (announcementId : Z)
    (env : Env) : Env * Fetching ApiValue :=
  match getSiteKey config (env_document env) with
  | Threw error => (env, Fails error)
  | Returned siteKey =>
      let url := buildUrl (endpoint config)
                   ("/announcements/" +:+ pretty announcementId +:+ "/dismiss") in
      let '(env, hs) := getHeaders siteKey env in
      (env, Fetches {| url := url; method := Some "POST"; headers := hs; body := None |}
              (λ o, check_ok "Failed to dismiss announcement" o (λ _, Fulfilled AVoid)))
  end.
End Api.

(** The request function a controller calls for each request it makes. *)
Definition perform (rq : Request) : Env → Env * Fetching ApiValue :=
  match rq with
  | subscribe_rq config email => Api.subscribe config email
  | joinWaitlist_rq config email name source => Api.joinWaitlist config email name source
  | submitForm_rq config formSlug data formLoadTime =>
      Api.submitForm config formSlug data (Some formLoadTime)
  | fetchReactions_rq config pageId => Api.fetchReactions config pageId
  | addReaction_rq config pageId reactionType =>
      Api.addReaction config pageId (Some reactionType)
  | removeReaction_rq config pageId reactionType =>
      Api.removeReaction config pageId (Some reactionType)
  | fetchComments_rq config pageId => Api.fetchComments config pageId
  | postComment_rq config pageId authorName content authorEmail parentId =>
      Api.postComment config pageId authorName content authorEmail parentId
  | submitFeedback_rq config type content email pageUrl =>
      Api.submitFeedback config type content email pageUrl
  | fetchPoll_rq config slug => Api.fetchPoll config slug
  | votePoll_rq config slug selectedOptions => Api.votePoll config slug selectedOptions
  | fetchAnnouncements_rq config => Api.fetchAnnouncements config
  | dismissAnnouncement_rq config announcementId =>
      Api.dismissAnnouncement config announcementId
  | getViewCounts_rq config pageId => Api.getViewCounts config pageId
  | recordView_rq config pageId => Api.recordView config pageId
  end.

(** ** Reading controllers and requests *)

(** The configuration a controller was constructed with. *)
Definition config_of (k : Kind) : Fields (model k) → JamWidgetsConfig :=
  match k with
  | KSubscribe => SubscribeController.config
  | KWaitlist => WaitlistController.config
  | KForm => FormController.config
  | KReactions => ReactionsController.config
  | KComments => CommentsController.config
  | KFeedback => FeedbackController.config
  | KPoll => PollController.config
  | KAnnouncements => AnnouncementsController.config
  | KViewCounts => ViewCountsController.config
  end.

(** The resource a controller is bound to: a page id, a form slug or a poll
    slug. *)
Definition resource_of (k : Kind) : Fields (model k) → option string :=
  match k with
  | KForm => λ f, Some (FormController.formSlug f)
  | KReactions => λ f, Some (ReactionsController.pageId f)
  | KComments => λ f, Some (CommentsController.pageId f)
  | KPoll => λ f, Some (PollController.slug f)
  | KViewCounts => λ f, Some (ViewCountsController.this_pageId f)
  | _ => λ _, None
  end.

(** The configuration and the resource inside a request's options. *)
Definition request_config (rq : Request) : JamWidgetsConfig :=
  match rq with
  | subscribe_rq c _ | joinWaitlist_rq c _ _ _ | submitForm_rq c _ _ _
  | fetchReactions_rq c _ | addReaction_rq c _ _ | removeReaction_rq c _ _
  | fetchComments_rq c _ | postComment_rq c _ _ _ _ _ | submitFeedback_rq c _ _ _ _
  | fetchPoll_rq c _ | votePoll_rq c _ _ | fetchAnnouncements_rq c
  | dismissAnnouncement_rq c _ | getViewCounts_rq c _ | recordView_rq c _ => c
  end.

Definition request_resource (rq : Request) : option string :=
  match rq with
  | submitForm_rq _ r _ _ | fetchReactions_rq _ r | addReaction_rq _ r _
  | removeReaction_rq _ r _ | fetchComments_rq _ r | postComment_rq _ r _ _ _ _
  | fetchPoll_rq _ r | votePoll_rq _ r _ | getViewCounts_rq _ r | recordView_rq _ r =>
      Some r
  | _ => None
  end.

(** The text before the colon in the error a request function throws on a
    response that is not [ok]. *)
Definition failure_label (rq : Request) : string :=
  match rq with
  | subscribe_rq _ _ => "Subscription failed"
  | joinWaitlist_rq _ _ _ _ => "Failed to join waitlist"
  | submitForm_rq _ _ _ _ => "Form submission failed"
  | fetchReactions_rq _ _ => "Failed to fetch reactions"
  | addReaction_rq _ _ _ => "Failed to add reaction"
  | removeReaction_rq _ _ _ => "Failed to remove reaction"
  | fetchComments_rq _ _ => "Failed to fetch comments"
  | postComment_rq _ _ _ _ _ _ => "Failed to post comment"
  | submitFeedback_rq _ _ _ _ _ => "Failed to submit feedback"
  | fetchPoll_rq _ _ => "Failed to fetch poll"
  | votePoll_rq _ _ _ => "Failed to vote"
  | fetchAnnouncements_rq _ => "Failed to fetch announcements"
  | dismissAnnouncement_rq _ _ => "Failed to dismiss announcement"
  | getViewCounts_rq _ _ => "Failed to get view counts"
  | recordView_rq _ _ => "Failed to record view"
  end.

(** The value of a header in a request's header object. *)
Definition header (name : string) (rq : HttpRequest) : option string :=
  (list_to_map (headers rq) : gmap string string) !! name.

(** One broadcast: every listener, in order, gets the snapshot [snap]. *)
Definition broadcast {S : Type} (snap : S) (ls : list Listener) : list (Listener * S) :=
  (λ l, (l, snap)) <$> ls.


(** The references of a state lead to objects of the right kind. *)
Definition reactions_typed (h : Heap) (s : ReactionsController.ReactionsState) : Prop :=
  (∃ m, h !! ReactionsController.counts s = Some (CRecord m))
  ∧ (∃ u, h !! ReactionsController.userReactions s = Some (CStrings u)).

Definition comments_typed (h : Heap) (s : CommentsController.CommentsState) : Prop :=
  ∃ l, h !! CommentsController.comments s = Some (CComments l).

Definition announcements_typed (h : Heap)
    (s : AnnouncementsController.AnnouncementsState) : Prop :=
  (∃ a, h !! AnnouncementsController.announcements s = Some (CAnnouncements a))
  ∧ (∃ d, h !! AnnouncementsController.dismissed s = Some (CIdSet d)).

Definition well_typed (k : Kind) : Heap → State (model k) → Prop :=
  match k with
  | KReactions => reactions_typed
  | KComments => comments_typed
  | KAnnouncements => announcements_typed
  | _ => λ _ _, True
  end.

Definition user_reactions (w : ReactionsController.W) : list string :=
  read_strings (heap w) (ReactionsController.userReactions (_state w)).

(** Every character of [s] satisfies [p]. *)
Fixpoint string_forall (p : Ascii.ascii → bool) (s : string) : bool :=
  match s with
  | "" => true
  | String c rest => p c && string_forall p rest
  end.

(** The request a call of a request function makes, if it makes one. *)
Definition request_of (r : Env * Fetching ApiValue) : option HttpRequest :=
  match r.2 with
  | Fetches rq _ => Some rq
  | Fails _ => None
  end.

(** The shape of a version-4 UUID in lower case: 36 characters, hyphens at
    positions 8, 13, 18 and 23, the digit 4 at position 14, one of 8, 9, a,
    b at position 19, and lower-case hexadecimal digits elsewhere. *)
Definition hex_digit_lower (c : Ascii.ascii) : bool :=
  let n := Ascii.nat_of_ascii c in
  ((48 <=? n) && (n <=? 57)) || ((97 <=? n) && (n <=? 102)).

Definition uuid_v4_char (i : nat) (c : Ascii.ascii) : bool :=
  if bool_decide (i ∈ [8; 13; 18; 23]) then Ascii.eqb c "-"%char
  else if i =? 14 then Ascii.eqb c "4"%char
  else if i =? 19 then bool_decide (c ∈ ["8"; "9"; "a"; "b"]%char)
  else hex_digit_lower c.

Fixpoint uuid_v4_from (i : nat) (s : string) : bool :=
  match s with
  | "" => true
  | String c rest => uuid_v4_char i c && uuid_v4_from (S i) rest
  end.

Definition uuid_v4 (s : string) : bool :=
  (String.length s =? 36) && uuid_v4_from 0 s.

(** The visitor header of a header object. *)
Definition visitor_header (hs : list (string * string)) : option string :=
  (list_to_map hs : gmap string string) !! "X-Jamwidgets-Visitor".

(** The member of the response's JSON a request function returns, for those
    that return one with [return data.member]. *)
Definition response_member (rq : Request) : option string :=
  match rq with
  | postComment_rq _ _ _ _ _ _ => Some "comment"
  | addReaction_rq _ _ _ | removeReaction_rq _ _ _ => Some "reaction"
  | getViewCounts_rq _ _ => Some "page_view_counts"
  | recordView_rq _ _ => Some "record_view_response"
  | fetchPoll_rq _ _ => Some "poll_with_results"
  | votePoll_rq _ _ _ => Some "vote_response"
  | _ => None
  end.

(** The member holding the list, for the request functions that return
    [data.member || []]. *)
Definition list_member (rq : Request) : option string :=
  match rq with
  | fetchComments_rq _ _ => Some "comment_threads"
  | fetchAnnouncements_rq _ => Some "announcements"
  | _ => None
  end.

(** * Listeners that throw

    [notify] and [subscribe] call the listeners without a [try]: when a
    listener throws, the loop stops there and the exception travels up
    through the method, into its [catch] block when [notify] was called
    inside the [try].  The definitions above give the calls that are made
    when every listener returns; the ones below follow the code for
    listeners that may throw.  The controllers keep their types, their
    [copy] and their constructors; the methods are written again, statement
    by statement, as runs of code that can end in an exception.

    [throws i] tells how the call number [i] made to a listener during one
    run (from 0) ends: [None] when it returns, [Some e] when it throws [e].
    As above, a listener does not call back into the controller. *)
Module Throwing.

(** A run of synchronous code: it changes the instance, adds to the calls
    made so far, and returns a value or throws. *)
Definition Run (P S A : Type) : Type :=
  World P S → Log S → World P S * Log S * Attempt A.

(** Where an [async] method stands at the end of a run: it has returned
    [v]; it awaits the transport request [rq]; or it awaits a promise of the
    controller's own code that has settled with [o].  A run that throws
    rejects the method's promise. *)
Inductive Pending (A : Type) (T : A → Type) (R : Type) :=
  | Finished (v : R)
  | Awaits (a : A) (rq : Request)
  | Joins (a : A) (o : Outcome (T a)).
Arguments Finished {A T R} v.
Arguments Awaits {A T R} a rq.
Arguments Joins {A T R} a o.

Section Run.
Context {P S : Type}.
Variable copy : S → Heap → S * Heap.
Variable throws : nat → option JsValue.

Definition ret {A : Type} (x : A) : Run P S A := λ w log, (w, log, Ok x).

Definition throw {A : Type} (e : JsValue) : Run P S A := λ w log, (w, log, Throws e).

Definition bind {A B : Type} (m : Run P S A) (f : A → Run P S B) : Run P S B :=
  λ w log,
    match m w log with
    | (w, log, Ok x) => f x w log
    | (w, log, Throws e) => (w, log, Throws e)
    end.

(** [try { body } catch (e) { handler }] *)
Definition try_catch {A : Type} (body : Run P S A) (handler : JsValue → Run P S A)
  : Run P S A :=
  λ w log,
    match body w log with
    | (w, log, Throws e) => handler e w log
    | done => done
    end.

(** [await p] for a promise that has settled with [o]. *)
Definition await {A T : Type} (o : Outcome T) (continue : T → Run P S A) : Run P S A :=
  match o with
  | Resolved result => continue result
  | Rejected e => throw e
  end.

(** The promise of an [async] function whose body is [m]. *)
Definition promise {A : Type} (m : Run P S A) : Run P S (Outcome A) :=
  λ w log,
    match m w log with
    | (w, log, Ok x) => (w, log, Ok (Resolved x))
    | (w, log, Throws e) => (w, log, Ok (Rejected e))
    end.

Definition read {A : Type} (f : World P S → A) : Run P S A := λ w log, (w, log, Ok (f w)).

Definition update (f : World P S → World P S) : Run P S unit :=
  λ w log, (f w, log, Ok ()).

(** New objects: [f] places them in the heap and returns a reference. *)
Definition allocating (f : Heap → loc * Heap) : Run P S loc :=
  λ w log, let '(l, h) := f (heap w) in (set_heap h w, log, Ok l).

Definition allocate (c : cell) : Run P S loc := allocating (alloc c).

(** [this.getState()] *)
Definition get_state : Run P S S :=
  λ w log, let '(state, w) := getState copy w in (w, log, Ok state).

(** [listener(state)] *)
Definition call_listener (listener : Listener) (state : S) : Run P S unit :=
  λ w log,
    (w, log ++ [(listener, state)],
     match throws (length log) with
     | None => Ok ()
     | Some e => Throws e
     end).

(** [for (const listener of ls) listener(state);] *)
Fixpoint for_each (ls : list Listener) (state : S) : Run P S unit :=
  match ls with
  | [] => ret ()
  | listener :: ls => bind (call_listener listener state) (λ _, for_each ls state)
  end.

(** [private notify() { const state = this.getState();
      for (const listener of this.listeners) listener(state); }] *)
Definition notify : Run P S unit :=
  bind get_state (λ state,
  bind (read listeners) (λ ls,
  for_each ls state)).

(** [subscribe(listener) { this.listeners.add(listener);
      listener(this.getState());
      return () => this.listeners.delete(listener); }] *)
Definition subscribe (listener : Listener) : Run P S (World P S → World P S * bool) :=
  bind (update (λ w, set_listeners (Set_add listener (listeners w)) w)) (λ _,
  bind get_state (λ state,
  bind (call_listener listener state) (λ _,
  ret (unsubscribe listener)))).
End Run.

Declare Scope run_scope.
Delimit Scope run_scope with run.
Notation "'let*' x ':=' m 'in' k" := (bind m (λ x, k))
  (at level 10, x name, m at level 100, k at level 200) : run_scope.
Notation "m '>>' k" := (bind m (λ _, k))
  (at level 100, k at level 200, right associativity) : run_scope.
#[local] Open Scope run_scope.

Module Subscribe.
Import SubscribeController.
Section Methods.
Variable throws : nat → option JsValue.
Abbreviation R := (Run Fields SubscribeState (Pending Await resp Ret)).

Definition submit (email : string) : R :=
  update (set_state {| status := Loading; message := None; error := None |}) >>
  notify copy throws >>
  let* cfg := read (λ w, config (fields w)) in
  ret (Awaits AwSubmit (subscribe_rq cfg email)).

Definition submit_resume (o : Outcome SubscribeResponse) : R :=
  try_catch
    (await o (λ result,
       update (set_state {| status := Success; message := sub_message result;
                            error := None |}) >>
       notify copy throws >>
       ret (Finished (RResponse result))))
    (λ e,
       let error := catch_error e in
       update (set_state {| status := Error; message := Some (err_message error);
                            error := Some error |}) >>
       notify copy throws >>
       throw (VError error)).

Definition reset : R :=
  update (set_state {| status := Idle; message := None; error := None |}) >>
  notify copy throws >>
  ret (Finished RVoid).

Definition call (c : Call) : R :=
  match c with submit_ email => submit email | reset_ => reset end.
Definition resume (a : Await) : Outcome (resp a) → R :=
  match a with AwSubmit => submit_resume end.
End Methods.
End Subscribe.

Module Waitlist.
Import WaitlistController.
Section Methods.
Variable throws : nat → option JsValue.
Abbreviation R := (Run Fields WaitlistState (Pending Await resp Ret)).

Definition join (email : string) (options : option JoinOptions) : R :=
  update (set_state {| status := Loading; message := None;
                       position := None; error := None |}) >>
  notify copy throws >>
  let* cfg := read (λ w, config (fields w)) in
  ret (Awaits AwJoin (joinWaitlist_rq cfg email (options ≫= name) (options ≫= source))).

Definition join_resume (o : Outcome JoinWaitlistResponse) : R :=
  try_catch
    (await o (λ result,
       update (set_state {| status := Success; message := jw_message result;
                            position := jw_position result; error := None |}) >>
       notify copy throws >>
       ret (Finished (RResponse result))))
    (λ e,
       let error := catch_error e in
       update (set_state {| status := Error; message := Some (err_message error);
                            position := None; error := Some error |}) >>
       notify copy throws >>
       throw (VError error)).

Definition reset : R :=
  update (set_state {| status := Idle; message := None;
                       position := None; error := None |}) >>
  notify copy throws >>
  ret (Finished RVoid).

Definition call (c : Call) : R :=
  match c with join_ email options => join email options | reset_ => reset end.
Definition resume (a : Await) : Outcome (resp a) → R :=
  match a with AwJoin => join_resume end.
End Methods.
End Waitlist.

Module Form.
Import FormController.
Section Methods.
Variable throws : nat → option JsValue.
Abbreviation R := (Run Fields FormState (Pending Await resp Ret)).

Definition submit (data : gmap string JsValue) : R :=
  update (set_state {| status := Loading; message := None; error := None |}) >>
  notify copy throws >>
  let* f := read fields in
  ret (Awaits AwSubmit (submitForm_rq (config f) (formSlug f) data (loadTime f))).

Definition submit_resume (o : Outcome FormSubmitResponse) : R :=
  try_catch
    (await o (λ result,
       update (set_state {| status := Success; message := fs_message result;
                            error := None |}) >>
       notify copy throws >>
       ret (Finished (RResponse result))))
    (λ e,
       let error := catch_error e in
       update (set_state {| status := Error; message := Some (err_message error);
                            error := Some error |}) >>
       notify copy throws >>
       throw (VError error)).

Definition reset (now : Z) : R :=
  update (set_state {| status := Idle; message := None; error := None |}) >>
  update (λ w, set_fields {| config := config (fields w);
                             formSlug := formSlug (fields w);
                             loadTime := (now `div` 1000)%Z |} w) >>
  notify copy throws >>
  ret (Finished RVoid).

Definition call (c : Call) : R :=
  match c with submit_ data => submit data | reset_ now => reset now end.
Definition resume (a : Await) : Outcome (resp a) → R :=
  match a with AwSubmit => submit_resume end.
End Methods.
End Form.

Module Feedback.
Import FeedbackController.
Section Methods.
Variable throws : nat → option JsValue.
Abbreviation R := (Run Fields FeedbackState (Pending Await resp Ret)).

Definition submit (type : FeedbackType) (content : string)
    (options : option SubmitOptions) : R :=
  update (set_state {| status := Loading; message := None; error := None |}) >>
  notify copy throws >>
  let* cfg := read (λ w, config (fields w)) in
  ret (Awaits AwSubmit (submitFeedback_rq cfg type content
                          (options ≫= email) (options ≫= pageUrl))).

Definition submit_resume (o : Outcome SubmitFeedbackResponse) : R :=
  try_catch
    (await o (λ result,
       update (set_state {| status := Success; message := fb_message result;
                            error := None |}) >>
       notify copy throws >>
       ret (Finished (RResponse result))))
    (λ e,
       let error := catch_error e in
       update (set_state {| status := Error; message := Some (err_message error);
                            error := Some error |}) >>
       notify copy throws >>
       throw (VError error)).

Definition reset : R :=
  update (set_state {| status := Idle; message := None; error := None |}) >>
  notify copy throws >>
  ret (Finished RVoid).

Definition call (c : Call) : R :=
  match c with
  | submit_ type content options => submit type content options
  | reset_ => reset
  end.
Definition resume (a : Await) : Outcome (resp a) → R :=
  match a with AwSubmit => submit_resume end.
End Methods.
End Feedback.

Module Reactions.
Import ReactionsController.
Section Methods.
Variable throws : nat → option JsValue.
Abbreviation R := (Run Fields ReactionsState (Pending Await resp Ret)).

(** The [catch] block of [add] and [remove]:
    [this._state = { ...this._state, error }; this.notify(); throw error;] *)
Definition store_error (e : JsValue) : R :=
  let error := catch_error e in
  let* s := read _state in
  update (set_state {| counts := counts s; userReactions := userReactions s;
                       status := status s; error := Some error |}) >>
  notify copy throws >>
  throw (VError error).

Definition fetch : R :=
  let* s := read _state in
  update (set_state {| counts := counts s; userReactions := userReactions s;
                       status := Loading; error := None |}) >>
  notify copy throws >>
  let* f := read fields in
  ret (Awaits AwFetch (fetchReactions_rq (config f) (pageId f))).

Definition fetch_resume (o : Outcome FetchReactionsResponse) : R :=
  try_catch
    (await o (λ result,
       let* c := allocate (CRecord (fr_counts result)) in
       let* u := allocate (CStrings (fr_userReactions result)) in
       update (set_state {| counts := c; userReactions := u;
                            status := Success; error := None |}) >>
       notify copy throws >>
       let* s := get_state copy in
       ret (Finished (RState s))))
    (λ e,
       let error := catch_error e in
       let* s := read _state in
       update (set_state {| counts := counts s; userReactions := userReactions s;
                            status := Error; error := Some error |}) >>
       notify copy throws >>
       throw (VError error)).

Definition add (reactionType : option string) : R :=
  let reactionType := default "like" reactionType in
  let* f := read fields in
  ret (Awaits (AwAdd reactionType) (addReaction_rq (config f) (pageId f) reactionType)).

Definition add_resume (reactionType : string) (o : Outcome ReactionResult) : R :=
  try_catch
    (await o (λ result,
       let* s := read _state in
       update (λ w, set_heap
                      (store (counts s)
                         (CRecord (<[reactionType := rr_count result]>
                                     (read_record (heap w) (counts s))))
                         (heap w)) w) >>
       let* h := read heap in
       (if bool_decide (reactionType ∈ read_strings h (userReactions s)) then ret ()
        else
          let* u := allocate (CStrings (read_strings h (userReactions s)
                                        ++ [reactionType])) in
          update (set_state {| counts := counts s; userReactions := u;
                               status := status s; error := error s |})) >>
       notify copy throws >>
       ret (Finished RVoid)))
    store_error.

Definition remove (reactionType : option string) : R :=
  let reactionType := default "like" reactionType in
  let* f := read fields in
  ret (Awaits (AwRemove reactionType)
         (removeReaction_rq (config f) (pageId f) reactionType)).

Definition remove_resume (reactionType : string) (o : Outcome ReactionResult) : R :=
  try_catch
    (await o (λ result,
       let* s := read _state in
       update (λ w, set_heap
                      (store (counts s)
                         (CRecord (<[reactionType := rr_count result]>
                                     (read_record (heap w) (counts s))))
                         (heap w)) w) >>
       let* h := read heap in
       let* u := allocate (CStrings (filter (λ r, r ≠ reactionType)
                                       (read_strings h (userReactions s)))) in
       update (set_state {| counts := counts s; userReactions := u;
                            status := status s; error := error s |}) >>
       notify copy throws >>
       ret (Finished RVoid)))
    store_error.

Definition call (c : Call) : R :=
  match c with
  | fetch_ => fetch
  | add_ reactionType => add reactionType
  | remove_ reactionType => remove reactionType
  end.
Definition resume (a : Await) : Outcome (resp a) → R :=
  match a with
  | AwFetch => fetch_resume
  | AwAdd reactionType => add_resume reactionType
  | AwRemove reactionType => remove_resume reactionType
  end.
End Methods.
End Reactions.

Module Comments.
Import CommentsController.
Section Methods.
Variable throws : nat → option JsValue.
Abbreviation R := (Run Fields CommentsState (Pending Await resp Ret)).

(** [fetch()], up to [await fetchComments({...})]. *)
Definition fetch_begin : Run Fields CommentsState Request :=
  let* s := read _state in
  update (set_state {| comments := comments s; status := Loading; error := None |}) >>
  notify copy throws >>
  let* f := read fields in
  ret (fetchComments_rq (config f) (pageId f)).

Definition fetch : R :=
  let* rq := fetch_begin in
  ret (Awaits AwFetch rq).

(** [fetch], after its [await]: it returns the array it stored. *)
Definition fetch_resume (o : Outcome (list Comment)) : Run Fields CommentsState loc :=
  try_catch
    (await o (λ result,
       let* c := allocate (CComments result) in
       update (set_state {| comments := c; status := Success; error := None |}) >>
       notify copy throws >>
       ret c))
    (λ e,
       let error := catch_error e in
       let* s := read _state in
       update (set_state {| comments := comments s; status := Error;
                            error := Some error |}) >>
       notify copy throws >>
       throw (VError error)).

(** The [catch] block of [post]. *)
Definition post_catch (e : JsValue) : R :=
  let error := catch_error e in
  let* s := read _state in
  update (set_state {| comments := comments s; status := status s;
                       error := Some error |}) >>
  notify copy throws >>
  throw (VError error).

Definition post (authorName content : string) (options : option PostOptions) : R :=
  let* f := read fields in
  ret (Awaits AwPost (postComment_rq (config f) (pageId f) authorName content
                        (options ≫= authorEmail) (options ≫= parentId))).

(** [post], after [await postComment]: [await this.fetch()].  The call
    [this.fetch()] runs up to the [await] inside [fetch]; an exception
    before that rejects the promise of [fetch], which [post] awaits. *)
Definition post_resume (o : Outcome Comment) : R :=
  try_catch
    (await o (λ comment,
       let* started := promise fetch_begin in
       match started with
       | Resolved rq => ret (Awaits (AwPostFetch comment) rq)
       | Rejected e => ret (Joins (AwPostJoin comment) (Rejected e))
       end))
    post_catch.

(** Inside [post], the [await] within [this.fetch()] settles: [fetch] runs
    to its end and settles the promise that [post] awaits. *)
Definition post_fetch_resume (comment : Comment) (o : Outcome (list Comment)) : R :=
  let* settled := promise (fetch_resume o) in
  ret (Joins (AwPostJoin comment) settled).

(** [post], after [await this.fetch()]. *)
Definition post_join (comment : Comment) (o : Outcome loc) : R :=
  try_catch
    (await o (λ _, ret (Finished (RComment comment))))
    post_catch.

Definition call (c : Call) : R :=
  match c with
  | fetch_ => fetch
  | post_ authorName content options => post authorName content options
  end.
Definition resume (a : Await) : Outcome (resp a) → R :=
  match a with
  | AwFetch => λ o, let* l := fetch_resume o in ret (Finished (RComments l))
  | AwPost => post_resume
  | AwPostFetch comment => post_fetch_resume comment
  | AwPostJoin comment => post_join comment
  end.
End Methods.
End Comments.

Module Poll.
Import PollController.
Section Methods.
Variable throws : nat → option JsValue.
Abbreviation R := (Run Fields PollState (Pending Await resp Ret)).

Definition fetch : R :=
  let* s := read _state in
  update (set_state {| poll := poll s; status := Loading; error := None |}) >>
  notify copy throws >>
  let* f := read fields in
  ret (Awaits AwFetch (fetchPoll_rq (config f) (slug f))).

Definition fetch_resume (o : Outcome PollData) : R :=
  try_catch
    (await o (λ result,
       let* p := allocating (decode_poll result) in
       update (set_state {| poll := Some p; status := Success; error := None |}) >>
       notify copy throws >>
       ret (Finished (RPoll p))))
    (λ e,
       let error := catch_error e in
       let* s := read _state in
       update (set_state {| poll := poll s; status := Error; error := Some error |}) >>
       notify copy throws >>
       throw (VError error)).

Definition vote (selectedOptions : list string) : R :=
  let* sel := allocate (CStrings selectedOptions) in
  let* f := read fields in
  ret (Awaits (AwVote sel) (votePoll_rq (config f) (slug f) selectedOptions)).

Definition vote_resume (selectedOptions : loc) (o : Outcome VotePollResponse) : R :=
  try_catch
    (await o (λ result,
       let* r := allocate (CRecord (vp_results result)) in
       let* s := read _state in
       let* h := read heap in
       match poll s with
       | Some p =>
           match read_poll h p with
           | Some old =>
               let* p' := allocate
                 (CPoll {| poll_id := poll_id old; question := question old;
                           options := options old; settings := settings old;
                           endsAt := endsAt old; isActive := isActive old;
                           results := r;
                           totalVotes := vp_totalVotes result;
                           userVotes := Some selectedOptions |}) in
               update (set_state {| poll := Some p'; status := status s;
                                    error := error s |})
           | None => ret ()
           end
       | None => ret ()
       end >>
       notify copy throws >>
       ret (Finished (RVote result))))
    (λ e,
       let error := catch_error e in
       let* s := read _state in
       update (set_state {| poll := poll s; status := status s; error := Some error |}) >>
       notify copy throws >>
       throw (VError error)).

Definition call (c : Call) : R :=
  match c with fetch_ => fetch | vote_ selectedOptions => vote selectedOptions end.
Definition resume (a : Await) : Outcome (resp a) → R :=
  match a with AwFetch => fetch_resume | AwVote sel => vote_resume sel end.
End Methods.
End Poll.

Module Announcements.
Import AnnouncementsController.
Section Methods.
Variable throws : nat → option JsValue.
Abbreviation R := (Run Fields AnnouncementsState (Pending Await resp Ret)).

Definition fetch : R :=
  let* s := read _state in
  update (set_state {| announcements := announcements s; dismissed := dismissed s;
                       status := Loading; error := None |}) >>
  notify copy throws >>
  let* f := read fields in
  ret (Awaits AwFetch (fetchAnnouncements_rq (config f))).

Definition fetch_resume (o : Outcome (list Announcement)) : R :=
  try_catch
    (await o (λ result,
       let* a := allocate (CAnnouncements result) in
       let* s := read _state in
       update (set_state {| announcements := a; dismissed := dismissed s;
                            status := Success; error := None |}) >>
       notify copy throws >>
       ret (Finished (RAnnouncements a))))
    (λ e,
       let error := catch_error e in
       let* s := read _state in
       update (set_state {| announcements := announcements s; dismissed := dismissed s;
                            status := Error; error := Some error |}) >>
       notify copy throws >>
       throw (VError error)).

Definition dismiss (announcementId : Z) : R :=
  let* f := read fields in
  ret (Awaits (AwDismiss announcementId) (dismissAnnouncement_rq (config f) announcementId)).

Definition dismiss_resume (announcementId : Z) (o : Outcome unit) : R :=
  try_catch
    (await o (λ _,
       let* s := read _state in
       update (λ w, set_heap
                      (store (dismissed s)
                         (CIdSet ({[announcementId]} ∪ read_idset (heap w) (dismissed s)))
                         (heap w)) w) >>
       notify copy throws >>
       ret (Finished RVoid)))
    (λ e,
       let error := catch_error e in
       let* s := read _state in
       update (set_state {| announcements := announcements s; dismissed := dismissed s;
                            status := status s; error := Some error |}) >>
       notify copy throws >>
       throw (VError error)).

Definition call (c : Call) : R :=
  match c with fetch_ => fetch | dismiss_ i => dismiss i end.
Definition resume (a : Await) : Outcome (resp a) → R :=
  match a with AwFetch => fetch_resume | AwDismiss i => dismiss_resume i end.
End Methods.
End Announcements.

Module ViewCounts.
Import ViewCountsController.
Section Methods.
Variable throws : nat → option JsValue.
Abbreviation R := (Run Fields ViewCountsState (Pending Await resp Ret)).

Definition fetch : R :=
  let* s := read _state in
  update (set_state {| pageId := pageId s; views := views s;
                       uniqueVisitors := uniqueVisitors s;
                       status := Loading; error := None |}) >>
  notify copy throws >>
  let* f := read fields in
  ret (Awaits AwFetch (getViewCounts_rq (config f) (this_pageId f))).

Definition fetch_resume (o : Outcome ViewCounts) : R :=
  try_catch
    (await o (λ counts,
       let* s := read _state in
       update (set_state {| pageId := pageId s; views := vc_views counts;
                            uniqueVisitors := vc_uniqueVisitors counts;
                            status := Success; error := None |}) >>
       notify copy throws >>
       ret (Finished (RCounts counts))))
    (λ e,
       let error := catch_error e in
       let* s := read _state in
       update (set_state {| pageId := pageId s; views := views s;
                            uniqueVisitors := uniqueVisitors s;
                            status := Error; error := Some error |}) >>
       notify copy throws >>
       throw (VError error)).

Definition record : R :=
  let* f := read fields in
  ret (Awaits AwRecord (recordView_rq (config f) (this_pageId f))).

Definition record_resume (o : Outcome RecordViewResponse) : R :=
  try_catch
    (await o (λ result,
       let* s := read _state in
       update (set_state {| pageId := pageId s; views := rv_views result;
                            uniqueVisitors := rv_uniqueVisitors result;
                            status := status s; error := error s |}) >>
       notify copy throws >>
       ret (Finished (RRecord result))))
    (λ e,
       let error := catch_error e in
       let* s := read _state in
       update (set_state {| pageId := pageId s; views := views s;
                            uniqueVisitors := uniqueVisitors s;
                            status := status s; error := Some error |}) >>
       notify copy throws >>
       throw (VError error)).

Definition call (c : Call) : R :=
  match c with fetch_ => fetch | record_ => record end.
Definition resume (a : Await) : Outcome (resp a) → R :=
  match a with AwFetch => fetch_resume | AwRecord => record_resume end.
End Methods.
End ViewCounts.

(** The nine controllers behind one interface: a method call and a
    continuation, each as one run that starts with no call made. *)
Abbreviation Step M :=
  (World (Fields M) (State M) * Log (State M)
   * Attempt (Pending (Awaiting M) (Response M) (Result M)))%type.

Definition invoke (k : Kind) (throws : nat → option JsValue)
  : Method (model k) → World (Fields (model k)) (State (model k)) → Step (model k) :=
  match k with
  | KSubscribe => λ m w, Subscribe.call throws m w []
  | KWaitlist => λ m w, Waitlist.call throws m w []
  | KForm => λ m w, Form.call throws m w []
  | KReactions => λ m w, Reactions.call throws m w []
  | KComments => λ m w, Comments.call throws m w []
  | KFeedback => λ m w, Feedback.call throws m w []
  | KPoll => λ m w, Poll.call throws m w []
  | KAnnouncements => λ m w, Announcements.call throws m w []
  | KViewCounts => λ m w, ViewCounts.call throws m w []
  end.

Definition resume_at (k : Kind) (throws : nat → option JsValue)
  : ∀ a : Awaiting (model k), Outcome (Response (model k) a) →
    World (Fields (model k)) (State (model k)) → Step (model k) :=
  match k with
  | KSubscribe => λ a o w, Subscribe.resume throws a o w []
  | KWaitlist => λ a o w, Waitlist.resume throws a o w []
  | KForm => λ a o w, Form.resume throws a o w []
  | KReactions => λ a o w, Reactions.resume throws a o w []
  | KComments => λ a o w, Comments.resume throws a o w []
  | KFeedback => λ a o w, Feedback.resume throws a o w []
  | KPoll => λ a o w, Poll.resume throws a o w []
  | KAnnouncements => λ a o w, Announcements.resume throws a o w []
  | KViewCounts => λ a o w, ViewCounts.resume throws a o w []
  end.

(** A result of the definitions for listeners that return, told in the
    terms used here: a thrown [Error] rejects the method's promise. *)
Definition of_next {A : Type} {T : A → Type} {R : Type} (n : Next A T R)
  : Attempt (Pending A T R) :=
  match n with
  | Done (Returned v) => Ok (Finished v)
  | Done (Threw error) => Throws (VError error)
  | Suspend a rq => Ok (Awaits a rq)
  | Continue a o => Ok (Joins a o)
  end.

(** The first [n] calls of listeners return. *)
Definition returning (throws : nat → option JsValue) (n : nat) : Prop :=
  ∀ i, i < n → throws i = None.

(** What a run that calls no listener may change: nothing but the heap,
    and there it may only place new objects. *)
Definition quiet {P S : Type} (w w' : World P S) : Prop :=
  fields w' = fields w ∧ _state w' = _state w ∧ listeners w' = listeners w
  ∧ ∃ new, heap w' = heap w ++ new.
End Throwing.

(** ** Sample runs with a listener that throws *)

(** The first call made to a listener throws the string ["boom"]; the
    calls after it return. *)
Definition first_throws : nat → option JsValue :=
  λ i, if i =? 0 then Some (VString "boom") else None.

(** A SubscribeController with the listeners 1 and 2, whose [submit] is
    awaiting the transport. *)
Definition two_listeners_submitting : SubscribeController.W :=
  let w := SubscribeController.new {| siteKey := "sk"; endpoint := None |} [] in
  let w := (subscribe SubscribeController.copy 1 w).1.1 in
  let w := (subscribe SubscribeController.copy 2 w).1.1 in
  (SubscribeController.submit "a@b.c" w).1.1.

(** * Properties *)

(** ** The heap *)

Lemma length_store (l : loc) (c : cell) (h : Heap) : length (store l c h) = length h.
Proof. apply length_insert. Qed.

Lemma lookup_store_other (l l' : loc) (c : cell) (h : Heap) :
  l ≠ l' → store l c h !! l' = h !! l'.
Proof. intros Hne. unfold store. by rewrite list_lookup_insert_ne. Qed.

Lemma lookup_store_same (l : loc) (c : cell) (h : Heap) :
  l < length h → store l c h !! l = Some c.
Proof. intros Hl. unfold store. by rewrite list_lookup_insert_eq. Qed.

(** Objects allocated later do not disturb earlier ones, and a new object is
    found where [alloc] put it. *)
Lemma lookup_old (h h' : Heap) (l : loc) : l < length h → (h ++ h') !! l = h !! l.
Proof. intros Hl. by rewrite lookup_app_l. Qed.

Lemma lookup_new (h h' : Heap) (c : cell) : (h ++ c :: h') !! length h = Some c.
Proof. rewrite lookup_app_r by lia. by rewrite Nat.sub_diag. Qed.

Ltac in_range :=
  repeat first [rewrite length_app | rewrite length_store]; simpl; lia.
Ltac reads :=
  unfold read_record, read_strings, read_idset, read_comments,
         read_announcements, read_poll.

Section Reads.
Variables (h h' : Heap) (l l' : loc) (c : cell).

Lemma read_record_old : l < length h → read_record (h ++ h') l = read_record h l.
Proof. intros. reads. by rewrite lookup_old. Qed.
Lemma read_record_new m : read_record (h ++ CRecord m :: h') (length h) = m.
Proof. reads. by rewrite lookup_new. Qed.
Lemma read_record_store : l ≠ l' → read_record (store l c h) l' = read_record h l'.
Proof. intros. reads. by rewrite lookup_store_other. Qed.

Lemma read_strings_old : l < length h → read_strings (h ++ h') l = read_strings h l.
Proof. intros. reads. by rewrite lookup_old. Qed.
Lemma read_strings_new x : read_strings (h ++ CStrings x :: h') (length h) = x.
Proof. reads. by rewrite lookup_new. Qed.
Lemma read_strings_store : l ≠ l' → read_strings (store l c h) l' = read_strings h l'.
Proof. intros. reads. by rewrite lookup_store_other. Qed.

Lemma read_idset_old : l < length h → read_idset (h ++ h') l = read_idset h l.
Proof. intros. reads. by rewrite lookup_old. Qed.
Lemma read_idset_new s : read_idset (h ++ CIdSet s :: h') (length h) = s.
Proof. reads. by rewrite lookup_new. Qed.
Lemma read_idset_store : l ≠ l' → read_idset (store l c h) l' = read_idset h l'.
Proof. intros. reads. by rewrite lookup_store_other. Qed.
Lemma read_idset_stored s : l < length h → read_idset (store l (CIdSet s) h) l = s.
Proof. intros. reads. by rewrite lookup_store_same. Qed.

Lemma read_comments_old : l < length h → read_comments (h ++ h') l = read_comments h l.
Proof. intros. reads. by rewrite lookup_old. Qed.
Lemma read_comments_new x : read_comments (h ++ CComments x :: h') (length h) = x.
Proof. reads. by rewrite lookup_new. Qed.
Lemma read_comments_store : l ≠ l' → read_comments (store l c h) l' = read_comments h l'.
Proof. intros. reads. by rewrite lookup_store_other. Qed.

Lemma read_announcements_old :
  l < length h → read_announcements (h ++ h') l = read_announcements h l.
Proof. intros. reads. by rewrite lookup_old. Qed.
Lemma read_announcements_new x :
  read_announcements (h ++ CAnnouncements x :: h') (length h) = x.
Proof. reads. by rewrite lookup_new. Qed.
Lemma read_announcements_store :
  l ≠ l' → read_announcements (store l c h) l' = read_announcements h l'.
Proof. intros. reads. by rewrite lookup_store_other. Qed.
End Reads.

#[local] Arguments store : simpl never.

Create Rewrite HintDb heap.
#[local] Hint Rewrite read_record_new read_strings_new read_idset_new
  read_comments_new read_announcements_new : heap.
#[local] Hint Rewrite read_record_old read_strings_old read_idset_old
  read_comments_old read_announcements_old using in_range : heap.
#[local] Hint Rewrite read_record_store read_strings_store read_idset_store
  read_comments_store read_announcements_store using in_range : heap.
#[local] Hint Rewrite read_idset_stored using in_range : heap.

(** ** The listener set *)

Lemma Set_add_elem (x : Listener) (s : list Listener) : x ∈ Set_add x s.
Proof.
  unfold Set_add. case_decide; [done|].
  apply elem_of_app. right. by apply list_elem_of_singleton.
Qed.

Lemma Set_delete_not_elem (x : Listener) (s : list Listener) : x ∉ (Set_delete x s).1.
Proof.
  unfold Set_delete; simpl. intros Hin.
  apply list_elem_of_filter in Hin. by destruct Hin.
Qed.

Lemma Set_delete_absent (x : Listener) (s : list Listener) :
  x ∉ s → Set_delete x s = (s, false).
Proof.
  intros Hx. unfold Set_delete. f_equal.
  - induction s as [|y s IH]; [done|].
    apply not_elem_of_cons in Hx as [Hne Hx].
    rewrite filter_cons_True by done. by rewrite IH.
  - by apply bool_decide_eq_false.
Qed.

(** ** The observable state cell *)

Section CellFacts.
Context {P S : Type}.
Variable copy : S → Heap → S * Heap.
Implicit Types w : World P S.

Lemma getState_frame w :
  let '(_, w') := getState copy w in
  fields w' = fields w ∧ _state w' = _state w ∧ listeners w' = listeners w.
Proof. unfold getState. by destruct (copy _ _). Qed.

Lemma notify_frame w :
  let '(w', log) := notify copy w in
  fields w' = fields w ∧ _state w' = _state w ∧ listeners w' = listeners w
  ∧ log = (λ l, (l, (getState copy w).1)) <$> listeners w.
Proof. unfold notify, getState. by destruct (copy _ _). Qed.

Lemma unsubscribe_twice fn w :
  unsubscribe fn (unsubscribe fn w).1 = ((unsubscribe fn w).1, false).
Proof.
  destruct w as [p s ls h]. unfold unsubscribe, set_listeners; simpl.
  pose proof (Set_delete_absent fn _ (Set_delete_not_elem fn ls)) as Hd.
  unfold Set_delete in Hd; simpl in Hd. injection Hd as H1 H2.
  by rewrite H1, H2.
Qed.

Lemma unsubscribe_absent fn w : fn ∉ listeners w → unsubscribe fn w = (w, false).
Proof.
  intros Hfn. destruct w as [p s ls h]. unfold unsubscribe, set_listeners; simpl in *.
  pose proof (Set_delete_absent fn ls Hfn) as Hd.
  unfold Set_delete in Hd. injection Hd as H1 H2. by rewrite H1, H2.
Qed.
End CellFacts.

(** ** Facts shared by all methods *)

(** Case analysis on the branches inside the continuations. *)
Ltac branches :=
  repeat match goal with
    | |- context [bool_decide ?P] => destruct (bool_decide P); cbn
    | |- context [match PollController.poll ?s with _ => _ end] =>
        destruct (PollController.poll s); cbn
    | |- context [match read_poll ?h ?p with _ => _ end] =>
        destruct (read_poll h p); cbn
    | |- context [match pd_userVotes ?d with _ => _ end] =>
        destruct (pd_userVotes d); cbn
    end.

Ltac only_listeners :=
  let entry := fresh "entry" in
  let Hin := fresh "Hin" in
  let l := fresh "l" in
  intros entry Hin;
  repeat (apply elem_of_app in Hin as [Hin|Hin]);
  first [ by apply elem_of_nil in Hin
        | by apply list_elem_of_fmap in Hin as (l & -> & Hin) ].

(** A method call leaves the listener set alone and calls registered
    listeners only. *)
Lemma invoke_listeners (k : Kind) (m : Method (model k)) (w : World _ _) :
  let '(w', log, _) := invoke (model k) m w in
  listeners w' = listeners w ∧ ∀ entry, entry ∈ log → entry.1 ∈ listeners w.
Proof. destruct k, m; cbn; (split; [reflexivity|only_listeners]). Qed.

(** So does every continuation, however the awaited request settles. *)
Lemma resume_listeners (k : Kind) (a : Awaiting (model k))
    (o : Outcome (Response (model k) a)) (w : World _ _) :
  let '(w', log, _) := resume_at (model k) a o w in
  listeners w' = listeners w ∧ ∀ entry, entry ∈ log → entry.1 ∈ listeners w.
Proof.
  destruct k, a, o; cbn; branches; (split; [reflexivity|only_listeners]).
Qed.

(** ** Scenarios *)

(** Two [add("like")] calls in flight at once: the counts end with the
    response that resolves last, and ["like"] is in [userReactions] once. *)
Example two_adds_interleaved :
  let w := ReactionsController.new {| siteKey := "sk"; endpoint := None |} "page" [] in
  let w := (ReactionsController.add (Some "like") w).1.1 in
  let w := (ReactionsController.add None w).1.1 in
  let w := (ReactionsController.add_resume "like"
              (Resolved {| rr_reactionType := "like"; rr_count := 5 |}) w).1.1 in
  let w := (ReactionsController.add_resume "like"
              (Resolved {| rr_reactionType := "like"; rr_count := 6 |}) w).1.1 in
  ReactionsController.view (heap w) (_state w)
  = ({["like" := 6%Z]}, ["like"], Idle, None).
Proof. reflexivity. Qed.

(** [remove] after [add] empties [userReactions] and keeps the last count. *)
Example add_then_remove :
  let w := ReactionsController.new {| siteKey := "sk"; endpoint := None |} "page" [] in
  let w := (ReactionsController.add_resume "like"
              (Resolved {| rr_reactionType := "like"; rr_count := 1 |}) w).1.1 in
  let w := (ReactionsController.remove_resume "like"
              (Resolved {| rr_reactionType := "like"; rr_count := 0 |}) w).1.1 in
  ReactionsController.view (heap w) (_state w)
  = ({["like" := 0%Z]}, [], Idle, None).
Proof. reflexivity. Qed.

(** A listener subscribed before [submit] sees the replay, then [Loading],
    then the outcome. *)
Example subscribe_then_submit :
  let w := SubscribeController.new {| siteKey := "sk"; endpoint := None |} [] in
  let '(w, log0, _) := subscribe SubscribeController.copy 1 w in
  let '(w, log1, _) := SubscribeController.submit "a@b.c" w in
  let '(w, log2, n) := SubscribeController.submit_resume (Rejected VNull) w in
  SubscribeController.status <$> (log0 ++ log1 ++ log2).*2 = [Idle; Loading; Error]
  ∧ n = Done (Threw (new_Error "null")).
Proof. split; reflexivity. Qed.

(** [vote] on a loaded poll stores the caller's options as [userVotes]. *)
Example vote_on_loaded_poll :
  let d := {| pd_id := 1; pd_question := "q"; pd_options := [];
              pd_settings := {| multiSelect := false; showResults := SrAlways |};
              pd_endsAt := None; pd_isActive := true;
              pd_results := ∅; pd_totalVotes := 0; pd_userVotes := None |} in
  let w := PollController.new {| siteKey := "sk"; endpoint := None |} "editor" [] in
  let w := (PollController.fetch_resume (Resolved d) w).1.1 in
  let voted0 := PollController.hasVoted w in
  let '(w, _, n) := PollController.vote ["a"] w in
  let w := match n with
           | Suspend (PollController.AwVote sel) _ =>
               (PollController.vote_resume sel
                  (Resolved {| vp_success := true; vp_results := {["a" := 1%Z]};
                               vp_totalVotes := 1 |}) w).1.1
           | _ => w
           end in
  voted0 = false
  ∧ PollController.hasVoted w = true
  ∧ (pd_userVotes <$> (PollController.view (heap w) (_state w)).1.1) = Some (Some ["a"])
  ∧ (pd_totalVotes <$> (PollController.view (heap w) (_state w)).1.1) = Some 1%Z.
Proof. repeat split; reflexivity. Qed.

(** ** The claims *)

(** C9 (idempotent unsubscribe).  For every controller and listener [fn],
    calling the function returned by [subscribe(fn)] a second time changes
    nothing: the instance is the one left by the first call and [delete]
    reports [false].  It is a total function, so nothing is thrown.  After
    it, [fn] is not registered, and neither a [notify], nor a method call,
    nor a continuation calls [fn].  On an instance where [fn] is not
    registered the function changes nothing. *)
Theorem unsubscribe_idempotent (k : Kind) (w : World _ _) (fn : Listener) :
  let M := model k in
  let w1 := (unsubscribe fn w).1 in
  unsubscribe fn w1 = (w1, false)
  ∧ (fn ∉ listeners w1)
  ∧ (let '(_, log) := notify (snapshot M) w1 in fn ∉ log.*1)
  ∧ (∀ m, let '(w', log, _) := invoke M m w1 in
          (fn ∉ log.*1) ∧ (fn ∉ listeners w'))
  ∧ (∀ a o, let '(w', log, _) := resume_at M a o w1 in
            (fn ∉ log.*1) ∧ (fn ∉ listeners w'))
  ∧ (fn ∉ listeners w → unsubscribe fn w = (w, false)).
Proof.
  intros M w1.
  assert (Hout : fn ∉ listeners w1) by apply Set_delete_not_elem.
  split; [apply unsubscribe_twice|].
  split; [exact Hout|].
  split; [|split; [|split]].
  - pose proof (notify_frame (snapshot M) w1) as Hn.
    destruct (notify (snapshot M) w1) as [w' log]; simpl.
    destruct Hn as (_ & _ & _ & ->).
    rewrite <- list_fmap_compose. simpl. by rewrite list_fmap_id.
  - intros m. pose proof (invoke_listeners k m w1) as Hm. fold M in Hm.
    destruct (invoke M m w1) as [[w' log] n]; simpl.
    destruct Hm as [-> Hlog]. split; [|exact Hout].
    intros Hfn. apply list_elem_of_fmap in Hfn as (entry & -> & Hin).
    by apply Hout, Hlog.
  - intros a o. pose proof (resume_listeners k a o w1) as Hr. fold M in Hr.
    destruct (resume_at M a o w1) as [[w' log] n]; simpl.
    destruct Hr as [-> Hlog]. split; [|exact Hout].
    intros Hfn. apply list_elem_of_fmap in Hfn as (entry & -> & Hin).
    by apply Hout, Hlog.
  - intros Hfn. by apply unsubscribe_absent.
Qed.

Lemma unsubscribe_idempotent_witness :
  let w := SubscribeController.new {| siteKey := "sk"; endpoint := None |} [] in
  (7 ∉ listeners w) ∧ unsubscribe 7 w = (w, false).
Proof.
  assert (H : 7 ∉ listeners
                (SubscribeController.new {| siteKey := "sk"; endpoint := None |} [])).
  { apply not_elem_of_nil. }
  split; [exact H|].
  exact (proj2 (proj2 (proj2 (proj2 (proj2
    (unsubscribe_idempotent KSubscribe
       (SubscribeController.new {| siteKey := "sk"; endpoint := None |} []) 7))))) H).
Defined.

(** *** C1: status and error *)

Lemma construct_status_invariant (k : Kind) (args : Args (model k)) (h : Heap) :
  status_invariant k (_state (construct (model k) args h)).
Proof.
  destruct k; cbn in *;
    repeat match goal with x : (_ * _)%type |- _ => destruct x end;
    by split.
Qed.

Lemma invoke_status_invariant (k : Kind) (m : Method (model k)) (w : World _ _) :
  status_invariant k (_state w) →
  status_invariant k (_state (invoke (model k) m w).1.1).
Proof.
  unfold status_invariant.
  destruct k, m; cbn; intros [H1 H2]; split; try done.
Qed.

Lemma resume_status_invariant (k : Kind) (a : Awaiting (model k))
    (o : Outcome (Response (model k) a)) (w : World _ _) :
  status_invariant k (_state w) →
  status_invariant k (_state (resume_at (model k) a o w).1.1).
Proof.
  unfold status_invariant.
  destruct k, a, o; cbn; branches; intros [H1 H2]; split; try done.
Qed.

Lemma reachable_status_invariant (k : Kind) (sys : Sys (model k)) :
  reachable (model k) sys → status_invariant k (_state (instance sys)).
Proof.
  induction 1 as [args h|s e s' Hs IH Hstep].
  - apply construct_status_invariant.
  - destruct Hstep as [m w p q w' log n Hm|a o w p1 p2 q w' log n Hr
                      |a o w p q w' log n Hr|w p q|l w p q|l w p q];
      simpl in *.
    + pose proof (invoke_status_invariant k m w IH) as Hi. by rewrite Hm in Hi.
    + pose proof (resume_status_invariant k a o w IH) as Hi. by rewrite Hr in Hi.
    + pose proof (resume_status_invariant k a o w IH) as Hi. by rewrite Hr in Hi.
    + pose proof (getState_frame (snapshot (model k)) w) as Hg.
      destruct (getState _ w) as [snap w1]. destruct Hg as (_ & Hst & _).
      simpl. by rewrite Hst.
    + unfold subscribe.
      pose proof (getState_frame (snapshot (model k))
                    (set_listeners (Set_add l (listeners w)) w)) as Hg.
      destruct (getState _ _) as [snap w1]. destruct Hg as (_ & Hst & _).
      simpl. by rewrite Hst.
    + exact IH.
Qed.

(** C1, as the code has it.  In every reachable state of every controller,
    status [Error] comes with a non-null [error].  For the Subscribe,
    Waitlist, Form and Feedback controllers the converse holds too: [error]
    is non-null if and only if the status is [Error]. *)
Theorem error_status_invariant (k : Kind) (sys : Sys (model k)) :
  reachable (model k) sys →
  let s := _state (instance sys) in
  (status_of (model k) s = Error → error_of (model k) s ≠ None)
  ∧ (replaces_whole_state k = true →
     (error_of (model k) s ≠ None ↔ status_of (model k) s = Error)).
Proof.
  intros Hr s. destruct (reachable_status_invariant k sys Hr) as [H1 H2].
  split; [exact H1|]. intros Hk. split; [by apply H2|exact H1].
Qed.

Lemma failed_submit_reachable : reachable (model KSubscribe) failed_submit.
Proof.
  eapply reach_step.
  - eapply reach_step.
    + exact (reach_new (model KSubscribe) {| siteKey := "sk"; endpoint := None |} []).
    + exact (step_call (model KSubscribe) (SubscribeController.submit_ "a@b.c")
               _ [] [] _ _ _ eq_refl).
  - exact (step_settle (model KSubscribe) SubscribeController.AwSubmit
             (Rejected (VString "offline")) _ [] [] [] _ _ _ eq_refl).
Defined.

Lemma error_status_invariant_witness :
  let s := _state (instance failed_submit) in
  SubscribeController.status s = Error
  ∧ SubscribeController.error s ≠ None.
Proof.
  split; [reflexivity|].
  exact (proj1 (error_status_invariant KSubscribe failed_submit failed_submit_reachable)
               eq_refl).
Defined.

Lemma failed_add_reachable : reachable (model KReactions) failed_add.
Proof.
  eapply reach_step.
  - eapply reach_step.
    + exact (reach_new (model KReactions)
               ({| siteKey := "sk"; endpoint := None |}, "page") []).
    + exact (step_call (model KReactions) (ReactionsController.add_ None)
               _ [] [] _ _ _ eq_refl).
  - exact (step_settle (model KReactions) (ReactionsController.AwAdd "like")
             (Rejected (VString "offline")) _ [] [] [] _ _ _ eq_refl).
Defined.

(** C1 as stated fails: after [new ReactionsController(...)], [add()] and a
    rejection of [addReaction] with the string ["offline"], the state has
    the error [Error("offline")] and the status is still [Idle]. *)
Lemma error_without_error_status :
  reachable (model KReactions) failed_add
  ∧ ReactionsController.error (_state (instance failed_add)) = Some (new_Error "offline")
  ∧ ReactionsController.status (_state (instance failed_add)) = Idle
  ∧ ¬ (∀ (k : Kind) (sys : Sys (model k)),
         reachable (model k) sys →
         error_of (model k) (_state (instance sys)) ≠ None
         ↔ status_of (model k) (_state (instance sys)) = Error).
Proof.
  split; [exact failed_add_reachable|].
  split; [reflexivity|]. split; [reflexivity|].
  intros Hclaim.
  destruct (Hclaim KReactions failed_add failed_add_reachable) as [Hto _].
  assert (Herr : ReactionsController.error (_state (instance failed_add)) ≠ None) by done.
  specialize (Hto Herr). discriminate Hto.
Qed.

(** *** C2: what [getState] copies *)

Ltac pick_container H :=
  apply elem_of_cons in H as [->|H];
  [|try (apply elem_of_cons in H as [->|H]); try by apply elem_of_nil in H].

(** C2, as the code has it.  Take any controller whose state holds valid
    references, a snapshot [snap] returned by [getState()], and any
    container held in a field of [snap] (the counts mapping and the
    userReactions list of Reactions, the comments list of Comments, the
    announcements list and the dismissed set of Announcements).  The
    snapshot shows the internal state; and after that container is
    overwritten with anything, [_state] is unchanged and the next
    [getState()] shows the internal state as it was. *)
Theorem getState_copies_own_containers (k : Kind)
    (w : World (Fields (model k)) (State (model k))) :
  let M := model k in
  valid M (heap w) (_state w) →
  let snap := (getState (snapshot M) w).1 in
  let w1 := (getState (snapshot M) w).2 in
  view M (heap w1) snap = view M (heap w) (_state w)
  ∧ ∀ l c, l ∈ containers M snap →
      let w2 := mutate l c w1 in
      let snap' := (getState (snapshot M) w2).1 in
      let w3 := (getState (snapshot M) w2).2 in
      _state w3 = _state w
      ∧ view M (heap w3) snap' = view M (heap w) (_state w)
      ∧ view M (heap w3) (_state w3) = view M (heap w) (_state w).
Proof.
  destruct k; cbn; intros Hv;
    try (split; [reflexivity|]; intros l c Hl; by apply elem_of_nil in Hl).
  - (* Reactions *)
    destruct w as [p [cs us st er] ls h], Hv as [Hc Hu]; cbn in *.
    unfold ReactionsController.view; cbn. split.
    + by autorewrite with heap.
    + intros l c Hl. pick_container Hl; cbn; by autorewrite with heap.
  - (* Comments *)
    destruct w as [p [cs st er] ls h]; cbn in *.
    unfold CommentsController.view, CommentsController.valid in *; cbn in *. split.
    + by autorewrite with heap.
    + intros l c Hl. pick_container Hl; cbn; by autorewrite with heap.
  - (* Announcements *)
    destruct w as [p [an ds st er] ls h], Hv as [Ha Hd]; cbn in *.
    unfold AnnouncementsController.view; cbn. split.
    + by autorewrite with heap.
    + intros l c Hl. pick_container Hl; cbn; by autorewrite with heap.
Qed.

(** References stay valid along every run. *)
Ltac valid_step :=
  cbn; unfold ReactionsController.valid, CommentsController.valid,
         AnnouncementsController.valid; cbn;
  intros; repeat split; try done; in_range.

Lemma construct_valid (k : Kind) (args : Args (model k)) (h : Heap) :
  let w := construct (model k) args h in
  valid (model k) (heap w) (_state w).
Proof.
  destruct k; cbn in *;
    repeat match goal with x : (_ * _)%type |- _ => destruct x end;
    valid_step.
Qed.

Lemma getState_valid (k : Kind) (w : World (Fields (model k)) (State (model k))) :
  valid (model k) (heap w) (_state w) →
  let w' := (getState (snapshot (model k)) w).2 in
  valid (model k) (heap w') (_state w').
Proof. destruct k; valid_step. Qed.

Lemma invoke_valid (k : Kind) (m : Method (model k)) (w : World _ _) :
  valid (model k) (heap w) (_state w) →
  let w' := (invoke (model k) m w).1.1 in
  valid (model k) (heap w') (_state w').
Proof. destruct k, m; valid_step. Qed.

Lemma resume_valid (k : Kind) (a : Awaiting (model k))
    (o : Outcome (Response (model k) a)) (w : World _ _) :
  valid (model k) (heap w) (_state w) →
  let w' := (resume_at (model k) a o w).1.1 in
  valid (model k) (heap w') (_state w').
Proof. destruct k, a, o; cbn; branches; valid_step. Qed.

Lemma reachable_valid (k : Kind) (sys : Sys (model k)) :
  reachable (model k) sys →
  valid (model k) (heap (instance sys)) (_state (instance sys)).
Proof.
  induction 1 as [args h|s e s' Hs IH Hstep].
  - apply construct_valid.
  - destruct Hstep as [m w p q w' log n Hm|a o w p1 p2 q w' log n Hr
                      |a o w p q w' log n Hr|w p q|l w p q|l w p q];
      simpl in *.
    + pose proof (invoke_valid k m w IH) as Hi. by rewrite Hm in Hi.
    + pose proof (resume_valid k a o w IH) as Hi. by rewrite Hr in Hi.
    + pose proof (resume_valid k a o w IH) as Hi. by rewrite Hr in Hi.
    + by apply getState_valid.
    + pose proof (getState_valid k (set_listeners (Set_add l (listeners w)) w) IH) as Hg.
      unfold subscribe. simpl in Hg.
      by destruct (getState _ (set_listeners _ w)).
    + exact IH.
Qed.

Lemma getState_copies_own_containers_witness :
  let w := ReactionsController.new {| siteKey := "sk"; endpoint := None |} "page" [] in
  let snap := (getState ReactionsController.copy w).1 in
  let w1 := (getState ReactionsController.copy w).2 in
  ReactionsController.valid (heap w) (_state w)
  ∧ ReactionsController.counts snap = 2
  ∧ ReactionsController.view
      (heap (getState ReactionsController.copy (mutate 2 (CRecord {["like" := 9%Z]}) w1)).2)
      (getState ReactionsController.copy (mutate 2 (CRecord {["like" := 9%Z]}) w1)).1
    = ReactionsController.view (heap w) (_state w).
Proof.
  assert (Hv : ReactionsController.valid
                 (heap (ReactionsController.new {| siteKey := "sk"; endpoint := None |}
                          "page" []))
                 (_state (ReactionsController.new {| siteKey := "sk"; endpoint := None |}
                            "page" []))).
  { split; cbn; lia. }
  split; [exact Hv|]. split; [reflexivity|].
  refine (proj1 (proj2 (proj2 (getState_copies_own_containers KReactions
            (ReactionsController.new {| siteKey := "sk"; endpoint := None |} "page" [])
            Hv) 2 (CRecord {["like" := 9%Z]}) _))).
  cbn. apply elem_of_cons. by left.
Defined.

Lemma poll_loaded_reachable : reachable (model KPoll) poll_loaded.
Proof.
  eapply reach_step.
  - eapply reach_step.
    + exact (reach_new (model KPoll)
               ({| siteKey := "sk"; endpoint := None |}, "editor") []).
    + exact (step_call (model KPoll) PollController.fetch_ _ [] [] _ _ _ eq_refl).
  - exact (step_settle (model KPoll) PollController.AwFetch (Resolved a_poll)
             _ [] [] [] _ _ _ eq_refl).
Defined.

(** C2 as stated fails for PollController, whose [getState] returns
    [{ ...this._state }]: the snapshot's [poll] is the internal poll object.
    After [fetch] has loaded [a_poll], the [userVotes] list inside a
    snapshot is object 1; pushing ["b"] onto it through the snapshot makes
    the next [getState()] show [userVotes = ["a"; "b"]]. *)
Lemma poll_snapshot_shares_containers :
  let w := instance poll_loaded in
  let snap := (getState PollController.copy w).1 in
  let w1 := (getState PollController.copy w).2 in
  let w2 := mutate 1 (CStrings ["a"; "b"]) w1 in
  let snap' := (getState PollController.copy w2).1 in
  let w3 := (getState PollController.copy w2).2 in
  reachable (model KPoll) poll_loaded
  ∧ 1 ∈ PollController.poll_containers (heap w1) snap
  ∧ (PollController.view (heap w) (_state w)).1.1 = Some a_poll
  ∧ pd_userVotes <$> (PollController.view (heap w3) snap').1.1 = Some (Some ["a"; "b"])
  ∧ ¬ (∀ (k : Kind) (sys : Sys (model k)) (l : loc) (c : cell),
         let M := model k in
         let w := instance sys in
         let snap := (getState (snapshot M) w).1 in
         let w1 := (getState (snapshot M) w).2 in
         let w2 := mutate l c w1 in
         let snap' := (getState (snapshot M) w2).1 in
         let w3 := (getState (snapshot M) w2).2 in
         reachable M sys →
         l ∈ nested_containers M (heap w1) snap →
         view M (heap w3) snap' = view M (heap w) (_state w)).
Proof.
  split; [exact poll_loaded_reachable|].
  split; [vm_compute; apply elem_of_cons; right; apply elem_of_cons; by left|].
  split; [reflexivity|]. split; [reflexivity|].
  intros Hclaim.
  specialize (Hclaim KPoll poll_loaded 1 (CStrings ["a"; "b"]) poll_loaded_reachable).
  cbn in Hclaim.
  assert (Hin : 1 ∈ [0; 1]) by (apply elem_of_cons; right; apply elem_of_cons; by left).
  specialize (Hclaim Hin).
  apply (f_equal (λ v, pd_userVotes <$> v.1.1)) in Hclaim.
  vm_compute in Hclaim. discriminate Hclaim.
Qed.

(** *** C5: AnnouncementsController.dismiss *)

Section Dismiss.
Import AnnouncementsController.

(** C5.  Take an AnnouncementsController with valid references, an id
    that is not in the dismissed set, and an announcement [a] of the list
    with that id.  [dismiss(id)] changes nothing before the remote call
    settles.  If the call is rejected, the error is thrown, the dismissed
    set is what it was, the id is still absent from it and
    [getVisibleAnnouncements()] still contains [a].  If the call
    succeeds, the id is in the dismissed set and [a] is no longer
    visible. *)
Theorem dismiss_after_remote_success (w : W) (announcementId : Z)
    (a : Announcement) (e : JsValue) :
  valid (heap w) (_state w) →
  announcementId ∉ dismissed_ids w →
  a ∈ announcement_list w →
  ann_id a = announcementId →
  dismiss announcementId w
    = (w, [], Suspend (AwDismiss announcementId)
                (dismissAnnouncement_rq (config (fields w)) announcementId))
  ∧ (let '(w', _, n) := dismiss_resume announcementId (Rejected e) w in
     n = Done (Threw (catch_error e))
     ∧ dismissed_ids w' = dismissed_ids w
     ∧ (announcementId ∉ dismissed_ids w')
     ∧ getVisibleAnnouncements w' = getVisibleAnnouncements w
     ∧ a ∈ getVisibleAnnouncements w')
  ∧ (let '(w', _, n) := dismiss_resume announcementId (Resolved ()) w in
     n = Done (Returned RVoid)
     ∧ dismissed_ids w' = {[announcementId]} ∪ dismissed_ids w
     ∧ announcementId ∈ dismissed_ids w'
     ∧ (a ∉ getVisibleAnnouncements w')).
Proof.
  intros [Ha Hd] Hid Hin Hann.
  destruct w as [p [an ds st er] ls h].
  unfold dismissed_ids, announcement_list, getVisibleAnnouncements in *; cbn in *.
  split; [reflexivity|]. split.
  - split; [reflexivity|]. autorewrite with heap.
    split; [reflexivity|]. split; [exact Hid|]. split; [reflexivity|].
    apply list_elem_of_filter. split; [by rewrite Hann|exact Hin].
  - split; [reflexivity|]. autorewrite with heap.
    split; [reflexivity|]. split; [set_solver|].
    intros Hvis. apply list_elem_of_filter in Hvis as [Hnot _].
    apply Hnot. rewrite Hann. set_solver.
Qed.

Lemma dismiss_after_remote_success_witness :
  let w := announcements_loaded in
  let a := {| ann_id := 42%Z; ann_content := "Maintenance tonight";
              announcementType := AtWarning; linkUrl := None; linkText := None;
              isDismissible := true |} in
  let w' := (dismiss_resume 42%Z (Rejected (VString "offline")) w).1.1 in
  (42%Z ∉ dismissed_ids w')
  ∧ a ∈ getVisibleAnnouncements w'
  ∧ error (_state w') = Some (new_Error "offline").
Proof.
  pose proof (dismiss_after_remote_success announcements_loaded 42%Z
    {| ann_id := 42%Z; ann_content := "Maintenance tonight";
       announcementType := AtWarning; linkUrl := None; linkText := None;
       isDismissible := true |}
    (VString "offline")) as H.
  destruct H as (_ & (_ & _ & Hid & _ & Hvis) & _).
  - split; cbn; lia.
  - vm_compute. set_solver.
  - apply elem_of_cons. by left.
  - reflexivity.
  - split; [exact Hid|]. split; [exact Hvis|reflexivity].
Defined.
End Dismiss.

(** *** C6: PollController.vote with no poll loaded *)

Section Vote.
Import PollController.


End Vote.

(** *** C7: ViewCountsController.record *)

Section Record.
Import ViewCountsController.

(** C7.  [record()] changes nothing before the remote call settles: no
    [Loading], no notification.  However the call settles, the status
    afterwards is the status before.  On success the new state is the old
    one with [views] and [uniqueVisitors] taken from the response, and the
    response is returned. *)
Theorem record_keeps_status (w : W) :
  record w = (w, [], Suspend AwRecord
                       (recordView_rq (config (fields w)) (this_pageId (fields w))))
  ∧ (∀ o, let '(w', _, _) := record_resume o w in
          status (_state w') = status (_state w))
  ∧ (∀ result, let '(w', _, n) := record_resume (Resolved result) w in
       n = Done (Returned (RRecord result))
       ∧ _state w' = {| pageId := pageId (_state w);
                        views := rv_views result;
                        uniqueVisitors := rv_uniqueVisitors result;
                        status := status (_state w);
                        error := error (_state w) |}).
Proof.
  split; [reflexivity|]. split.
  - by intros [result|e].
  - by intros result.
Qed.
End Record.

(** *** C8: CommentsController.post *)

Section Post.
Import CommentsController.

(** C8.  [post(...)] first awaits [postComment] and changes nothing.  When
    the write succeeds with [comment], the continuation enters [fetch()]:
    it sets [Loading], keeps the reference to the comment list it had,
    changes no existing object, and is suspended at exactly one
    [fetchComments] request.  When that request resolves with [result],
    [fetch] stores [result] as the comment list of the state, with status
    [Success] and no error, and hands the stored list to [post]; [post]
    then returns [comment] without touching the state or issuing another
    request. *)
Theorem post_refetches (w w1 w2 w3 : W) (authorName content : string)
    (options : option PostOptions) (comment : Comment) (result : list Comment) :
  post authorName content options w
    = (w, [], Suspend AwPost
                (postComment_rq (config (fields w)) (pageId (fields w))
                   authorName content (options ≫= authorEmail) (options ≫= parentId)))
  ∧ (let '(w', _, n) := post_resume (Resolved comment) w1 in
     n = Suspend (AwPostFetch comment)
           (fetchComments_rq (config (fields w1)) (pageId (fields w1)))
     ∧ comments (_state w') = comments (_state w1)
     ∧ status (_state w') = Loading
     ∧ ∃ copies, heap w' = heap w1 ++ copies)
  ∧ (let '(w', _, n) := post_fetch_resume comment (Resolved result) w2 in
     n = Continue (AwPostJoin comment) (Resolved (comments (_state w')))
     ∧ read_comments (heap w') (comments (_state w')) = result
     ∧ status (_state w') = Success
     ∧ error (_state w') = None)
  ∧ (∀ l, post_join comment (Resolved l) w3
          = (w3, [], Done (Returned (RComment comment)))).
Proof.
  split; [reflexivity|]. split; [|split]; cbn.
  - repeat split. by eexists.
  - repeat split. by autorewrite with heap.
  - done.
Qed.
End Post.

(** *** C10: a stale error survives later successes *)

(** C10.  The success paths of [ReactionsController.add] and [remove],
    [PollController.vote], [AnnouncementsController.dismiss] and
    [ViewCountsController.record] leave [error] and [status] exactly as they
    were: an error stored by an earlier failure stays in the state. *)
Theorem success_keeps_stale_error :
  (∀ (w : ReactionsController.W) reactionType result,
     let '(w', _, _) := ReactionsController.add_resume reactionType (Resolved result) w in
     ReactionsController.error (_state w') = ReactionsController.error (_state w)
     ∧ ReactionsController.status (_state w') = ReactionsController.status (_state w))
  ∧ (∀ (w : ReactionsController.W) reactionType result,
     let '(w', _, _) := ReactionsController.remove_resume reactionType (Resolved result) w in
     ReactionsController.error (_state w') = ReactionsController.error (_state w)
     ∧ ReactionsController.status (_state w') = ReactionsController.status (_state w))
  ∧ (∀ (w : PollController.W) selectedOptions result,
     let '(w', _, _) := PollController.vote_resume selectedOptions (Resolved result) w in
     PollController.error (_state w') = PollController.error (_state w)
     ∧ PollController.status (_state w') = PollController.status (_state w))
  ∧ (∀ (w : AnnouncementsController.W) announcementId,
     let '(w', _, _) :=
       AnnouncementsController.dismiss_resume announcementId (Resolved ()) w in
     AnnouncementsController.error (_state w') = AnnouncementsController.error (_state w)
     ∧ AnnouncementsController.status (_state w')
       = AnnouncementsController.status (_state w))
  ∧ (∀ (w : ViewCountsController.W) result,
     let '(w', _, _) := ViewCountsController.record_resume (Resolved result) w in
     ViewCountsController.error (_state w') = ViewCountsController.error (_state w)
     ∧ ViewCountsController.status (_state w') = ViewCountsController.status (_state w)).
Proof.
  repeat split; cbn; branches; done.
Qed.

(** * Listeners that throw *)

Section RunFacts.
Context {P St : Type}.
Variable copy : St → Heap → St * Heap.
Variable throws : nat → option JsValue.
Implicit Types w : World P St.

(** The loop of [notify] while the listeners return. *)
Lemma for_each_returns ls state w log :
  (∀ i, i < length ls → throws (length log + i) = None) →
  Throwing.for_each throws ls state w log
  = (w, log ++ ((λ l, (l, state)) <$> ls), Ok ()).
Proof.
  revert log. induction ls as [|l ls IH]; intros log H; cbn.
  - by rewrite app_nil_r.
  - unfold Throwing.bind, Throwing.call_listener.
    specialize (H 0 ltac:(cbn; lia)) as H0. rewrite Nat.add_0_r in H0. rewrite H0.
    rewrite IH.
    + by rewrite <- app_assoc.
    + intros i Hi. rewrite length_app. cbn.
      replace (length log + 1 + i) with (length log + S i) by lia.
      apply H. cbn. lia.
Qed.

(** The loop stops at the first listener that throws. *)
Lemma for_each_throws ls state w log i e :
  i < length ls →
  throws (length log + i) = Some e →
  (∀ j, j < i → throws (length log + j) = None) →
  Throwing.for_each throws ls state w log
  = (w, log ++ ((λ l, (l, state)) <$> take (S i) ls), Throws e).
Proof.
  revert log i. induction ls as [|l ls IH]; intros log i Hi He Hbefore; cbn in Hi.
  - lia.
  - cbn. unfold Throwing.bind, Throwing.call_listener.
    destruct i as [|i].
    + rewrite Nat.add_0_r in He. rewrite He. by rewrite take_0.
    + specialize (Hbefore 0 ltac:(lia)) as H0. rewrite Nat.add_0_r in H0. rewrite H0.
      rewrite (IH (log ++ [(l, state)]) i).
      * by rewrite <- app_assoc.
      * lia.
      * rewrite length_app. cbn.
        by replace (length log + 1 + i) with (length log + S i) by lia.
      * intros j Hj. rewrite length_app. cbn.
        replace (length log + 1 + j) with (length log + S j) by lia.
        apply Hbefore. lia.
Qed.

Lemma notify_returns w log :
  (∀ i, i < length (listeners w) → throws (length log + i) = None) →
  Throwing.notify copy throws w log
  = ((notify copy w).1, log ++ (notify copy w).2, Ok ()).
Proof.
  intros H. unfold Throwing.notify, Throwing.bind, Throwing.get_state, Throwing.read,
    notify, getState.
  destruct (copy (_state w) (heap w)) as [state h]. cbn.
  by rewrite for_each_returns.
Qed.

Lemma notify_throws w log i e :
  i < length (listeners w) →
  throws (length log + i) = Some e →
  (∀ j, j < i → throws (length log + j) = None) →
  Throwing.notify copy throws w log
  = ((notify copy w).1, log ++ take (S i) (notify copy w).2, Throws e).
Proof.
  intros Hi He Hbefore.
  unfold Throwing.notify, Throwing.bind, Throwing.get_state, Throwing.read,
    notify, getState.
  destruct (copy (_state w) (heap w)) as [state h]. cbn.
  rewrite (for_each_throws _ _ _ _ i e) by done.
  by rewrite fmap_take.
Qed.
End RunFacts.

(** ** Agreement with the definitions for listeners that return *)

#[local] Arguments Throwing.notify : simpl never.

Ltac run_unfold :=
  cbn -[Throwing.notify];
  try unfold Throwing.Subscribe.submit, Throwing.Subscribe.submit_resume,
    Throwing.Subscribe.reset, Throwing.Waitlist.join, Throwing.Waitlist.join_resume,
    Throwing.Waitlist.reset, Throwing.Form.submit, Throwing.Form.submit_resume,
    Throwing.Form.reset, Throwing.Feedback.submit, Throwing.Feedback.submit_resume,
    Throwing.Feedback.reset, Throwing.Reactions.fetch, Throwing.Reactions.fetch_resume,
    Throwing.Reactions.add, Throwing.Reactions.add_resume, Throwing.Reactions.remove,
    Throwing.Reactions.remove_resume, Throwing.Reactions.store_error,
    Throwing.Comments.fetch, Throwing.Comments.fetch_begin,
    Throwing.Comments.fetch_resume, Throwing.Comments.post,
    Throwing.Comments.post_catch, Throwing.Comments.post_resume,
    Throwing.Comments.post_fetch_resume, Throwing.Comments.post_join,
    Throwing.Poll.fetch, Throwing.Poll.fetch_resume, Throwing.Poll.vote,
    Throwing.Poll.vote_resume, Throwing.Announcements.fetch,
    Throwing.Announcements.fetch_resume, Throwing.Announcements.dismiss,
    Throwing.Announcements.dismiss_resume, Throwing.ViewCounts.fetch,
    Throwing.ViewCounts.fetch_resume, Throwing.ViewCounts.record,
    Throwing.ViewCounts.record_resume;
  try unfold Throwing.bind, Throwing.try_catch, Throwing.promise, Throwing.await,
    Throwing.ret, Throwing.throw, Throwing.read, Throwing.update,
    Throwing.allocate, Throwing.allocating, Throwing.get_state.

(** [H] says that the calls of the one broadcast of the run return. *)
Ltac run_returning H :=
  repeat (progress (run_unfold;
                    rewrite ?notify_returns
                      by (intros ? ?; apply H; cbn -[Throwing.notify] in *; lia);
                    cbn -[Throwing.notify];
                    branches)).

(** While the listeners return, a method call is the one defined for
    listeners that return: the same instance, the same calls of listeners,
    the same result. *)
Lemma invoke_agrees (k : Kind) (throws : nat → option JsValue)
    (m : Method (model k)) (w : World _ _) :
  Throwing.returning throws (length (listeners w)) →
  Throwing.invoke k throws m w
  = (let '(w', log, n) := invoke (model k) m w in (w', log, Throwing.of_next n)).
Proof.
  intros H. destruct k, m; run_returning H; reflexivity.
Qed.

(** So is every continuation. *)
Lemma resume_agrees (k : Kind) (throws : nat → option JsValue)
    (a : Awaiting (model k)) (o : Outcome (Response (model k) a)) (w : World _ _) :
  Throwing.returning throws (length (listeners w)) →
  Throwing.resume_at k throws a o w
  = (let '(w', log, n) := resume_at (model k) a o w in (w', log, Throwing.of_next n)).
Proof.
  intros H. destruct k, a, o; run_returning H; reflexivity.
Qed.

(** And so is [subscribe]. *)
Lemma subscribe_agrees {P St : Type} (copy : St → Heap → St * Heap)
    (throws : nat → option JsValue) (fn : Listener) (w : World P St) :
  throws 0 = None →
  Throwing.subscribe copy throws fn w []
  = (let '(w', log, unsub) := subscribe copy fn w in (w', log, Ok unsub)).
Proof.
  intros H. unfold Throwing.subscribe, Throwing.bind, Throwing.update,
    Throwing.get_state, Throwing.call_listener, Throwing.ret, subscribe.
  destruct (getState copy _) as [state w1]. cbn. by rewrite H.
Qed.

(** ** C4: replay on subscribe *)

(** C4, as the code has it.  For every controller, in any state and for
    any listener [fn], [subscribe(fn)] registers [fn] and calls it exactly
    once, and no other listener, with the snapshot [getState()] returns for
    the current state, leaving [_state] as it is.  When that call returns,
    [subscribe] returns the function that removes [fn] from the listener
    set; when it throws, [subscribe] throws what [fn] threw and returns
    nothing, and [fn] stays registered. *)
Theorem subscribe_replays_before_returning (k : Kind) (throws : nat → option JsValue)
    (w : World _ _) (fn : Listener) :
  let M := model k in
  let '(w', log, r) := Throwing.subscribe (snapshot M) throws fn w [] in
  log = [(fn, (getState (snapshot M) w).1)]
  ∧ status_of M (getState (snapshot M) w).1 = status_of M (_state w)
  ∧ error_of M (getState (snapshot M) w).1 = error_of M (_state w)
  ∧ _state w' = _state w
  ∧ fields w' = fields w
  ∧ listeners w' = Set_add fn (listeners w)
  ∧ fn ∈ listeners w'
  ∧ match throws 0 with
    | None => r = Ok (@unsubscribe (Fields M) (State M) fn)
    | Some e => r = Throws e
    end.
Proof.
  destruct k; cbn; destruct (throws 0); repeat split; apply Set_add_elem.
Qed.

(** C4 as stated fails: on a new SubscribeController, [subscribe(fn)] with
    an [fn] that throws ["boom"] calls [fn] once with the idle state,
    leaves [fn] registered, and ends in that exception: no unsubscribe
    function is returned. *)
Lemma subscribe_throwing_listener :
  let w := SubscribeController.new {| siteKey := "sk"; endpoint := None |} [] in
  let '(w', log, r) := Throwing.subscribe SubscribeController.copy first_throws 7 w [] in
  log = [(7, _state w)]
  ∧ listeners w' = [7]
  ∧ r = Throws (VString "boom")
  ∧ ¬ (∀ (k : Kind) (throws : nat → option JsValue)
         (w : World (Fields (model k)) (State (model k))) (fn : Listener),
         ∃ unsub, (Throwing.subscribe (snapshot (model k)) throws fn w []).2 = Ok unsub).
Proof.
  cbn. repeat split.
  intros Hclaim.
  destruct (Hclaim KSubscribe first_throws
              (SubscribeController.new {| siteKey := "sk"; endpoint := None |} []) 7)
    as [unsub Hunsub].
  discriminate Hunsub.
Qed.

(** ** C3: failures surface *)

(** C3, as the code has it.  For every controller and every point where
    one of its methods is suspended, a rejection with any value [e] makes
    the continuation take [e] itself when it is an [Error] and
    [new Error(String(e))] otherwise and store that error in [_state].  When
    the listeners return, it then gives every registered listener, in
    order, one snapshot carrying that error and the status of the new
    state, and throws that same error.  The error goes to the caller,
    except where [fetch] was called by [post]: there it goes to [post]
    first, whose [catch] block then throws it to the caller. *)
Theorem rejection_surfaces_to_returning_listeners (k : Kind)
    (throws : nat → option JsValue) (a : Awaiting (model k)) (e : JsValue)
    (w : World _ _) :
  Throwing.returning throws (length (listeners w)) →
  let M := model k in
  let '(w', log, r) := Throwing.resume_at k throws a (Rejected e) w in
  let error := match e with VError err => err | _ => new_Error (String_ e) end in
  error_of M (_state w') = Some error
  ∧ listeners w' = listeners w
  ∧ (∃ snap,
      log = broadcast snap (listeners w)
      ∧ error_of M snap = Some error
      ∧ status_of M snap = status_of M (_state w'))
  ∧ match r with
    | Throws thrown => thrown = VError error
    | Ok (Throwing.Joins a' o') =>
        o' = Rejected (VError error)
        ∧ ∀ throws' w'',
            Throwing.returning throws' (length (listeners w'')) →
            (Throwing.resume_at k throws' a' o' w'').2 = Throws (VError error)
    | Ok _ => False
    end.
Proof.
  intros H. destruct k, a; run_returning H;
    (split; [by destruct e|]; split; [done|]; split;
     [by eexists; split; [reflexivity|]; destruct e|]);
    try by destruct e.
  split; [by destruct e|].
  intros throws' w'' H'. run_returning H'. by destruct e.
Qed.

Lemma rejection_surfaces_to_returning_listeners_witness :
  Throwing.returning (λ _, None) (length (listeners two_listeners_submitting))
  ∧ let '(w', log, r) :=
      Throwing.resume_at KSubscribe (λ _, None) SubscribeController.AwSubmit
        (Rejected (VString "offline")) two_listeners_submitting in
    SubscribeController.error (_state w') = Some (new_Error "offline")
    ∧ log.*1 = [1; 2]
    ∧ r = Throws (VError (new_Error "offline")).
Proof.
  assert (H : Throwing.returning (λ _ : nat, None)
                (length (listeners two_listeners_submitting))).
  { intros i _. reflexivity. }
  split; [exact H|].
  pose proof (rejection_surfaces_to_returning_listeners KSubscribe (λ _, None)
                SubscribeController.AwSubmit (VString "offline")
                two_listeners_submitting H) as T.
  vm_compute in T. vm_compute.
  destruct T as (T1 & _ & _ & T2).
  split; [exact T1|]. split; reflexivity.
Defined.

(** X30.  When a listener throws during the broadcast of a [catch] block,
    the error is stored all the same, the listeners up to that one have
    been called and the ones after it are not, and what the method throws
    (or, for [fetch] called by [post], hands to [post]) is the listener's
    exception, not the error. *)
Theorem broadcast_cut_short (k : Kind) (throws : nat → option JsValue)
    (a : Awaiting (model k)) (e : JsValue) (w : World _ _) (i : nat) (x : JsValue) :
  i < length (listeners w) →
  throws i = Some x →
  Throwing.returning throws i →
  let M := model k in
  let '(w', log, r) := Throwing.resume_at k throws a (Rejected e) w in
  error_of M (_state w') = Some (catch_error e)
  ∧ log.*1 = take (S i) (listeners w)
  ∧ match r with
    | Throws thrown => thrown = x
    | Ok (Throwing.Joins a' o') => o' = Rejected x
    | Ok _ => False
    end.
Proof.
  intros Hi Hx Hbefore.
  destruct k, a; repeat (progress run_unfold);
    rewrite (notify_throws _ _ _ _ i x) by (cbn; first [lia | done]);
    repeat (progress run_unfold);
    (split; [done|]); (split; [|done]);
    rewrite <- fmap_take, <- list_fmap_compose; cbn; by rewrite list_fmap_id.
Qed.

Lemma broadcast_cut_short_witness :
  0 < length (listeners two_listeners_submitting)
  ∧ first_throws 0 = Some (VString "boom")
  ∧ let '(w', log, r) :=
      Throwing.resume_at KSubscribe first_throws SubscribeController.AwSubmit
        (Rejected VNull) two_listeners_submitting in
    SubscribeController.error (_state w') = Some (new_Error "null")
    ∧ log.*1 = [1]
    ∧ r = Throws (VString "boom").
Proof.
  assert (H0 : 0 < length (listeners two_listeners_submitting)) by (vm_compute; lia).
  split; [exact H0|]. split; [reflexivity|].
  pose proof (broadcast_cut_short KSubscribe first_throws SubscribeController.AwSubmit
                VNull two_listeners_submitting 0 (VString "boom") H0 eq_refl
                ltac:(intros i Hi; inversion Hi)) as T.
  vm_compute in T. vm_compute.
  destruct T as (T1 & T2 & _).
  split; [exact T1|]. split; [exact T2|reflexivity].
Defined.

(** C3 as stated fails: a SubscribeController with the listeners 1 and 2
    awaits [subscribe], which rejects with ["offline"]; listener 1 throws
    ["boom"].  The error is stored, but listener 2 is not called and what
    the caller gets is the string ["boom"], neither the error nor an
    [Error] at all. *)
Lemma rejection_lost_to_throwing_listener :
  let '(w', log, r) :=
    Throwing.resume_at KSubscribe first_throws SubscribeController.AwSubmit
      (Rejected (VString "offline")) two_listeners_submitting in
  SubscribeController.error (_state w') = Some (new_Error "offline")
  ∧ listeners w' = [1; 2]
  ∧ log.*1 = [1]
  ∧ r = Throws (VString "boom")
  ∧ ¬ (∀ (k : Kind) (throws : nat → option JsValue) (a : Awaiting (model k))
         (e : JsValue) (w : World _ _),
         let '(_, log, r) := Throwing.resume_at k throws a (Rejected e) w in
         (∀ l, l ∈ listeners w → l ∈ log.*1)
         ∧ (r = Throws (VError (catch_error e))
            ∨ ∃ a', r = Ok (Throwing.Joins a' (Rejected (VError (catch_error e)))))).
Proof.
  repeat split.
  intros Hclaim.
  specialize (Hclaim KSubscribe first_throws SubscribeController.AwSubmit
                (VString "offline") two_listeners_submitting).
  cbn in Hclaim. destruct Hclaim as [_ [Hr|[a' Hr]]]; discriminate Hr.
Qed.

(** * Further properties of the controllers *)



(** Method calls and continuations leave the private fields alone, except
    that [FormController.reset] refreshes [loadTime]. *)
Lemma invoke_config (k : Kind) (m : Method (model k)) (w : World _ _) :
  let w' := (invoke (model k) m w).1.1 in
  config_of k (fields w') = config_of k (fields w)
  ∧ resource_of k (fields w') = resource_of k (fields w).
Proof. by destruct k, m. Qed.

Lemma resume_config (k : Kind) (a : Awaiting (model k))
    (o : Outcome (Response (model k) a)) (w : World _ _) :
  let w' := (resume_at (model k) a o w).1.1 in
  config_of k (fields w') = config_of k (fields w)
  ∧ resource_of k (fields w') = resource_of k (fields w).
Proof. destruct k, a, o; cbn; branches; done. Qed.

(** X2.  No step of a run changes the configuration or the resource key
    (page id, form slug, poll slug) of a controller, and every request a
    method or a continuation makes carries exactly that configuration and,
    where the request names a resource, that key. *)
Theorem requests_carry_constructor_config (k : Kind) :
  (∀ s e s', step (model k) s e s' →
     config_of k (fields (instance s')) = config_of k (fields (instance s))
     ∧ resource_of k (fields (instance s')) = resource_of k (fields (instance s)))
  ∧ (∀ m w, match (invoke (model k) m w).2 with
            | Suspend _ rq =>
                request_config rq = config_of k (fields w)
                ∧ (request_resource rq = None ∨ request_resource rq = resource_of k (fields w))
            | _ => True
            end)
  ∧ (∀ a o w, match (resume_at (model k) a o w).2 with
              | Suspend _ rq =>
                  request_config rq = config_of k (fields w)
                  ∧ (request_resource rq = None
                     ∨ request_resource rq = resource_of k (fields w))
              | _ => True
              end).
Proof.
  split; [|split].
  - intros s e s' Hstep.
    destruct Hstep as [m w p q w' log n Hm|a o w p1 p2 q w' log n Hr
                      |a o w p q w' log n Hr|w p q|l w p q|l w p q];
      simpl.
    + pose proof (invoke_config k m w) as H. by rewrite Hm in H.
    + pose proof (resume_config k a o w) as H. by rewrite Hr in H.
    + pose proof (resume_config k a o w) as H. by rewrite Hr in H.
    + pose proof (getState_frame (snapshot (model k)) w) as Hg.
      destruct (getState _ w) as [snap w1]. destruct Hg as (Hf & _).
      simpl. by rewrite Hf.
    + unfold subscribe.
      pose proof (getState_frame (snapshot (model k))
                    (set_listeners (Set_add l (listeners w)) w)) as Hg.
      destruct (getState _ _) as [snap w1]. destruct Hg as (Hf & _).
      simpl. by rewrite Hf.
    + done.
  - intros m w. destruct k, m; cbn; auto.
  - intros a o w. destruct k, a, o; cbn; branches; auto.
Qed.

(** X3.  In every reachable state of a ViewCountsController the [pageId] of
    the state is the page id given to the constructor, whatever page ids the
    responses carried. *)
Theorem viewcounts_pageId_fixed (sys : Sys (model KViewCounts)) :
  reachable (model KViewCounts) sys →
  ViewCountsController.pageId (_state (instance sys))
  = ViewCountsController.this_pageId (fields (instance sys)).
Proof.
  induction 1 as [[cfg pid] h|s e s' Hs IH Hstep]; [done|].
  destruct Hstep as [m w p q w' log n Hm|a o w p1 p2 q w' log n Hr
                    |a o w p q w' log n Hr|w p q|l w p q|l w p q];
    simpl in *; try done.
  - destruct m; cbn in *; by injection Hm as <- _ _.
  - destruct a, o; cbn in *; by injection Hr as <- _ _.
  - destruct a, o; cbn in *; by injection Hr as <- _ _.
Qed.

(** A run in which the server answers [fetch] with another page's counts. *)
Lemma viewcounts_pageId_fixed_witness :
  let w0 := ViewCountsController.new {| siteKey := "sk"; endpoint := None |} "/a" [] in
  let w1 := (ViewCountsController.fetch w0).1.1 in
  let w2 := (ViewCountsController.fetch_resume
               (Resolved {| vc_pageId := "/b"; vc_views := 3; vc_uniqueVisitors := 2 |})
               w1).1.1 in
  ViewCountsController.pageId (_state w2) = "/a"
  ∧ ViewCountsController.views (_state w2) = 3%Z.
Proof.
  split; [|reflexivity].
  refine (viewcounts_pageId_fixed (@mkSys (model KViewCounts) _ [] []) _).
  eapply reach_step.
  - eapply reach_step.
    + exact (reach_new (model KViewCounts)
               ({| siteKey := "sk"; endpoint := None |}, "/a") []).
    + exact (step_call (model KViewCounts) ViewCountsController.fetch_
               _ [] [] _ _ _ eq_refl).
  - exact (step_settle (model KViewCounts) ViewCountsController.AwFetch
             (Resolved {| vc_pageId := "/b"; vc_views := 3; vc_uniqueVisitors := 2 |})
             _ [] [] [] _ _ _ eq_refl).
Defined.

(** X4.  While the listeners return, a method call or a continuation
    either calls no listener, and then changes neither [_state], nor the
    fields, nor the listener set, nor any object that exists (it may only
    create objects); or it makes exactly one broadcast: every registered
    listener is called once, in registration order, all with one and the
    same snapshot object, which carries the status and the error of the
    state the step ends in. *)
Theorem one_broadcast_per_step (k : Kind) (throws : nat → option JsValue)
    (w : World _ _) :
  Throwing.returning throws (length (listeners w)) →
  let M := model k in
  let shape (r : World (Fields M) (State M) * Log (State M)
                 * Attempt (Throwing.Pending (Awaiting M) (Response M) (Result M))) :=
    let '(w', log, _) := r in
    (log = [] ∧ Throwing.quiet w w')
    ∨ (∃ snap, log = broadcast snap (listeners w)
               ∧ status_of M snap = status_of M (_state w')
               ∧ error_of M snap = error_of M (_state w')) in
  (∀ m, shape (Throwing.invoke k throws m w))
  ∧ (∀ a o, shape (Throwing.resume_at k throws a o w)).
Proof.
  intros H. split.
  - intros m. destruct k, m; run_returning H;
      first [ left; split; [done|]; repeat split;
              first [by exists []; rewrite app_nil_r | by eexists]
            | right; by eexists ].
  - intros a o. destruct k, a, o; run_returning H;
      first [ left; split; [done|]; repeat split;
              first [by exists []; rewrite app_nil_r | by eexists]
            | right; by eexists ].
Qed.

Lemma one_broadcast_per_step_witness :
  Throwing.returning (λ _, None) (length (listeners two_listeners_submitting))
  ∧ ∃ snap,
      (Throwing.invoke KSubscribe (λ _, None) SubscribeController.reset_
         two_listeners_submitting).1.2
      = broadcast snap [1; 2].
Proof.
  assert (H : Throwing.returning (λ _ : nat, None)
                (length (listeners two_listeners_submitting))).
  { intros i _. reflexivity. }
  split; [exact H|].
  destruct (proj1 (one_broadcast_per_step KSubscribe (λ _, None)
                     two_listeners_submitting H) SubscribeController.reset_)
    as [[Hlog _]|(snap & Hlog & _)].
  - vm_compute in Hlog. discriminate Hlog.
  - exists snap. exact Hlog.
Defined.

(** ** References keep their kind *)

Lemma lookup_grown (h h' : Heap) (l : loc) (c : cell) :
  h !! l = Some c → (h ++ h') !! l = Some c.
Proof. intros Hl. rewrite lookup_app_l; [done|]. by eapply lookup_lt_Some. Qed.

Lemma lookup_stored (h : Heap) (l l' : loc) (c c' : cell) :
  h !! l' = Some c' →
  store l c h !! l' = Some (if decide (l = l') then c else c').
Proof.
  intros Hl. case_decide as Heq.
  - subst. apply lookup_store_same. by eapply lookup_lt_Some.
  - by rewrite lookup_store_other.
Qed.

(** Finding the object a reference leads to, after allocations and
    in-place updates. *)
Ltac find_cell :=
  solve [ repeat first
            [ apply lookup_new
            | apply (lookup_new _ [])
            | eassumption
            | apply lookup_grown
            | apply lookup_store_same; eapply lookup_lt_Some; eassumption
            | rewrite lookup_store_other by (intros ?; congruence) ] ].

Ltac typed_step :=
  cbn; unfold reactions_typed, comments_typed, announcements_typed; cbn;
  intros;
  repeat match goal with
    | H : _ ∧ _ |- _ => destruct H
    | H : ∃ _, _ |- _ => destruct H
    end;
  repeat split; try done; eexists; find_cell.

Lemma construct_well_typed (k : Kind) (args : Args (model k)) (h : Heap) :
  let w := construct (model k) args h in
  well_typed k (heap w) (_state w).
Proof.
  destruct k; cbn in *;
    repeat match goal with x : (_ * _)%type |- _ => destruct x end;
    typed_step.
Qed.

Lemma getState_well_typed (k : Kind) (w : World (Fields (model k)) (State (model k))) :
  well_typed k (heap w) (_state w) →
  let w' := (getState (snapshot (model k)) w).2 in
  well_typed k (heap w') (_state w').
Proof. destruct k; typed_step. Qed.

Lemma invoke_well_typed (k : Kind) (m : Method (model k)) (w : World _ _) :
  well_typed k (heap w) (_state w) →
  let w' := (invoke (model k) m w).1.1 in
  well_typed k (heap w') (_state w').
Proof. destruct k, m; typed_step. Qed.

Lemma resume_well_typed (k : Kind) (a : Awaiting (model k))
    (o : Outcome (Response (model k) a)) (w : World _ _) :
  well_typed k (heap w) (_state w) →
  let w' := (resume_at (model k) a o w).1.1 in
  well_typed k (heap w') (_state w').
Proof. destruct k, a, o; cbn; branches; typed_step. Qed.

Lemma reachable_well_typed (k : Kind) (sys : Sys (model k)) :
  reachable (model k) sys →
  well_typed k (heap (instance sys)) (_state (instance sys)).
Proof.
  induction 1 as [args h|s e s' Hs IH Hstep].
  - apply construct_well_typed.
  - destruct Hstep as [m w p q w' log n Hm|a o w p1 p2 q w' log n Hr
                      |a o w p q w' log n Hr|w p q|l w p q|l w p q];
      simpl in *.
    + pose proof (invoke_well_typed k m w IH) as Hi. by rewrite Hm in Hi.
    + pose proof (resume_well_typed k a o w IH) as Hi. by rewrite Hr in Hi.
    + pose proof (resume_well_typed k a o w IH) as Hi. by rewrite Hr in Hi.
    + by apply getState_well_typed.
    + pose proof (getState_well_typed k (set_listeners (Set_add l (listeners w)) w) IH)
        as Hg.
      unfold subscribe. simpl in Hg.
      by destruct (getState _ (set_listeners _ w)).
    + exact IH.
Qed.

Lemma read_record_stored (h : Heap) (l : loc) (m : gmap string Z) :
  l < length h → read_record (store l (CRecord m) h) l = m.
Proof. intros. reads. by rewrite lookup_store_same. Qed.

#[local] Hint Rewrite read_record_stored using in_range : heap.

(** ** ReactionsController: what [add] and [remove] merge *)

Section ReactionsMerge.
Import ReactionsController.

(** The counts mapping and the list of the visitor's reactions, as the
    controller reads them. *)
Lemma add_resume_view (w : W) (t : string) (result : ReactionResult) :
  reactions_typed (heap w) (_state w) →
  let '(w', _, _) := add_resume t (Resolved result) w in
  view (heap w') (_state w')
  = let '(c, u, st, er) := view (heap w) (_state w) in
    (<[t := rr_count result]> c, if bool_decide (t ∈ u) then u else u ++ [t], st, er).
Proof.
  destruct w as [p [cs us st er] ls h]. intros [[m Hm] [u Hu]]; cbn in *.
  assert (cs < length h) by by eapply lookup_lt_Some.
  assert (us < length h) by by eapply lookup_lt_Some.
  assert (cs ≠ us) by (intros ?; congruence).
  unfold view; cbn. autorewrite with heap.
  case_bool_decide; cbn; by autorewrite with heap.
Qed.

Lemma remove_resume_view (w : W) (t : string) (result : ReactionResult) :
  reactions_typed (heap w) (_state w) →
  let '(w', _, _) := remove_resume t (Resolved result) w in
  view (heap w') (_state w')
  = let '(c, u, st, er) := view (heap w) (_state w) in
    (<[t := rr_count result]> c, filter (λ r, r ≠ t) u, st, er).
Proof.
  destruct w as [p [cs us st er] ls h]. intros [[m Hm] [u Hu]]; cbn in *.
  assert (cs < length h) by by eapply lookup_lt_Some.
  assert (us < length h) by by eapply lookup_lt_Some.
  assert (cs ≠ us) by (intros ?; congruence).
  unfold view; cbn. by autorewrite with heap.
Qed.
End ReactionsMerge.

Section ReactionsProperties.
Import ReactionsController.



(** X6.  In every reachable state of a ReactionsController, after a
    successful [add(type)] the visitor's reaction list contains [type], is
    the old list when [type] was already in it, and has gained no
    duplicate; after a successful [remove(type)] it does not contain
    [type]; every other type is in the new list exactly when it was in the
    old one. *)
Theorem add_remove_user_reactions (sys : Sys (model KReactions)) (t : string)
    (result : ReactionResult) :
  reachable (model KReactions) sys →
  let w := instance sys in
  let added := (add_resume t (Resolved result) w).1.1 in
  let removed := (remove_resume t (Resolved result) w).1.1 in
  t ∈ user_reactions added
  ∧ (t ∈ user_reactions w → user_reactions added = user_reactions w)
  ∧ (NoDup (user_reactions w) → NoDup (user_reactions added))
  ∧ (t ∉ user_reactions removed)
  ∧ (NoDup (user_reactions w) → NoDup (user_reactions removed))
  ∧ ∀ x, x ≠ t →
      (x ∈ user_reactions added ↔ x ∈ user_reactions w)
      ∧ (x ∈ user_reactions removed ↔ x ∈ user_reactions w).
Proof.
  intros Hr w added removed.
  pose proof (reachable_well_typed KReactions sys Hr) as Ht.
  assert (Ha : user_reactions added
               = if bool_decide (t ∈ user_reactions w) then user_reactions w
                 else user_reactions w ++ [t]).
  { subst added. pose proof (add_resume_view w t result Ht) as Hv.
    destruct (add_resume t (Resolved result) w) as [[w1 log] n].
    unfold view in Hv. by injection Hv. }
  assert (Hd : user_reactions removed = filter (λ r, r ≠ t) (user_reactions w)).
  { subst removed. pose proof (remove_resume_view w t result Ht) as Hv.
    destruct (remove_resume t (Resolved result) w) as [[w1 log] n].
    unfold view in Hv. by injection Hv. }
  rewrite Ha, Hd. clear Ha Hd.
  split; [case_bool_decide; [done|]; apply elem_of_app; right; by left|].
  split; [intros Hin; by rewrite bool_decide_eq_true_2|].
  split.
  { intros Hnd. case_bool_decide; [done|].
    apply NoDup_app. split; [done|]. split; [|apply NoDup_singleton].
    intros x Hx Hx'. apply list_elem_of_singleton in Hx' as ->. done. }
  split; [intros Hin; apply list_elem_of_filter in Hin; by destruct Hin|].
  split; [apply NoDup_filter|].
  intros x Hne. split.
  - case_bool_decide; [done|]. rewrite elem_of_app, list_elem_of_singleton.
    split; [intros [Hx|Hx]; [exact Hx|by destruct Hne]|by left].
  - rewrite list_elem_of_filter. split; [by intros [_ Hx]|by split].
Qed.

Lemma add_remove_user_reactions_witness :
  let w := instance failed_add in
  "like" ∈ user_reactions
             (add_resume "like" (Resolved {| rr_reactionType := "like"; rr_count := 4 |})
                w).1.1.
Proof.
  exact (proj1 (add_remove_user_reactions failed_add "like"
                  {| rr_reactionType := "like"; rr_count := 4 |} failed_add_reachable)).
Defined.
End ReactionsProperties.

(** ** AnnouncementsController: the dismissed set and the visible list *)

(** Only [CommentsController.post] awaits a promise of the controller's own
    code, so elsewhere the queue of continuations stays empty. *)
Lemma announcements_queue_empty (sys : Sys (model KAnnouncements)) :
  reachable (model KAnnouncements) sys → queued sys = [].
Proof.
  induction 1 as [args h|s e s' Hs IH Hstep]; [done|].
  destruct Hstep as [m w p q w' log n Hm|a o w p1 p2 q w' log n Hr
                    |a o w p q w' log n Hr|w p q|l w p q|l w p q];
    simpl in *; try done.
  - destruct m; cbn in *; by injection Hm as _ _ <-.
  - destruct a, o; cbn in *; by injection Hr as _ _ <-.
Qed.

Section AnnouncementsProperties.
Import AnnouncementsController.

#[local] Hint Rewrite read_announcements_store read_idset_store
  using (first [done | by apply not_eq_sym]) : heap.

Lemma announcements_bounds (h : Heap) (s : AnnouncementsState) :
  announcements_typed h s →
  announcements s < length h ∧ dismissed s < length h ∧ announcements s ≠ dismissed s.
Proof.
  intros [[a Ha] [d Hd]]. repeat split; try by eapply lookup_lt_Some.
  intros ?; congruence.
Qed.

(** X7.  Along every run of an AnnouncementsController the dismissed set
    only grows: no step removes an id, [fetch] included; and an id enters
    the set only when a [dismiss] of that id is settled successfully. *)
Theorem dismissed_set_only_grows (sys sys' : Sys (model KAnnouncements))
    (e : Event (model KAnnouncements)) :
  reachable (model KAnnouncements) sys →
  step (model KAnnouncements) sys e sys' →
  dismissed_ids (instance sys) ⊆ dismissed_ids (instance sys')
  ∧ ∀ x, x ∈ dismissed_ids (instance sys') →
         x ∈ dismissed_ids (instance sys)
         ∨ e = @EvSettle (model KAnnouncements) (AwDismiss x) (Resolved ()).
Proof.
  intros Hr Hstep.
  pose proof (reachable_well_typed KAnnouncements sys Hr) as Ht.
  pose proof (announcements_queue_empty sys Hr) as Hq.
  destruct Hstep as [m w p q w' log n Hm|a o w p1 p2 q w' log n Hr'
                    |a o w p q w' log n Hr'|w p q|l w p q|l w p q];
    simpl in *; try discriminate Hq;
    destruct (announcements_bounds _ _ Ht) as (Ha & Hd & Hne);
    destruct w as [f [an ds st er] ls h]; unfold dismissed_ids; cbn in *.
  - destruct m; cbn in *; injection Hm as <- _ _; cbn; autorewrite with heap; auto.
  - destruct a as [|x], o as [r|v]; cbn in *; injection Hr' as <- _ _; cbn;
      autorewrite with heap; auto.
    split; [set_solver|]. intros y Hy. destruct r.
    apply elem_of_union in Hy as [Hy|Hy]; [|by left].
    apply elem_of_singleton in Hy as ->. by right.
  - autorewrite with heap; auto.
  - autorewrite with heap; auto.
  - auto.
Qed.

Lemma dismissed_set_only_grows_witness :
  let w0 := AnnouncementsController.new {| siteKey := "sk"; endpoint := None |} [] in
  let w1 := (dismiss_resume 42%Z (Resolved ()) w0).1.1 in
  dismissed_ids w0 ⊆ dismissed_ids w1.
Proof.
  refine (proj1 (dismissed_set_only_grows
            (@mkSys (model KAnnouncements) _ [AwDismiss 42%Z] [])
            (@mkSys (model KAnnouncements) _ [] [])
            (@EvSettle (model KAnnouncements) (AwDismiss 42%Z) (Resolved ())) _ _)).
  - eapply reach_step.
    + exact (reach_new (model KAnnouncements) {| siteKey := "sk"; endpoint := None |} []).
    + exact (step_call (model KAnnouncements) (dismiss_ 42%Z) _ [] [] _ _ _ eq_refl).
  - exact (step_settle (model KAnnouncements) (AwDismiss 42%Z) (Resolved ())
             _ [] [] [] _ _ _ eq_refl).
Defined.

(** X8.  In every reachable state of an AnnouncementsController: a
    successful [dismiss(id)] leaves the announcement list as it is and
    removes from the visible list exactly the announcements with that id; a
    successful [fetch] replaces the list by the fetched one and shows
    exactly the fetched announcements whose id had not been dismissed. *)
Theorem visible_after_dismiss_and_fetch (sys : Sys (model KAnnouncements))
    (announcementId : Z) (fetched : list Announcement) :
  reachable (model KAnnouncements) sys →
  let w := instance sys in
  let dismissed_w := (dismiss_resume announcementId (Resolved ()) w).1.1 in
  let fetched_w := (fetch_resume (Resolved fetched) w).1.1 in
  announcement_list dismissed_w = announcement_list w
  ∧ getVisibleAnnouncements dismissed_w
    = filter (λ a, ann_id a ≠ announcementId) (getVisibleAnnouncements w)
  ∧ announcement_list fetched_w = fetched
  ∧ getVisibleAnnouncements fetched_w
    = filter (λ a, ann_id a ∉ dismissed_ids w) fetched.
Proof.
  intros Hr.
  pose proof (reachable_well_typed KAnnouncements sys Hr) as Ht.
  destruct (announcements_bounds _ _ Ht) as (Ha & Hd & Hne).
  destruct sys as [[f [an ds st er] ls h] p q].
  unfold announcement_list, getVisibleAnnouncements, dismissed_ids; cbn in *.
  autorewrite with heap. repeat split; try done.
  rewrite list_filter_filter. apply list_filter_iff.
  intros a. rewrite not_elem_of_union, not_elem_of_singleton. tauto.
Qed.

Lemma visible_after_dismiss_and_fetch_witness :
  let w0 := AnnouncementsController.new {| siteKey := "sk"; endpoint := None |} [] in
  let w1 := (dismiss_resume 42%Z (Resolved ()) w0).1.1 in
  ann_id <$> getVisibleAnnouncements (fetch_resume (Resolved two_announcements) w1).1.1
  = [7%Z].
Proof.
  intros w0 w1.
  assert (Hr : reachable (model KAnnouncements)
                 (@mkSys (model KAnnouncements) w1 [] [])).
  { eapply reach_step.
    - eapply reach_step.
      + exact (reach_new (model KAnnouncements)
                 {| siteKey := "sk"; endpoint := None |} []).
      + exact (step_call (model KAnnouncements) (dismiss_ 42%Z) _ [] [] _ _ _ eq_refl).
    - exact (step_settle (model KAnnouncements) (AwDismiss 42%Z) (Resolved ())
               _ [] [] [] _ _ _ eq_refl). }
  pose proof (proj2 (proj2 (proj2
    (visible_after_dismiss_and_fetch _ 0%Z two_announcements Hr)))) as H.
  etrans; [exact (f_equal (fmap ann_id) H)|]. by vm_compute.
Defined.
End AnnouncementsProperties.

(** ** PollController: what [vote] merges, and [hasVoted] *)

Lemma read_poll_old (h h' : Heap) (l : loc) :
  l < length h → read_poll (h ++ h') l = read_poll h l.
Proof. intros. reads. by rewrite lookup_old. Qed.

Lemma read_poll_new (h h' : Heap) (p : PollWithResults) :
  read_poll (h ++ CPoll p :: h') (length h) = Some p.
Proof. reads. by rewrite lookup_new. Qed.

#[local] Hint Rewrite read_poll_new : heap.
#[local] Hint Rewrite read_poll_old using in_range : heap.

Section PollProperties.
Import PollController.

(** X9.  A successful [vote] on a loaded poll builds a new poll object and
    changes no existing object: the new object has the old one's id,
    question, options, settings, end date and active flag, the [results]
    and [totalVotes] of the response, and the caller's array as
    [userVotes]; a snapshot taken before the vote, whose references are
    valid, still shows the old poll. *)
Theorem vote_builds_new_poll (w : W) (sel p : loc) (o : PollWithResults)
    (r : VotePollResponse) :
  poll (_state w) = Some p →
  read_poll (heap w) p = Some o →
  results o < length (heap w) →
  (∀ u, userVotes o = Some u → u < length (heap w)) →
  let '(w', _, n) := vote_resume sel (Resolved r) w in
  n = Done (Returned (RVote r))
  ∧ (∃ p' res,
       heap w' = heap w ++ [CRecord (vp_results r);
                            CPoll {| poll_id := poll_id o; question := question o;
                                     options := options o; settings := settings o;
                                     endsAt := endsAt o; isActive := isActive o;
                                     results := res;
                                     totalVotes := vp_totalVotes r;
                                     userVotes := Some sel |}]
       ∧ res = length (heap w) ∧ p' = S (length (heap w))
       ∧ poll (_state w') = Some p')
  ∧ view (heap w') (_state w) = view (heap w) (_state w).
Proof.
  destruct w as [f [pl st er] ls h]; cbn. intros -> Ho Hres Hvotes.
  assert (Hp : p < length h).
  { unfold read_poll in Ho. destruct (h !! p) eqn:E; [|done]. by eapply lookup_lt_Some. }
  autorewrite with heap. rewrite Ho. cbn.
  split; [done|]. split.
  - eexists _, _. split; [by rewrite <- app_assoc|]. repeat split.
    by rewrite length_app, Nat.add_1_r.
  - unfold view; cbn. autorewrite with heap. rewrite Ho; cbn.
    unfold read_poll_data. autorewrite with heap.
    destruct (userVotes o) as [u|] eqn:Eu; cbn; [|done].
    specialize (Hvotes u eq_refl). by autorewrite with heap.
Qed.

Lemma vote_builds_new_poll_witness :
  let w := instance poll_loaded in
  let r := {| vp_success := true; vp_results := {["a" := 2%Z]}; vp_totalVotes := 2 |} in
  let w' := (vote_resume 1 (Resolved r) w).1.1 in
  view (heap w') (_state w) = view (heap w) (_state w)
  ∧ (pd_totalVotes <$> (view (heap w') (_state w')).1.1) = Some 2%Z.
Proof.
  split; [|reflexivity].
  refine (proj2 (proj2 (vote_builds_new_poll (instance poll_loaded) 1 2 _
            {| vp_success := true; vp_results := {["a" := 2%Z]}; vp_totalVotes := 2 |}
            eq_refl eq_refl _ _))).
  - cbn; lia.
  - intros u Hu. injection Hu as <-. cbn; lia.
Defined.

(** X10.  [hasVoted()] after a successful [fetch] is true exactly when the
    fetched poll has a non-empty [userVotes]; after a successful [vote] on a
    loaded poll it is true exactly when the caller's array of selected
    options is non-empty; and with no poll loaded it is false, before and
    after a successful [vote]. *)
Theorem hasVoted_reflects_votes (w : W) (sel : loc) (r : VotePollResponse)
    (d : PollData) :
  sel < length (heap w) →
  hasVoted (fetch_resume (Resolved d) w).1.1
    = match pd_userVotes d with Some (_ :: _) => true | _ => false end
  ∧ (∀ p o, poll (_state w) = Some p → read_poll (heap w) p = Some o →
       hasVoted (vote_resume sel (Resolved r) w).1.1
       = bool_decide (read_strings (heap w) sel ≠ []))
  ∧ (poll (_state w) = None →
       hasVoted w = false ∧ hasVoted (vote_resume sel (Resolved r) w).1.1 = false).
Proof.
  destruct w as [f [pl st er] ls h]; cbn. intros Hsel. split; [|split].
  - unfold hasVoted, decode_poll; cbn.
    destruct (pd_userVotes d) as [[|v vs]|]; cbn; autorewrite with heap; by cbn.
  - intros p o -> Ho.
    assert (Hp : p < length h).
    { unfold read_poll in Ho. destruct (h !! p) eqn:E; [|done].
      by eapply lookup_lt_Some. }
    autorewrite with heap. rewrite Ho. unfold hasVoted; cbn.
    autorewrite with heap.
    destruct (read_strings h sel); cbn.
    + first [done | by rewrite bool_decide_eq_false_2 by lia].
    + apply bool_decide_eq_true_2. lia.
  - intros ->. unfold hasVoted; cbn. split; reflexivity.
Qed.

Lemma hasVoted_reflects_votes_witness :
  let w := (vote ["b"] (instance poll_loaded)).1.1 in
  let r := {| vp_success := true; vp_results := {["b" := 1%Z]}; vp_totalVotes := 2 |} in
  hasVoted (vote_resume 3 (Resolved r) w).1.1 = true.
Proof.
  assert (H3 : 3 < length (heap (vote ["b"] (instance poll_loaded)).1.1)) by (cbn; lia).
  exact (proj1 (proj2 (hasVoted_reflects_votes (vote ["b"] (instance poll_loaded)).1.1 3
                  {| vp_success := true; vp_results := {["b" := 1%Z]}; vp_totalVotes := 2 |}
                  a_poll H3)) 2 _ eq_refl eq_refl).
Defined.
End PollProperties.

(** ** What [fetch] returns *)

Lemma read_comments_stored (h : Heap) (l : loc) (x : list Comment) :
  l < length h → read_comments (store l (CComments x) h) l = x.
Proof. intros. reads. by rewrite lookup_store_same. Qed.

Lemma read_announcements_stored (h : Heap) (l : loc) (x : list Announcement) :
  l < length h → read_announcements (store l (CAnnouncements x) h) l = x.
Proof. intros. reads. by rewrite lookup_store_same. Qed.

(** X11.  [CommentsController.fetch()] and [AnnouncementsController.fetch()]
    resolve with the very array they stored in [_state], not with a copy:
    when the caller overwrites that array, the next [getState()] shows the
    caller's content. *)
Theorem fetch_returns_internal_array
    (wc : CommentsController.W) (comments edited : list Comment)
    (wa : AnnouncementsController.W) (anns edited' : list Announcement) :
  (let '(w', _, n) := CommentsController.resume CommentsController.AwFetch
                        (Resolved comments) wc in
   ∃ l, n = Done (Returned (CommentsController.RComments l))
        ∧ l = CommentsController.comments (_state w')
        ∧ let '(snap, w'') := getState CommentsController.copy
                                (mutate l (CComments edited) w') in
          read_comments (heap w'') (CommentsController.comments snap) = edited)
  ∧ (let '(w', _, n) := AnnouncementsController.fetch_resume (Resolved anns) wa in
     ∃ l, n = Done (Returned (AnnouncementsController.RAnnouncements l))
          ∧ l = AnnouncementsController.announcements (_state w')
          ∧ let '(snap, w'') := getState AnnouncementsController.copy
                                  (mutate l (CAnnouncements edited') w') in
            read_announcements (heap w'') (AnnouncementsController.announcements snap)
            = edited').
Proof.
  split.
  - destruct wc as [f [cs st er] ls h]; cbn.
    eexists. split; [reflexivity|]. split; [reflexivity|].
    rewrite (read_comments_new _ []).
    rewrite read_comments_stored by in_range. done.
  - destruct wa as [f [an ds st er] ls h]; cbn.
    eexists. split; [reflexivity|]. split; [reflexivity|].
    rewrite read_announcements_old by in_range.
    rewrite (read_announcements_new _ []).
    rewrite read_announcements_stored by in_range. done.
Qed.

(** * Properties of the helpers *)

(** ** URLs *)

Lemma append_nonempty (s : string) (c : Ascii.ascii) : s +:+ String c "" ≠ "".
Proof. destruct s; discriminate. Qed.

Lemma strip_app_slash (s : string) :
  strip_trailing_slashes (s +:+ "/") = strip_trailing_slashes s.
Proof.
  induction s as [|c rest IH]; [done|].
  change (String c rest +:+ "/") with (String c (rest +:+ "/")).
  simpl. by rewrite IH.
Qed.

Lemma strip_no_trailing_slash (s t : string) : strip_trailing_slashes s ≠ t +:+ "/".
Proof.
  revert t. induction s as [|c rest IH]; intros t; simpl.
  - intros H. symmetry in H. by apply append_nonempty in H.
  - destruct (strip_trailing_slashes rest) as [|k kept] eqn:E.
    + destruct (Ascii.eqb_spec c "/"%char) as [->|Hc].
      * intros H. symmetry in H. by apply append_nonempty in H.
      * destruct t as [|c' t']; intros H.
        -- injection H as H. done.
        -- injection H as _ H. symmetry in H. by apply append_nonempty in H.
    + destruct t as [|c' t']; intros H.
      * injection H as _ H. discriminate H.
      * injection H as _ H. by apply (IH t').
Qed.

Lemma string_app_inv_head (p s t : string) : p +:+ s = p +:+ t → s = t.
Proof. induction p as [|c p IH]; cbn; [done|]. intros H. injection H as H. auto. Qed.

(** X12.  [buildUrl] uses the default endpoint when the endpoint is
    [undefined] or empty, and ignores slashes at the end of a given
    endpoint: the URL is a base that does not end in a slash, followed by
    ["/api/v1"] and the path, and appending a slash to the endpoint does not
    change it. *)
Theorem buildUrl_ignores_trailing_slashes (e path : string) :
  e ≠ "" →
  buildUrl None path = "https://jamwidgets.com/api/v1" +:+ path
  ∧ buildUrl (Some "") path = buildUrl None path
  ∧ buildUrl (Some (e +:+ "/")) path = buildUrl (Some e) path
  ∧ ∃ base, buildUrl (Some e) path = base +:+ "/api/v1" +:+ path
            ∧ ∀ t, base ≠ t +:+ "/".
Proof.
  intros He. split; [done|]. split; [done|]. split.
  - unfold buildUrl. destruct e as [|c e]; [done|].
    change (String c e +:+ "/") with (String c (e +:+ "/")).
    cbn [truthy default].
    change (String c (e +:+ "/")) with (String c e +:+ "/").
    unfold id. by rewrite strip_app_slash.
  - exists (strip_trailing_slashes e). split; [|apply strip_no_trailing_slash].
    unfold buildUrl. by destruct e.
Qed.

Lemma buildUrl_ignores_trailing_slashes_witness :
  buildUrl (Some "https://api.example.com//") "/subscribe"
  = buildUrl (Some "https://api.example.com/") "/subscribe".
Proof.
  refine (proj1 (proj2 (proj2
    (buildUrl_ignores_trailing_slashes "https://api.example.com/" "/subscribe" _)))).
  discriminate.
Defined.

(** Percent-encoding can be undone character by character. *)
Lemma percent_encode_inj (c1 c2 : Ascii.ascii) :
  percent_encode c1 = percent_encode c2 → c1 = c2.
Proof.
  intros H.
  assert (Hd : ∀ c, Ascii.ascii_of_nat
                      (let hi := Ascii.nat_of_ascii
                                   (default "0"%char (String.get 1 (percent_encode c))) in
                       let lo := Ascii.nat_of_ascii
                                   (default "0"%char (String.get 2 (percent_encode c))) in
                       16 * (if hi <? 58 then hi - 48 else hi - 55)
                       + (if lo <? 58 then lo - 48 else lo - 55)) = c).
  { intros c. destruct c as [[] [] [] [] [] [] [] []]; reflexivity. }
  rewrite <- (Hd c1), <- (Hd c2). by rewrite H.
Qed.

Lemma percent_encode_app_inv (c1 c2 : Ascii.ascii) (s1 s2 : string) :
  percent_encode c1 +:+ s1 = percent_encode c2 +:+ s2 →
  percent_encode c1 = percent_encode c2 ∧ s1 = s2.
Proof.
  unfold percent_encode. intros H. injection H as Hh Hl Hs.
  split; [|exact Hs].
  exact (f_equal2 (λ h l, String "%"%char (String h (String l ""))) Hh Hl).
Qed.

Lemma unreserved_not_percent (c : Ascii.ascii) : unreserved c = true → c ≠ "%"%char.
Proof. intros H ->. discriminate H. Qed.

Lemma encodeURIComponent_inj (s1 s2 : string) :
  encodeURIComponent s1 = encodeURIComponent s2 → s1 = s2.
Proof.
  revert s2. induction s1 as [|c1 r1 IH]; intros [|c2 r2]; cbn; try done.
  - destruct (unreserved c2); discriminate.
  - destruct (unreserved c1); discriminate.
  - destruct (unreserved c1) eqn:E1, (unreserved c2) eqn:E2; cbn; intros H.
    + injection H as -> H. f_equal. by apply IH.
    + injection H as -> _. by apply unreserved_not_percent in E1.
    + injection H as <- _. by apply unreserved_not_percent in E2.
    + apply percent_encode_app_inv in H as [Hc H].
      f_equal; [by apply percent_encode_inj|by apply IH].
Qed.

Lemma string_forall_app (p : Ascii.ascii → bool) (s t : string) :
  string_forall p (s +:+ t) = string_forall p s && string_forall p t.
Proof.
  induction s as [|c s IH]; [done|].
  change (String c s +:+ t) with (String c (s +:+ t)).
  simpl. by rewrite IH, andb_assoc.
Qed.

Lemma encodeURIComponent_safe (s : string) :
  string_forall (λ c, unreserved c || Ascii.eqb c "%"%char) (encodeURIComponent s) = true.
Proof.
  induction s as [|c rest IH]; [done|].
  simpl encodeURIComponent. rewrite string_forall_app, IH, andb_true_r.
  destruct (unreserved c) eqn:E.
  - simpl. by rewrite E.
  - clear. destruct c as [[] [] [] [] [] [] [] []]; reflexivity.
Qed.

Lemma encodeURIComponent_no_separator (s : string) :
  string_forall (λ c, negb (bool_decide (c ∈ ["/"; "?"; "#"; "&"]%char)))
                (encodeURIComponent s) = true.
Proof.
  induction s as [|c rest IH]; [done|].
  simpl encodeURIComponent. rewrite string_forall_app, IH, andb_true_r.
  destruct (unreserved c) eqn:E.
  - simpl. rewrite andb_true_r.
    destruct c as [[] [] [] [] [] [] [] []]; try reflexivity; discriminate E.
  - clear. destruct c as [[] [] [] [] [] [] [] []]; reflexivity.
Qed.

(** X13.  Where a site key is available, [fetchComments] puts the page id
    into the URL percent-encoded: the URL is [buildUrl] of ["/comments/"]
    followed by a segment made only of letters, digits,
    [- _ . ! ~ * ' ( )] and [%], so it holds no [/], [?], [#] or [&]; and
    two page ids give the same URL only if they are equal. *)
Theorem page_id_is_one_url_segment (config : JamWidgetsConfig) (env : Env)
    (pageId1 pageId2 : string) :
  siteKey config ≠ "" →
  (∃ rq segment,
     request_of (Api.fetchComments config pageId1 env) = Some rq
     ∧ url rq = buildUrl (endpoint config) ("/comments/" +:+ segment)
     ∧ string_forall (λ c, unreserved c || Ascii.eqb c "%"%char) segment = true
     ∧ string_forall (λ c, negb (bool_decide (c ∈ ["/"; "?"; "#"; "&"]%char))) segment
       = true)
  ∧ (url <$> request_of (Api.fetchComments config pageId1 env)
     = url <$> request_of (Api.fetchComments config pageId2 env) →
     pageId1 = pageId2).
Proof.
  intros Hkey.
  assert (Hk : getSiteKey config (env_document env) = Returned (siteKey config)).
  { unfold getSiteKey. destruct config as [[|c k] e]; [done|reflexivity]. }
  unfold request_of, Api.fetchComments. rewrite Hk.
  destruct (getHeaders (siteKey config) env) as [env' hs]; cbn. split.
  - eexists _, _. split; [reflexivity|]. split; [reflexivity|].
    split; [apply encodeURIComponent_safe|apply encodeURIComponent_no_separator].
  - intros H. injection H as H. unfold buildUrl in H.
    apply string_app_inv_head, string_app_inv_head in H.
    apply (string_app_inv_head "/comments/") in H.
    by apply encodeURIComponent_inj.
Qed.

Lemma page_id_is_one_url_segment_witness :
  url <$> request_of (Api.fetchComments {| siteKey := "sk"; endpoint := None |} "/blog/a b"
            (mkEnv None (Some "visitor") NoStorage None (λ _, 0%fin) 0 0 0))
  = Some "https://jamwidgets.com/api/v1/comments/%2Fblog%2Fa%20b".
Proof.
  destruct (page_id_is_one_url_segment {| siteKey := "sk"; endpoint := None |}
              (mkEnv None (Some "visitor") NoStorage None (λ _, 0%fin) 0 0 0)
              "/blog/a b" "/blog/a b") as [_ _]; [discriminate|reflexivity].
Defined.

(** ** Configuration lookup *)

Lemma truthy_nonempty (s : option string) (x : string) : truthy s = Some x → x ≠ "".
Proof. destruct s as [[|c r]|]; cbn; intros H; try discriminate; by injection H as <-. Qed.

Lemma querySelector_meta_first (pre post : list MetaTag) (m : MetaTag) (n : string) :
  Forall (λ x, meta_name x ≠ Some n) pre →
  meta_name m = Some n →
  querySelector_meta (pre ++ m :: post) n = Some m.
Proof.
  intros Hpre Hm. unfold querySelector_meta.
  induction Hpre as [|x pre Hx _ IH]; simpl app.
  - by rewrite filter_cons_True.
  - by rewrite filter_cons_False.
Qed.

Lemma querySelector_meta_none (doc : list MetaTag) (n : string) :
  Forall (λ x, meta_name x ≠ Some n) doc → querySelector_meta doc n = None.
Proof.
  intros Hdoc. unfold querySelector_meta.
  induction Hdoc as [|x doc Hx _ IH]; [done|]. by rewrite filter_cons_False.
Qed.

(** X14.  When the document has a [jamwidgets-site-key] meta element, the
    site key [getConfigFromMeta] finds is the content of the first such
    element, and nothing is found when that content is missing or empty,
    whatever [seriph-site-key] elements say.  Only a document without any
    [jamwidgets-site-key] element is searched for [seriph-site-key]. *)
Theorem meta_site_key_precedence (pre post : list MetaTag) (m : MetaTag) :
  Forall (λ x, meta_name x ≠ Some "jamwidgets-site-key") pre →
  (meta_name m = Some "jamwidgets-site-key" →
   meta_siteKey <$> getConfigFromMeta (Some (pre ++ m :: post))
   = truthy (meta_content m))
  ∧ (Forall (λ x, meta_name x ≠ Some "seriph-site-key") pre →
     Forall (λ x, meta_name x ≠ Some "jamwidgets-site-key") (m :: post) →
     meta_name m = Some "seriph-site-key" →
     meta_siteKey <$> getConfigFromMeta (Some (pre ++ m :: post))
     = truthy (meta_content m)).
Proof.
  intros Hpre. split.
  - intros Hm. unfold getConfigFromMeta.
    rewrite (querySelector_meta_first pre post m _ Hpre Hm). cbn.
    by destruct (truthy (meta_content m)).
  - intros Hlegacy Hnew Hm. unfold getConfigFromMeta.
    rewrite (querySelector_meta_none (pre ++ m :: post) "jamwidgets-site-key")
      by (apply Forall_app; by split).
    rewrite (querySelector_meta_first pre post m _ Hlegacy Hm). cbn.
    by destruct (truthy (meta_content m)).
Qed.

Lemma meta_site_key_precedence_witness :
  meta_siteKey <$> getConfigFromMeta
    (Some [ {| meta_name := Some "seriph-site-key"; meta_content := Some "old" |};
            {| meta_name := Some "jamwidgets-site-key"; meta_content := None |} ])
  = None.
Proof.
  exact (proj1 (meta_site_key_precedence
    [ {| meta_name := Some "seriph-site-key"; meta_content := Some "old" |} ] []
    {| meta_name := Some "jamwidgets-site-key"; meta_content := None |}
    ltac:(constructor; [discriminate|constructor])) eq_refl).
Defined.

Lemma getConfigFromMeta_nonempty (d : option (list MetaTag)) (mc : MetaConfig) :
  getConfigFromMeta d = Some mc →
  meta_siteKey mc ≠ "" ∧ meta_endpoint mc ≠ Some "".
Proof.
  unfold getConfigFromMeta. destruct d as [doc|]; [|done].
  destruct (truthy (_ ≫= meta_content)) as [k|] eqn:E; [|done].
  intros H. injection H as <-. cbn. split; [by eapply truthy_nonempty|].
  intros He. by apply truthy_nonempty in He.
Qed.

Lemma getSiteKey_nonempty (c : JamWidgetsConfig) (d : option (list MetaTag)) (k : string) :
  getSiteKey c d = Returned k → k ≠ "".
Proof.
  unfold getSiteKey. destruct (truthy (Some (siteKey c))) as [k1|] eqn:E1.
  - intros [= <-]. by eapply truthy_nonempty.
  - destruct (truthy (meta_siteKey <$> getConfigFromMeta d)) as [k2|] eqn:E2; [|done].
    intros [= <-]. by eapply truthy_nonempty.
Qed.

(** X15.  [getSiteKey] never returns an empty key: it returns the key of the
    config when that is non-empty, otherwise the key of the meta tags, and
    it throws, always the same error, exactly when the config key is empty
    and the meta tags give none. *)
Theorem getSiteKey_result (config : JamWidgetsConfig) (document : option (list MetaTag)) :
  match getSiteKey config document with
  | Returned key =>
      key ≠ ""
      ∧ (siteKey config ≠ "" → key = siteKey config)
      ∧ (siteKey config = "" →
         meta_siteKey <$> getConfigFromMeta document = Some key)
  | Threw error =>
      error = siteKey_required
      ∧ siteKey config = ""
      ∧ getConfigFromMeta document = None
  end.
Proof.
  unfold getSiteKey. destruct config as [[|c k] e]; cbn.
  - destruct (getConfigFromMeta document) as [mc|] eqn:E; cbn; [|done].
    destruct (getConfigFromMeta_nonempty document mc E) as [Hk _].
    destruct (meta_siteKey mc) as [|c k]; [done|]. by repeat split.
  - repeat split; done.
Qed.

(** X16.  [resolveConfig] throws, always the same error, exactly when
    neither its argument nor the meta tags give a site key.  Otherwise the
    config it returns has the argument's site key when that is non-empty
    and else the one of the meta tags, and likewise for the endpoint; its
    site key is never empty, its endpoint is absent or non-empty, and
    [getSiteKey] accepts it with that key whatever the document holds. *)
Theorem resolveConfig_result (config : PartialConfig)
    (document other : option (list MetaTag)) :
  ((∃ error, resolveConfig config document = Threw error)
   ↔ truthy (partial_siteKey config) = None ∧ getConfigFromMeta document = None)
  ∧ match resolveConfig config document with
    | Returned resolved =>
        siteKey resolved ≠ ""
        ∧ endpoint resolved ≠ Some ""
        ∧ getSiteKey resolved other = Returned (siteKey resolved)
        ∧ Some (siteKey resolved)
          = match truthy (partial_siteKey config) with
            | Some k => Some k
            | None => meta_siteKey <$> getConfigFromMeta document
            end
        ∧ endpoint resolved
          = match truthy (partial_endpoint config) with
            | Some e => Some e
            | None => getConfigFromMeta document ≫= meta_endpoint
            end
    | Threw error => error = siteKey_required
    end.
Proof.
  unfold resolveConfig.
  destruct (truthy (partial_siteKey config)) as [k|] eqn:Ek.
  - pose proof (truthy_nonempty _ _ Ek) as Hk.
    destruct k as [|c k]; [done|]. cbn. split.
    { split; [by intros [? [=]]|by intros [[=] _]]. }
    split; [done|]. split; [|by repeat split].
    destruct (truthy (partial_endpoint config)) as [e|] eqn:Ee.
    + intros H. injection H as ->. by apply truthy_nonempty in Ee.
    + destruct (getConfigFromMeta document) as [mc|] eqn:E; [|done].
      apply (getConfigFromMeta_nonempty document mc E).
  - destruct (getConfigFromMeta document) as [mc|] eqn:E; cbn.
    + destruct (getConfigFromMeta_nonempty document mc E) as [Hk He].
      destruct (meta_siteKey mc) as [|c k] eqn:Em; [done|]. cbn. split.
      { split; [by intros [? [=]]|by intros [_ [=]]]. }
      split; [done|]. split; [|by repeat split].
      destruct (truthy (partial_endpoint config)) as [e|] eqn:Ee; [|done].
      intros H. injection H as ->. by apply truthy_nonempty in Ee.
    + split; [|done]. split; [done|]. intros _. by eexists.
Qed.

(** ** Visitor identity *)

Lemma uuid_digit_x (r : fin 16) : hex_digit_lower (uuid_digit "x" r) = true.
Proof.
  revert r.
  refine (bool_decide_unpack (∀ r : fin 16, hex_digit_lower (uuid_digit "x" r) = true) _).
  by vm_compute.
Qed.

Lemma uuid_digit_y (r : fin 16) :
  bool_decide (uuid_digit "y" r ∈ ["8"; "9"; "a"; "b"]%char) = true.
Proof.
  revert r.
  refine (bool_decide_unpack
            (∀ r : fin 16, bool_decide (uuid_digit "y" r ∈ ["8"; "9"; "a"; "b"]%char) = true) _).
  by vm_compute.
Qed.

(** X17.  Where [crypto.randomUUID] is missing, [generateUUID] returns a
    string of the version-4 shape whatever [Math.random] gives, and calls
    [Math.random] 31 times. *)
Theorem generateUUID_fallback_shape (env : Env) :
  randomUUID env = None →
  uuid_v4 (generateUUID env).2 = true
  ∧ random_calls (generateUUID env).1 = random_calls env + 31
  ∧ uuid_calls (generateUUID env).1 = uuid_calls env.
Proof.
  intros H. unfold generateUUID. rewrite H. cbn [fst snd].
  split; [|by split].
  generalize (random16 env) (random_calls env). intros rand i.
  unfold uuid_template.
  cbn [replace_xy Ascii.eqb Bool.eqb orb].
  unfold uuid_v4. cbn [String.length Nat.eqb andb uuid_v4_from].
  unfold uuid_v4_char.
  repeat first [ rewrite uuid_digit_x | rewrite uuid_digit_y ].
  by vm_compute.
Qed.

Lemma generateUUID_fallback_shape_witness :
  uuid_v4 (generateUUID
    (mkEnv None None NoStorage None (λ n, nat_to_fin (Nat.mod_upper_bound (7 * n) 16 ltac:(lia))) 0 5 0)).2
  = true.
Proof. apply generateUUID_fallback_shape. reflexivity. Defined.

Lemma truthy_Some (s : string) : s ≠ "" → truthy (Some s) = Some s.
Proof. by destruct s. Qed.

Lemma generateUUID_nonempty (env : Env) :
  (∀ uuid n, randomUUID env = Some uuid → uuid n ≠ "") →
  (generateUUID env).2 ≠ "".
Proof.
  intros H. unfold generateUUID. destruct (randomUUID env) as [uuid|] eqn:E; cbn.
  - by apply H.
  - discriminate.
Qed.

Lemma generateUUID_keeps (env : Env) :
  customVisitorId (generateUUID env).1 = customVisitorId env
  ∧ localStorage (generateUUID env).1 = localStorage env
  ∧ env_document (generateUUID env).1 = env_document env.
Proof. unfold generateUUID. by destruct (randomUUID env). Qed.

(** X18.  With no custom visitor id and a [localStorage] that can be read
    and written, [getVisitorId] returns an id, and calling it again returns
    the same id and changes nothing: the second call generates no UUID and
    writes nothing.  (The ids [crypto.randomUUID] returns are taken to be
    non-empty.) *)
Theorem getVisitorId_stable (env : Env) (items : gmap string string) :
  truthy (customVisitorId env) = None →
  localStorage env = Items items None →
  (∀ uuid n, randomUUID env = Some uuid → uuid n ≠ "") →
  ∃ id, (getVisitorId env).2 = Ok id
        ∧ id ≠ ""
        ∧ getVisitorId (getVisitorId env).1 = ((getVisitorId env).1, Ok id).
Proof.
  intros Hc Hs Hu. unfold getVisitorId at 1 3 4. rewrite Hc, Hs.
  destruct (truthy (items !! VISITOR_STORAGE_KEY)) as [v|] eqn:Ev.
  - exists v. cbn [fst snd]. split; [done|]. split; [by eapply truthy_nonempty|].
    unfold getVisitorId. by rewrite Hc, Hs, Ev.
  - pose proof (generateUUID_nonempty env Hu) as Hne.
    destruct (generateUUID_keeps env) as (Hk & _ & _).
    destruct (generateUUID env) as [env1 id]. cbn [fst snd] in *.
    exists id. split; [done|]. split; [done|].
    unfold getVisitorId. cbn. rewrite Hk, Hc.
    by rewrite lookup_insert_eq, (truthy_Some id Hne).
Qed.

Lemma getVisitorId_stable_witness :
  ∃ id, (getVisitorId (mkEnv None None (Items ∅ None) (Some (λ n, "uuid-" +:+ pretty n))
                         (λ _, 0%fin) 0 0 0)).2 = Ok id
        ∧ id ≠ ""
        ∧ getVisitorId (getVisitorId (mkEnv None None (Items ∅ None)
                                        (Some (λ n, "uuid-" +:+ pretty n))
                                        (λ _, 0%fin) 0 0 0)).1
          = ((getVisitorId (mkEnv None None (Items ∅ None)
                              (Some (λ n, "uuid-" +:+ pretty n))
                              (λ _, 0%fin) 0 0 0)).1, Ok id).
Proof.
  apply (getVisitorId_stable _ ∅); [reflexivity|reflexivity|].
  intros uuid n [= <-]. discriminate.
Defined.

(** X19.  A non-empty custom visitor id set with [setVisitorId] is what
    [getVisitorId] returns, whatever [localStorage] is, even one that throws
    on access, without generating a UUID or touching the storage.  Setting
    [null] or the empty string, whatever custom id was set before, makes
    [getVisitorId] do what it does where there is no custom id: the same
    result, the same storage, the same use of the random sources. *)
Theorem custom_visitor_id_wins (env : Env) (id : option string) :
  (∀ v, truthy id = Some v →
        getVisitorId (setVisitorId id env) = (setVisitorId id env, Ok v))
  ∧ (truthy id = None →
     let cleared := mkEnv (env_document env) None (localStorage env) (randomUUID env)
                          (random16 env) (uuid_calls env) (random_calls env) (now env) in
     (getVisitorId (setVisitorId id env)).2 = (getVisitorId cleared).2
     ∧ localStorage (getVisitorId (setVisitorId id env)).1
       = localStorage (getVisitorId cleared).1
     ∧ uuid_calls (getVisitorId (setVisitorId id env)).1
       = uuid_calls (getVisitorId cleared).1
     ∧ random_calls (getVisitorId (setVisitorId id env)).1
       = random_calls (getVisitorId cleared).1).
Proof.
  split.
  - intros v Hv. unfold getVisitorId, setVisitorId. cbn. by rewrite Hv.
  - intros Hid. destruct env as [d c st ru r16 uc rc n].
    unfold getVisitorId, setVisitorId. cbn. rewrite Hid.
    destruct st as [|e|items thr]; [| cbn; by repeat split |].
    + unfold generateUUID. cbn. destruct ru; cbn; by repeat split.
    + destruct (truthy (items !! VISITOR_STORAGE_KEY)); [cbn; by repeat split|].
      unfold generateUUID. cbn.
      destruct ru; destruct thr; cbn; by repeat split.
Qed.

Lemma custom_visitor_id_wins_witness :
  (getVisitorId
     (setVisitorId None
        (mkEnv None (Some "user-1") (Items {[ VISITOR_STORAGE_KEY := "stored" ]} None)
               None (λ _, 0%fin) 0 0 0))).2
  = Ok "stored".
Proof.
  etrans.
  - exact (proj1 (proj2 (custom_visitor_id_wins
             (mkEnv None (Some "user-1")
                    (Items {[ VISITOR_STORAGE_KEY := "stored" ]} None)
                    None (λ _, 0%fin) 0 0 0) None) eq_refl)).
  - reflexivity.
Defined.

(** X20.  [getHeaders] never throws.  Where [localStorage] throws on access
    it sends a newly generated id with every call; where only [setItem]
    throws it generates two ids per call, dropping the one it could not
    store and sending the second. *)
Theorem getHeaders_storage_failure (siteKey : string) (env : Env)
    (uuid : nat → string) :
  truthy (customVisitorId env) = None →
  randomUUID env = Some uuid →
  (∀ e, localStorage env = Blocked e →
        visitor_header (getHeaders siteKey env).2 = Some (uuid (uuid_calls env))
        ∧ uuid_calls (getHeaders siteKey env).1 = S (uuid_calls env))
  ∧ (∀ items e, localStorage env = Items items (Some e) →
        truthy (items !! VISITOR_STORAGE_KEY) = None →
        visitor_header (getHeaders siteKey env).2 = Some (uuid (S (uuid_calls env)))
        ∧ uuid_calls (getHeaders siteKey env).1 = S (S (uuid_calls env))
        ∧ localStorage (getHeaders siteKey env).1 = localStorage env).
Proof.
  intros Hc Hu. split.
  - intros e Hs. unfold getHeaders, getVisitorId. rewrite Hc, Hs.
    unfold generateUUID. rewrite Hu. by cbn.
  - intros items e Hs Hv. unfold getHeaders, getVisitorId. rewrite Hc, Hs, Hv.
    unfold generateUUID. rewrite Hu. cbn. rewrite Hu. by cbn.
Qed.

Lemma getHeaders_storage_failure_witness :
  visitor_header
    (getHeaders "sk" (mkEnv None None (Items ∅ (Some (VString "QuotaExceededError")))
                        (Some (λ n, "uuid-" +:+ pretty n)) (λ _, 0%fin) 0 0 0)).2
  = Some "uuid-1".
Proof.
  exact (proj1 (proj2 (getHeaders_storage_failure "sk"
    (mkEnv None None (Items ∅ (Some (VString "QuotaExceededError")))
       (Some (λ n, "uuid-" +:+ pretty n)) (λ _, 0%fin) 0 0 0)
    (λ n, "uuid-" +:+ pretty n) eq_refl eq_refl) ∅ _ eq_refl eq_refl)).
Defined.

(** ** The request functions *)

Lemma getHeaders_shape (k : string) (env : Env) :
  ∃ env1 v, getHeaders k env
            = (env1, [ ("X-Jamwidgets-Key", k); ("X-Jamwidgets-Visitor", v);
                       ("X-Seriph-Key", k); ("X-Seriph-Visitor", v) ]).
Proof.
  unfold getHeaders. destruct (getVisitorId env) as [env1 [v|e]].
  - by exists env1, v.
  - destruct (generateUUID env1) as [env2 v]. by exists env2, v.
Qed.

Ltac api_unfold :=
  unfold perform, Api.subscribe, Api.joinWaitlist, Api.submitForm, Api.fetchReactions,
    Api.addReaction, Api.removeReaction, Api.reaction_request, Api.fetchComments,
    Api.postComment, Api.submitFeedback, Api.fetchPoll, Api.votePoll,
    Api.fetchAnnouncements, Api.dismissAnnouncement, Api.getViewCounts, Api.recordView,
    Api.fetchPost in *.

Ltac api_headers k env :=
  let env1 := fresh "env1" in
  let v := fresh "v" in
  let Hh := fresh "Hh" in
  destruct (getHeaders_shape k env) as (env1 & v & Hh); rewrite Hh in *.

(** X21.  A request function that finds no site key, neither in its options
    nor in the meta tags, rejects with the site-key error before it calls
    [fetch], and leaves the visitor id alone: nothing is generated or
    stored. *)
Theorem missing_site_key_rejects (rq : Request) (env : Env) :
  siteKey (request_config rq) = "" →
  getConfigFromMeta (env_document env) = None →
  perform rq env = (env, Fails siteKey_required)
  ∧ ∀ slug, Api.fetchPost (request_config rq) slug env = (env, Fails siteKey_required).
Proof.
  intros Hk Hm.
  assert (getSiteKey (request_config rq) (env_document env) = Threw siteKey_required) as E.
  { unfold getSiteKey. by rewrite Hk, Hm. }
  split; [|intros slug; unfold Api.fetchPost; by rewrite E].
  destruct rq; cbn [request_config] in E; api_unfold; by rewrite E.
Qed.

Lemma missing_site_key_rejects_witness :
  perform (fetchPoll_rq {| siteKey := ""; endpoint := None |} "lunch")
          (mkEnv (Some []) None (Items ∅ None) None (λ _, 0%fin) 0 0 0)
  = (mkEnv (Some []) None (Items ∅ None) None (λ _, 0%fin) 0 0 0, Fails siteKey_required).
Proof.
  exact (proj1 (missing_site_key_rejects
    (fetchPoll_rq {| siteKey := ""; endpoint := None |} "lunch")
    (mkEnv (Some []) None (Items ∅ None) None (λ _, 0%fin) 0 0 0) eq_refl eq_refl)).
Defined.

(** X22.  Every request a controller sends carries the site key found by
    [getSiteKey], never empty, under both header names, and one visitor id
    under both header names; it declares a JSON content type exactly when it
    has a body, and a request with a body is a POST or a DELETE. *)
Theorem request_identity_headers (rq : Request) (env env' : Env)
    (hrq : HttpRequest) (h : Outcome HttpResponse → Settlement ApiValue) :
  perform rq env = (env', Fetches hrq h) →
  ∃ k v,
    getSiteKey (request_config rq) (env_document env) = Returned k
    ∧ k ≠ ""
    ∧ getHeaders k env
      = (env', [ ("X-Jamwidgets-Key", k); ("X-Jamwidgets-Visitor", v);
                 ("X-Seriph-Key", k); ("X-Seriph-Visitor", v) ])
    ∧ header "X-Jamwidgets-Key" hrq = Some k
    ∧ header "X-Seriph-Key" hrq = Some k
    ∧ header "X-Jamwidgets-Visitor" hrq = Some v
    ∧ header "X-Seriph-Visitor" hrq = Some v
    ∧ header "Content-Type" hrq = (body hrq ≫= λ _, Some "application/json")
    ∧ (is_Some (body hrq) → method hrq = Some "POST" ∨ method hrq = Some "DELETE").
Proof.
  intros H.
  destruct (getSiteKey (request_config rq) (env_document env)) as [k|e] eqn:Ek.
  2: { destruct rq; cbn [request_config] in Ek; api_unfold; rewrite Ek in H;
       discriminate H. }
  pose proof (getSiteKey_nonempty _ _ _ Ek) as Hne.
  exists k.
  destruct rq; cbn [request_config] in Ek; api_unfold; rewrite Ek in H;
    api_headers k env; injection H as <- <- _; eexists;
    (split; [reflexivity|]); (split; [exact Hne|]); (split; [reflexivity|]);
    repeat split; try reflexivity; cbn; first [ by left | by right | by intros [? [=]] ].
Qed.

Lemma request_identity_headers_witness :
  ∃ k v,
    getSiteKey {| siteKey := "sk"; endpoint := None |} None = Returned k
    ∧ k ≠ ""
    ∧ getHeaders k (mkEnv None (Some "user-1") NoStorage None (λ _, 0%fin) 0 0 0)
      = (mkEnv None (Some "user-1") NoStorage None (λ _, 0%fin) 0 0 0,
         [ ("X-Jamwidgets-Key", k); ("X-Jamwidgets-Visitor", v);
           ("X-Seriph-Key", k); ("X-Seriph-Visitor", v) ])
    ∧ header "X-Jamwidgets-Key"
        (default (Build_HttpRequest "" None [] None)
           (request_of (perform (recordView_rq {| siteKey := "sk"; endpoint := None |} "/a")
              (mkEnv None (Some "user-1") NoStorage None (λ _, 0%fin) 0 0 0)))) = Some k.
Proof.
  destruct (request_identity_headers
    (recordView_rq {| siteKey := "sk"; endpoint := None |} "/a")
    (mkEnv None (Some "user-1") NoStorage None (λ _, 0%fin) 0 0 0) _ _ _ eq_refl)
    as (k & v & H1 & H2 & H3 & H4 & _).
  exists k, v. repeat split; assumption.
Defined.

(** X23.  Whatever request a controller sends, a rejection of [fetch]
    passes through unchanged, and a response that is not [ok] rejects with
    an [Error] whose message is the label of the request function, a colon
    and the status text: the status code and the body of the response play
    no part. *)
Theorem failed_response_rejects (rq : Request) (env env' : Env)
    (hrq : HttpRequest) (h : Outcome HttpResponse → Settlement ApiValue) :
  perform rq env = (env', Fetches hrq h) →
  (∀ e, h (Rejected e) = RejectedWith e)
  ∧ (∀ response, ok response = false →
       h (Resolved response)
       = RejectedWith (VError (new_Error (failure_label rq +:+ ": "
                                          +:+ statusText response)))).
Proof.
  intros H.
  destruct (getSiteKey (request_config rq) (env_document env)) as [k|e] eqn:Ek.
  2: { destruct rq; cbn [request_config] in Ek; api_unfold; rewrite Ek in H;
       discriminate H. }
  destruct rq; cbn [request_config] in Ek; api_unfold; rewrite Ek in H;
    api_headers k env; injection H as _ _ <-;
    (split; [done|]); intros response Hok; unfold Api.check_ok; by rewrite Hok.
Qed.

Lemma failed_response_rejects_witness :
  match (perform (votePoll_rq {| siteKey := "sk"; endpoint := None |} "lunch" ["a"])
           (mkEnv None (Some "user-1") NoStorage None (λ _, 0%fin) 0 0 0)).2 with
  | Fetches _ h =>
      h (Resolved (Build_HttpResponse 500 "Internal Server Error" (Resolved JNull)))
      = RejectedWith (VError (new_Error "Failed to vote: Internal Server Error"))
  | Fails _ => False
  end.
Proof.
  destruct (perform (votePoll_rq {| siteKey := "sk"; endpoint := None |} "lunch" ["a"])
              (mkEnv None (Some "user-1") NoStorage None (λ _, 0%fin) 0 0 0))
    as [env' [e|hrq h]] eqn:E.
  - vm_compute in E. discriminate E.
  - exact (proj2 (failed_response_rejects _ _ env' hrq h E)
             (Build_HttpResponse 500 "Internal Server Error" (Resolved JNull)) eq_refl).
Defined.

(** X24.  [fetchPost] resolves with [null] on a 404 whatever the rest of
    the response; any other response that is not [ok] rejects with a message
    that holds the status code and the status text; and when it resolves,
    it never resolves with [undefined].  The request is a GET without
    body. *)
Theorem fetchPost_settles (config : JamWidgetsConfig) (slug : string) (env env' : Env)
    (hrq : HttpRequest) (h : Outcome HttpResponse → Settlement ApiValue) :
  Api.fetchPost config slug env = (env', Fetches hrq h) →
  (∀ response, http_status response = 404%Z →
     h (Resolved response) = Fulfilled (AJson (Some JNull)))
  ∧ (∀ response, ok response = false → http_status response ≠ 404%Z →
       h (Resolved response)
       = RejectedWith (VError (new_Error
           ("Failed to fetch post: " +:+ pretty (http_status response)
            +:+ " " +:+ statusText response))))
  ∧ (∀ o r, h o = Fulfilled r → ∃ v, r = AJson (Some v))
  ∧ method hrq = None ∧ body hrq = None.
Proof.
  intros H. unfold Api.fetchPost in H.
  destruct (getSiteKey config (env_document env)) as [k|e]; [|discriminate H].
  api_headers k env. injection H as _ <- <-. repeat split.
  - intros response ->. done.
  - intros response Hok Hs. apply Z.eqb_neq in Hs. by rewrite Hs, Hok.
  - intros [response|e] r; [|done].
    destruct (http_status response =? 404)%Z; [intros [= <-]; by eexists|].
    destruct (ok response); [|done]. unfold Api.with_json.
    destruct (json response) as [data|e]; [|done].
    destruct (get_member data "public_post") as [m|]; [|done].
    intros [= <-]. unfold js_or. destruct (js_truthy m) eqn:Em; [|by eexists].
    destruct m; [by eexists|done].
Qed.

Lemma fetchPost_settles_witness :
  match (Api.fetchPost {| siteKey := "sk"; endpoint := None |} "hello"
           (mkEnv None (Some "user-1") NoStorage None (λ _, 0%fin) 0 0 0)).2 with
  | Fetches _ h =>
      h (Resolved (Build_HttpResponse 404 "Not Found" (Rejected VUndefined)))
      = Fulfilled (AJson (Some JNull))
  | Fails _ => False
  end.
Proof.
  destruct (Api.fetchPost {| siteKey := "sk"; endpoint := None |} "hello"
              (mkEnv None (Some "user-1") NoStorage None (λ _, 0%fin) 0 0 0))
    as [env' [e|hrq h]] eqn:E.
  - vm_compute in E. discriminate E.
  - exact (proj1 (fetchPost_settles _ _ _ env' hrq h E)
             (Build_HttpResponse 404 "Not Found" (Rejected VUndefined)) eq_refl).
Defined.

(** X25.  [fetchComments] and [fetchAnnouncements], on an [ok] response
    whose JSON is not [null], resolve with the list member when it is truthy
    and with a new empty array otherwise: never with [undefined] or [null].
    On a JSON [null] they reject with a TypeError. *)
Theorem list_requests_default_to_empty (rq : Request) (key : string) (env env' : Env)
    (hrq : HttpRequest) (h : Outcome HttpResponse → Settlement ApiValue)
    (response : HttpResponse) (data : Json) :
  perform rq env = (env', Fetches hrq h) →
  list_member rq = Some key →
  ok response = true →
  json response = Resolved data →
  match get_member data key with
  | None => data = JNull ∧ h (Resolved response) = RejectedTypeError
  | Some v =>
      ∃ list, h (Resolved response) = Fulfilled (AJson (Some list))
              ∧ js_truthy (Some list) = true
              ∧ (js_truthy v = true → v = Some list)
              ∧ (js_truthy v = false → list = JArr [])
  end.
Proof.
  intros H Hkey Hok Hjson.
  destruct (getSiteKey (request_config rq) (env_document env)) as [k|e] eqn:Ek.
  2: { destruct rq; cbn [request_config] in Ek; api_unfold; rewrite Ek in H;
       discriminate H. }
  destruct rq; try discriminate Hkey; injection Hkey as <-;
    cbn [request_config] in Ek; api_unfold; rewrite Ek in H;
    api_headers k env; injection H as _ _ <-;
    unfold Api.check_ok, Api.with_json, Api.return_member_or_empty;
    rewrite Hok, Hjson.
  all: destruct (get_member data _) as [m|] eqn:Em;
    [|split; [by destruct data|done]].
  all: unfold js_or; destruct (js_truthy m) eqn:Et.
  all: try (destruct m as [list|]; [|done]; exists list; by repeat split).
  all: exists (JArr []); by repeat split.
Qed.

Lemma list_requests_default_to_empty_witness :
  match (perform (fetchAnnouncements_rq {| siteKey := "sk"; endpoint := None |})
           (mkEnv None (Some "user-1") NoStorage None (λ _, 0%fin) 0 0 0)).2 with
  | Fetches _ h =>
      ∃ list, h (Resolved (Build_HttpResponse 200 "OK" (Resolved (JObj ∅))))
              = Fulfilled (AJson (Some list))
              ∧ list = JArr []
  | Fails _ => False
  end.
Proof.
  destruct (perform (fetchAnnouncements_rq {| siteKey := "sk"; endpoint := None |})
              (mkEnv None (Some "user-1") NoStorage None (λ _, 0%fin) 0 0 0))
    as [env' [e|hrq h]] eqn:E.
  - vm_compute in E. discriminate E.
  - destruct (list_requests_default_to_empty _ "announcements" _ env' hrq h
                (Build_HttpResponse 200 "OK" (Resolved (JObj ∅))) (JObj ∅)
                E eq_refl eq_refl eq_refl) as (list & H1 & _ & _ & H2).
    exists list. split; [exact H1|]. by apply H2.
Defined.

(** X26.  The request functions that return one member of the response's
    JSON do not check that it is there: on an [ok] response whose JSON is an
    object without that member they resolve with [undefined], and they
    reject, with a TypeError, only on a JSON [null]. *)
Theorem missing_member_resolves_undefined (rq : Request) (key : string) (env env' : Env)
    (hrq : HttpRequest) (h : Outcome HttpResponse → Settlement ApiValue)
    (response : HttpResponse) (data : Json) :
  perform rq env = (env', Fetches hrq h) →
  response_member rq = Some key →
  ok response = true →
  json response = Resolved data →
  (data = JNull → h (Resolved response) = RejectedTypeError)
  ∧ (∀ members, data = JObj members →
       h (Resolved response) = Fulfilled (AJson (members !! key)))
  ∧ (h (Resolved response) = RejectedTypeError → data = JNull).
Proof.
  intros H Hkey Hok Hjson.
  destruct (getSiteKey (request_config rq) (env_document env)) as [k|e] eqn:Ek.
  2: { destruct rq; cbn [request_config] in Ek; api_unfold; rewrite Ek in H;
       discriminate H. }
  destruct rq; try discriminate Hkey; injection Hkey as <-;
    cbn [request_config] in Ek; api_unfold; rewrite Ek in H;
    api_headers k env; injection H as _ _ <-;
    unfold Api.check_ok, Api.with_json, Api.return_member;
    rewrite Hok, Hjson.
  all: repeat split; [by intros -> | by intros members -> | by destruct data].
Qed.

Lemma missing_member_resolves_undefined_witness :
  match (perform (fetchPoll_rq {| siteKey := "sk"; endpoint := None |} "lunch")
           (mkEnv None (Some "user-1") NoStorage None (λ _, 0%fin) 0 0 0)).2 with
  | Fetches _ h =>
      h (Resolved (Build_HttpResponse 200 "OK" (Resolved (JObj ∅))))
      = Fulfilled (AJson None)
  | Fails _ => False
  end.
Proof.
  destruct (perform (fetchPoll_rq {| siteKey := "sk"; endpoint := None |} "lunch")
              (mkEnv None (Some "user-1") NoStorage None (λ _, 0%fin) 0 0 0))
    as [env' [e|hrq h]] eqn:E.
  - vm_compute in E. discriminate E.
  - exact (proj1 (proj2 (missing_member_resolves_undefined _ "poll_with_results" _ env'
             hrq h (Build_HttpResponse 200 "OK" (Resolved (JObj ∅))) (JObj ∅)
             E eq_refl eq_refl eq_refl)) ∅ eq_refl).
Defined.

(** X27.  [fetchReactions], on an [ok] response, rejects with a TypeError
    exactly when the JSON is [null] or its [reaction_counts_with_user] is
    missing or [null]; otherwise it resolves with that member's properties
    and a [userReactions] that is truthy, a new empty array standing in for
    a missing or falsy one. *)
Theorem fetchReactions_needs_envelope (config : JamWidgetsConfig) (pageId : string)
    (env env' : Env) (hrq : HttpRequest)
    (h : Outcome HttpResponse → Settlement ApiValue)
    (response : HttpResponse) (data : Json) :
  Api.fetchReactions config pageId env = (env', Fetches hrq h) →
  ok response = true →
  json response = Resolved data →
  match get_member data "reaction_counts_with_user" with
  | None | Some None | Some (Some JNull) => h (Resolved response) = RejectedTypeError
  | Some (Some result) =>
      ∃ userReactions,
        h (Resolved response) = Fulfilled (AReactions result userReactions)
        ∧ js_truthy (Some userReactions) = true
        ∧ (∀ members, result = JObj members →
             userReactions
             = if js_truthy (members !! "userReactions")
               then default JNull (members !! "userReactions") else JArr [])
  end.
Proof.
  intros H Hok Hjson. unfold Api.fetchReactions in H.
  destruct (getSiteKey config (env_document env)) as [k|e]; [|discriminate H].
  api_headers k env. injection H as _ _ <-.
  unfold Api.check_ok, Api.with_json. rewrite Hok, Hjson.
  destruct (get_member data "reaction_counts_with_user") as [[result|]|]; [|done..].
  destruct result as [|b|n|s|items|members]; [done|..];
    cbn [get_member]; unfold js_or.
  1-4: eexists; split; [reflexivity|]; split; [done|]; intros ? [=].
  destruct (js_truthy (members !! "userReactions")) eqn:Et.
  - destruct (members !! "userReactions") as [ur|] eqn:Eu; [|done].
    exists ur. split; [done|]. split; [done|].
    intros ? [= <-]. by rewrite Eu, Et.
  - exists (JArr []). split; [done|]. split; [done|].
    intros ? [= <-]. by rewrite Et.
Qed.

Lemma fetchReactions_needs_envelope_witness :
  match (Api.fetchReactions {| siteKey := "sk"; endpoint := None |} "/a"
           (mkEnv None (Some "user-1") NoStorage None (λ _, 0%fin) 0 0 0)).2 with
  | Fetches _ h =>
      h (Resolved (Build_HttpResponse 200 "OK" (Resolved (JObj ∅)))) = RejectedTypeError
  | Fails _ => False
  end.
Proof.
  destruct (Api.fetchReactions {| siteKey := "sk"; endpoint := None |} "/a"
              (mkEnv None (Some "user-1") NoStorage None (λ _, 0%fin) 0 0 0))
    as [env' [e|hrq h]] eqn:E.
  - vm_compute in E. discriminate E.
  - exact (fetchReactions_needs_envelope _ _ _ env' hrq h
             (Build_HttpResponse 200 "OK" (Resolved (JObj ∅))) (JObj ∅)
             E eq_refl eq_refl).
Defined.

Lemma generateUUID_now (env : Env) : now (generateUUID env).1 = now env.
Proof. unfold generateUUID. by destruct (randomUUID env). Qed.

Lemma getVisitorId_now (env : Env) : now (getVisitorId env).1 = now env.
Proof.
  unfold getVisitorId. destruct (truthy (customVisitorId env)); [done|].
  pose proof (generateUUID_now env) as Hg.
  destruct (localStorage env) as [|e|items thr]; [| done |].
  - by destruct (generateUUID env).
  - destruct (truthy (items !! VISITOR_STORAGE_KEY)); [done|].
    destruct (generateUUID env). by destruct thr.
Qed.

Lemma getHeaders_now (k : string) (env : Env) : now (getHeaders k env).1 = now env.
Proof.
  unfold getHeaders. pose proof (getVisitorId_now env) as Hv.
  destruct (getVisitorId env) as [env1 [v|e]]; [done|].
  pose proof (generateUUID_now env1) as Hg.
  destruct (generateUUID env1). cbn in *. congruence.
Qed.

(** X28.  The body [submitForm] sends holds, under [_seriph_ts], the form's
    load time when that is not zero and otherwise the current time in whole
    seconds, whatever the form data say under that name; every other field
    of the data is sent as it is, a field whose value is [undefined] being
    left out. *)
Theorem submitForm_timestamp (config : JamWidgetsConfig) (formSlug : string)
    (data : gmap string JsValue) (formLoadTime : option Z) (env env' : Env)
    (hrq : HttpRequest) (h : Outcome HttpResponse → Settlement ApiValue) :
  Api.submitForm config formSlug data formLoadTime env = (env', Fetches hrq h) →
  ∃ payload,
    body hrq = Some (JObj payload)
    ∧ payload !! "_seriph_ts"
      = Some (JInt (match formLoadTime with
                    | Some t => if (t =? 0)%Z then (now env `div` 1000)%Z else t
                    | None => (now env `div` 1000)%Z
                    end))
    ∧ (∀ field, field ≠ "_seriph_ts" → payload !! field = data !! field ≫= to_json)
    ∧ now env' = now env.
Proof.
  intros H. unfold Api.submitForm in H.
  destruct (getSiteKey config (env_document env)) as [k|e]; [|discriminate H].
  pose proof (getHeaders_now k env) as Hnow.
  destruct (getHeaders k env) as [env1 hs]. cbn [fst] in Hnow.
  injection H as <- <- _. eexists. split; [reflexivity|]. split.
  - by rewrite lookup_insert_eq.
  - split; [|done]. intros field Hf.
    rewrite lookup_insert_ne by done. by rewrite lookup_omap.
Qed.

Lemma submitForm_timestamp_witness :
  match request_of (Api.submitForm {| siteKey := "sk"; endpoint := None |} "contact"
                      {[ "_seriph_ts" := VString "forged" ]} (Some 0%Z)
                      (mkEnv None (Some "user-1") NoStorage None (λ _, 0%fin) 0 0 1700000000999)) with
  | Some hrq => ∃ payload, body hrq = Some (JObj payload)
                           ∧ payload !! "_seriph_ts" = Some (JInt 1700000000)
  | None => False
  end.
Proof.
  unfold request_of.
  destruct (Api.submitForm {| siteKey := "sk"; endpoint := None |} "contact"
              {[ "_seriph_ts" := VString "forged" ]} (Some 0%Z)
              (mkEnv None (Some "user-1") NoStorage None (λ _, 0%fin) 0 0 1700000000999))
    as [env' [e|hrq h]] eqn:E.
  - vm_compute in E. discriminate E.
  - destruct (submitForm_timestamp _ _ _ _ _ env' hrq h E) as (payload & H1 & H2 & _).
    exists payload. split; [exact H1|exact H2].
Defined.

(** X29.  The poll slug enters the URL as it is, not encoded: fetching the
    poll whose slug is [slug] followed by [/vote] asks for the URL that a
    vote on the poll [slug] is posted to. *)
Theorem poll_slug_not_encoded (config : JamWidgetsConfig) (slug : string)
    (selectedOptions : list string) (env : Env) :
  url <$> request_of (Api.fetchPoll config (slug +:+ "/vote") env)
  = url <$> request_of (Api.votePoll config slug selectedOptions env).
Proof.
  unfold Api.fetchPoll, Api.votePoll, request_of.
  destruct (getSiteKey config (env_document env)) as [k|e]; [|done].
  by destruct (getHeaders k env).
Qed.
